(** * GitSmart: the patch filter and the diff structurer

    A shallow embedding of the diff-processing core of the GitSmart
    extension: [createFilteredPatch], [getFileChangeType] and [parseDiff],
    with the split of the staged diff ([parseStagedDiffs]), the texts of
    the review panel ([getDiffStats], [escapeHtml]) and the corresponding
    functions of two earlier versions of the extension.

    Conventions of the embedding.
    - A JavaScript string is a [string]; each [ascii] stands for one code
      unit in the range 0..255.
    - A JavaScript number holding a line number or a line count is a [Z].
      Every integer of absolute value at most 2^53 is a double, and on that
      range [parseInt], [+ 1], [-] and the decimal printing of a template
      literal are exact, so the embedding follows the code as long as the
      numbers written in hunk headers stay in that range.
    - An array that is only ever extended with [push] is a [list] extended
      at its end.
    - A [RegExp] built without flags is a pure predicate on strings, its
      [test] method. *)

From Stdlib Require Import ZArith List String Ascii Bool Lia Permutation.
From Stdlib Require Import Decimal DecimalString DecimalPos DecimalZ.
Import ListNotations.

Open Scope string_scope.
Open Scope Z_scope.

(** ** String primitives of the runtime *)

Module JS.

Definition LF : ascii := "010"%char.

(** [line.startsWith(p)] *)
Fixpoint startsWith (s p : string) {struct p} : bool :=
  match p with
  | EmptyString => true
  | String a p' =>
      match s with
      | EmptyString => false
      | String b s' => Ascii.eqb a b && startsWith s' p'
      end
  end.

(** [s.includes(sub)] *)
Fixpoint includes (s sub : string) : bool :=
  startsWith s sub ||
  match s with
  | EmptyString => false
  | String _ s' => includes s' sub
  end.

(** [s.substring(1)] *)
Definition substring1 (s : string) : string :=
  match s with
  | EmptyString => EmptyString
  | String _ s' => s'
  end.

(** White space and line terminators among the code units 0..255:
    TAB, LF, VT, FF, CR, SP and NBSP. *)
Definition isWhiteSpace (c : ascii) : bool :=
  let n := nat_of_ascii c in
  (Nat.leb 9 n && Nat.leb n 13) || Nat.eqb n 32 || Nat.eqb n 160.

Fixpoint trimStart (s : string) : string :=
  match s with
  | EmptyString => EmptyString
  | String c s' => if isWhiteSpace c then trimStart s' else s
  end.

Fixpoint trimEnd (s : string) : string :=
  match s with
  | EmptyString => EmptyString
  | String c s' =>
      match trimEnd s' with
      | EmptyString => if isWhiteSpace c then EmptyString else String c EmptyString
      | t => String c t
      end
  end.

(** [s.trim()] *)
Definition trim (s : string) : string := trimEnd (trimStart s).

(** [s.split("\n")]: never empty, [""] for the empty string. *)
Fixpoint split (s : string) : list string :=
  match s with
  | EmptyString => [EmptyString]
  | String c s' =>
      if Ascii.eqb c LF then EmptyString :: split s'
      else match split s' with
           | [] => [String c EmptyString]
           | l :: ls => String c l :: ls
           end
  end.

(** [lines.join("\n")] *)
Fixpoint join (ls : list string) : string :=
  match ls with
  | [] => EmptyString
  | [l] => l
  | l :: ls' => l ++ String LF (join ls')
  end.

Definition isDigit (c : ascii) : bool :=
  let n := nat_of_ascii c in Nat.leb 48 n && Nat.leb n 57.

Definition digitValue (c : ascii) : Z := Z.of_nat (nat_of_ascii c) - 48.

Fixpoint parseDigits (acc : Z) (s : string) : Z :=
  match s with
  | EmptyString => acc
  | String c s' =>
      if isDigit c then parseDigits (10 * acc + digitValue c) s' else acc
  end.

(** [parseInt(s)] and [parseInt(s, 10)], for the only arguments the
    extension passes: the text captured by a group [(\d+)], a non-empty
    run of decimal digits. *)
Definition parseInt (s : string) : Z := parseDigits 0 s.

(** The text a template literal substitutes for an integer number. *)
Definition toString (n : Z) : string := NilEmpty.string_of_int (Z.to_int n).

End JS.

(** ** Regular expressions

    The patterns of the rule set are compiled by the runtime.  The fragment
    below (literals, classes, sequence, alternation, iteration, an optional
    leading [^]) covers the patterns written in the extension and is run
    with derivatives. *)

Module Regex.

Inductive re : Type :=
| Void : re
| Eps : re
| Chr : ascii -> re
| Cls : (ascii -> bool) -> re
| Seq : re -> re -> re
| Alt : re -> re -> re
| Star : re -> re.

Fixpoint nullable (r : re) : bool :=
  match r with
  | Void => false
  | Eps => true
  | Chr _ => false
  | Cls _ => false
  | Seq r1 r2 => nullable r1 && nullable r2
  | Alt r1 r2 => nullable r1 || nullable r2
  | Star _ => true
  end.

Fixpoint deriv (c : ascii) (r : re) : re :=
  match r with
  | Void => Void
  | Eps => Void
  | Chr a => if Ascii.eqb a c then Eps else Void
  | Cls p => if p c then Eps else Void
  | Seq r1 r2 =>
      if nullable r1
      then Alt (Seq (deriv c r1) r2) (deriv c r2)
      else Seq (deriv c r1) r2
  | Alt r1 r2 => Alt (deriv c r1) (deriv c r2)
  | Star r1 => Seq (deriv c r1) (Star r1)
  end.

(** Some prefix of [s] is matched by [r]. *)
Fixpoint matchesAt (s : string) (r : re) : bool :=
  nullable r ||
  match s with
  | EmptyString => false
  | String c s' => matchesAt s' (deriv c r)
  end.

(** Some substring of [s] is matched by [r]. *)
Fixpoint search (s : string) (r : re) : bool :=
  matchesAt s r ||
  match s with
  | EmptyString => false
  | String _ s' => search s' r
  end.

Fixpoint lit (s : string) : re :=
  match s with
  | EmptyString => Eps
  | String c s' => Seq (Chr c) (lit s')
  end.

(** [r+] and [r?] *)
Definition plus (r : re) : re := Seq r (Star r).
Definition opt (r : re) : re := Alt Eps r.

(** A pattern: whether it starts with [^], and the rest. *)
Record pattern : Type := { anchored : bool; body : re }.

Definition run (p : pattern) (s : string) : bool :=
  if anchored p then matchesAt s (body p) else search s (body p).

(** The strings a regular expression matches. *)
Inductive lang : re -> string -> Prop :=
| lang_eps : lang Eps EmptyString
| lang_chr (a : ascii) : lang (Chr a) (String a EmptyString)
| lang_cls (p : ascii -> bool) (a : ascii) : p a = true -> lang (Cls p) (String a EmptyString)
| lang_seq (r1 r2 : re) (s1 s2 : string) :
    lang r1 s1 -> lang r2 s2 -> lang (Seq r1 r2) (s1 ++ s2)
| lang_alt_l (r1 r2 : re) (s : string) : lang r1 s -> lang (Alt r1 r2) s
| lang_alt_r (r1 r2 : re) (s : string) : lang r2 s -> lang (Alt r1 r2) s
| lang_star_nil (r : re) : lang (Star r) EmptyString
| lang_star_cons (r : re) (s1 s2 : string) :
    lang r s1 -> lang (Star r) s2 -> lang (Star r) (s1 ++ s2).

End Regex.

(** [new RegExp(pattern)]: an object whose [test] is a pure predicate. *)
Record RegExp : Type := { test : string -> bool }.

Definition compile (p : Regex.pattern) : RegExp := {| test := Regex.run p |}.

(** [^\s*console\.(log|error|warn)\(] *)
Definition consoleCallPattern : Regex.pattern :=
  {| Regex.anchored := true;
     Regex.body :=
       Regex.Seq (Regex.Star (Regex.Cls JS.isWhiteSpace))
         (Regex.Seq (Regex.lit "console.")
            (Regex.Seq
               (Regex.Alt (Regex.lit "log")
                  (Regex.Alt (Regex.lit "error") (Regex.lit "warn")))
               (Regex.Chr "("))) |}.

(** [^\s*debugger;] *)
Definition debuggerPattern : Regex.pattern :=
  {| Regex.anchored := true;
     Regex.body :=
       Regex.Seq (Regex.Star (Regex.Cls JS.isWhiteSpace)) (Regex.lit "debugger;") |}.

(** [^\s*console\.], the rule of the specification's example. *)
Definition consolePattern : Regex.pattern :=
  {| Regex.anchored := true;
     Regex.body :=
       Regex.Seq (Regex.Star (Regex.Cls JS.isWhiteSpace)) (Regex.lit "console.") |}.

(** The rule set used when the setting [filterPatterns] is absent. *)
Definition defaultFilterRegexes : list RegExp :=
  [compile consoleCallPattern; compile debuggerPattern].

(** [config.get("filterPatterns") || [...]], compiled: an array that is
    set, empty or not, is used as it is. *)
Definition configuredFilterRegexes (setting : option (list RegExp)) : list RegExp :=
  match setting with
  | Some patterns => patterns
  | None => defaultFilterRegexes
  end.

(** The two hunk-header patterns, written as regular expressions. *)
Definition digitsRe : Regex.re := Regex.plus (Regex.Cls JS.isDigit).

(** [@@ -(\d+),(\d+) \+(\d+),(\d+) @@] *)
Definition filterHeaderRe : Regex.re :=
  Regex.Seq (Regex.lit "@@ -") (Regex.Seq digitsRe (Regex.Seq (Regex.Chr ",")
    (Regex.Seq digitsRe (Regex.Seq (Regex.lit " +") (Regex.Seq digitsRe
      (Regex.Seq (Regex.Chr ",") (Regex.Seq digitsRe (Regex.lit " @@")))))))).

(** [@@ -\d+(?:,\d+)? \+(\d+)(?:,\d+)? @@] *)
Definition parseHeaderRe : Regex.re :=
  let count := Regex.opt (Regex.Seq (Regex.Chr ",") digitsRe) in
  Regex.Seq (Regex.lit "@@ -") (Regex.Seq digitsRe (Regex.Seq count
    (Regex.Seq (Regex.lit " +") (Regex.Seq digitsRe (Regex.Seq count
      (Regex.lit " @@")))))).

(** ** Hunk-header patterns

    Both header patterns are sequences of literals and digit runs.  A digit
    run [\d+] is always followed by a literal that is not a digit, so only
    the longest run can let the rest of the pattern match, and the optional
    group [(?:,\d+)?] is followed by a space, so it is taken exactly when a
    comma and a digit follow.  The matchers below therefore scan without
    backtracking; [firstMatch] tries every start position from the left, as
    [String.prototype.match] does for a pattern without flags.  That each
    matcher succeeds exactly where its pattern matches is proved below
    ([header_matchers_recognise]), against [filterHeaderRe] and
    [parseHeaderRe]. *)

Module Header.

Definition bind {A B : Type} (o : option A) (f : A -> option B) : option B :=
  match o with
  | Some a => f a
  | None => None
  end.

Notation "x <- e ;; k" := (bind e (fun x => k))
  (at level 61, e at next level, right associativity).
Notation "' p <- e ;; k" := (bind e (fun x => let 'p := x in k))
  (at level 61, p pattern, e at next level, right associativity).

(** A literal piece of the pattern. *)
Fixpoint eat (l s : string) {struct l} : option string :=
  match l with
  | EmptyString => Some s
  | String a l' =>
      match s with
      | EmptyString => None
      | String b s' => if Ascii.eqb a b then eat l' s' else None
      end
  end.

(** The longest run of digits at the start of [s], and what follows. *)
Fixpoint digitRun (s : string) : string * string :=
  match s with
  | EmptyString => (EmptyString, EmptyString)
  | String c s' =>
      if JS.isDigit c
      then let (d, r) := digitRun s' in (String c d, r)
      else (EmptyString, s)
  end.

(** [\d+] *)
Definition digits (s : string) : option (string * string) :=
  match digitRun s with
  | (EmptyString, _) => None
  | (d, r) => Some (d, r)
  end.

(** [(?:,\d+)?] *)
Definition optCount (s : string) : string :=
  match (s1 <- eat "," s ;; digits s1) with
  | Some (_, r) => r
  | None => s
  end.

Fixpoint firstMatch {A : Type} (at_ : string -> option A) (s : string) : option A :=
  match at_ s with
  | Some m => Some m
  | None =>
      match s with
      | EmptyString => None
      | String _ s' => firstMatch at_ s'
      end
  end.

(** The capture groups 1 to 4 of the patch filter's pattern. *)
Record groups : Type := { g1 : string; g2 : string; g3 : string; g4 : string }.

(** [/@@ -(\d+),(\d+) \+(\d+),(\d+) @@/] at the start of [s]. *)
Definition filterHeaderAt (s : string) : option groups :=
  s <- eat "@@ -" s ;;
  '(a, s) <- digits s ;;
  s <- eat "," s ;;
  '(b, s) <- digits s ;;
  s <- eat " +" s ;;
  '(c, s) <- digits s ;;
  s <- eat "," s ;;
  '(d, s) <- digits s ;;
  _ <- eat " @@" s ;;
  Some {| g1 := a; g2 := b; g3 := c; g4 := d |}.

(** [currentHunk[0].match(/@@ -(\d+),(\d+) \+(\d+),(\d+) @@/)] *)
Definition filterHeaderMatch : string -> option groups := firstMatch filterHeaderAt.

(** [/@@ -\d+(?:,\d+)? \+(\d+)(?:,\d+)? @@/] at the start of [s]; the
    result is capture group 1. *)
Definition parseHeaderAt (s : string) : option string :=
  s <- eat "@@ -" s ;;
  '(_, s) <- digits s ;;
  s <- eat " +" (optCount s) ;;
  '(c, s) <- digits s ;;
  _ <- eat " @@" (optCount s) ;;
  Some c.

(** [line.match(/@@ -\d+(?:,\d+)? \+(\d+)(?:,\d+)? @@/)] *)
Definition parseHeaderMatch : string -> option string := firstMatch parseHeaderAt.

End Header.

(** ** The patch filter: [createFilteredPatch] *)

Module PatchFilter.

(** The variables of the loop. *)
Record state : Type := {
  filteredLines : list string;
  currentHunk : list string;
  skippedLines : Z
}.

Definition initial : state :=
  {| filteredLines := []; currentHunk := []; skippedLines := 0 |}.

(** The test guarding "Keep file headers". *)
Definition isFileHeader (line : string) : bool :=
  JS.startsWith line "diff " || JS.startsWith line "index " ||
  JS.startsWith line "--- " || JS.startsWith line "+++ ".

Definition isHunkStart (line : string) : bool := JS.startsWith line "@@".

(** The template literal that rewrites [currentHunk[0]]. *)
Definition formatHeader (oldStart : Z) (oldCount : string)
    (newStart newFinalCount : Z) : string :=
  "@@ -" ++ JS.toString oldStart ++ "," ++ oldCount ++
  " +" ++ JS.toString newStart ++ "," ++ JS.toString newFinalCount ++ " @@".

Definition rewriteHeader (header : string) (skipped : Z) : string :=
  match Header.filterHeaderMatch header with
  | Some m =>
      let oldStart := JS.parseInt (Header.g1 m) in
      let newStart := JS.parseInt (Header.g3 m) in
      let newFinalCount := JS.parseInt (Header.g4 m) - skipped in
      formatHeader oldStart (Header.g2 m) newStart newFinalCount
  | None => header
  end.

(** "Process previous hunk if it exists" and "Process the last hunk":
    the lines pushed onto [filteredLines]. *)
Definition finalizeHunk (hunk : list string) (skipped : Z) : list string :=
  match hunk with
  | [] => []
  | header :: body => rewriteHeader header skipped :: body
  end.

Definition flush (st : state) : list string :=
  filteredLines st ++ finalizeHunk (currentHunk st) (skippedLines st).

(** [filterRegexes.some((regex) => regex.test(codeLine))] for the line
    [line] of a hunk that starts with [+]. *)
Definition shouldFilter (filterRegexes : list RegExp) (line : string) : bool :=
  let codeLine := JS.trim (JS.substring1 line) in
  existsb (fun regex => test regex codeLine) filterRegexes.

(** One iteration of [for (const line of lines)]. *)
Definition step (filterRegexes : list RegExp) (st : state) (line : string) : state :=
  if isFileHeader line then
    {| filteredLines := filteredLines st ++ [line];
       currentHunk := currentHunk st;
       skippedLines := skippedLines st |}
  else if isHunkStart line then
    {| filteredLines := flush st;
       currentHunk := [line];
       skippedLines := 0 |}
  else
    match currentHunk st with
    | [] => st
    | _ :: _ =>
        if JS.startsWith line "+" then
          if shouldFilter filterRegexes line then
            {| filteredLines := filteredLines st;
               currentHunk := currentHunk st;
               skippedLines := skippedLines st + 1 |}
          else
            {| filteredLines := filteredLines st;
               currentHunk := currentHunk st ++ [line];
               skippedLines := skippedLines st |}
        else
          {| filteredLines := filteredLines st;
             currentHunk := currentHunk st ++ [line];
             skippedLines := skippedLines st |}
    end.

Definition run (filterRegexes : list RegExp) (lines : list string) (st : state) : state :=
  fold_left (step filterRegexes) lines st.

(** The array [filteredLines] when the function returns. *)
Definition filterLines (filterRegexes : list RegExp) (lines : list string) : list string :=
  flush (run filterRegexes lines initial).

(** [createFilteredPatch(diff, filePath)], with the compiled rule set as
    an argument; [filePath] is not used by the function. *)
Definition createFilteredPatch (filterRegexes : list RegExp) (diff : string) : string :=
  JS.join (filterLines filterRegexes (JS.split diff)).

(** *** Vocabulary for the properties of the filter *)

(** A line of a hunk that the loop treats as an addition: it starts with
    [+] and was not taken for a file header ([+++ ]) first. *)
Definition isAdded (line : string) : bool :=
  JS.startsWith line "+" && negb (isFileHeader line).

(** An addition that the rule set excludes. *)
Definition dropped (filterRegexes : list RegExp) (line : string) : bool :=
  isAdded line && shouldFilter filterRegexes line.

(** The lines of a hunk body that stay in the hunk. *)
Definition keptBody (filterRegexes : list RegExp) (body : list string) : list string :=
  filter (fun l => negb (isFileHeader l) && negb (dropped filterRegexes l)) body.

(** The lines of a hunk body that are taken for file headers. *)
Definition headersOf (body : list string) : list string :=
  filter isFileHeader body.

Definition skippedCount (filterRegexes : list RegExp) (body : list string) : Z :=
  Z.of_nat (List.length (filter (dropped filterRegexes) body)).

Fixpoint beforeFirstHunk (lines : list string) : list string :=
  match lines with
  | [] => []
  | l :: ls => if isHunkStart l then [] else l :: beforeFirstHunk ls
  end.

Fixpoint fromFirstHunk (lines : list string) : list string :=
  match lines with
  | [] => []
  | l :: ls => if isHunkStart l then lines else fromFirstHunk ls
  end.

(** A body line starting with [+], the file-header line [+++ ] excluded. *)
Definition plusLine (line : string) : bool :=
  JS.startsWith line "+" && negb (JS.startsWith line "+++ ").


(** The state with [fl] put in front of the lines already emitted. *)
Definition prepend (fl : list string) (st : state) : state :=
  {| filteredLines := fl ++ filteredLines st;
     currentHunk := currentHunk st;
     skippedLines := skippedLines st |}.

(** What the filter writes for a line of a hunk when nothing is dropped. *)
Definition canonicalLine (line : string) : string :=
  if isHunkStart line then rewriteHeader line 0 else line.

End PatchFilter.

(** ** The diff structurer: [getFileChangeType] and [parseDiff] *)

Module DiffStructurer.

Inductive LineType : Type := added | removed | context.

Record DiffLine : Type := {
  type : LineType;
  content : string;
  lineNumber : Z
}.

Record Hunk : Type := {
  header : string;
  lines : list DiffLine
}.

(** The object returned by [parseDiff]; [isBinary] is absent on the
    path that parses lines.  The field [type] of the source is
    [changeType] here, the name [type] being taken by [DiffLine]. *)
Record FileDiff : Type := {
  filePath : string;
  changeType : Z;
  hunks : list Hunk;
  isBinary : option bool
}.

Definition getFileChangeType (diff : string) : Z :=
  if JS.includes diff "new file mode" then 7
  else if JS.includes diff "deleted file mode" then 6
  else 1.

(** [getFileChangeText], the reading of the codes by the review panel. *)
Definition getFileChangeText (t : Z) : string :=
  if t =? 6 then "Deleted:"
  else if t =? 7 then "Added:"
  else "Changed:".

(** The variables of the loop; [doneHunks] is the array [hunks] of the
    source, the name being taken by [FileDiff], and [None] is [null]. *)
Record state : Type := {
  doneHunks : list Hunk;
  currentHunk : option Hunk;
  currentLineNumber : Z
}.

Definition initial : state :=
  {| doneHunks := []; currentHunk := None; currentLineNumber := 0 |}.

Definition isSkippedHeader (line : string) : bool :=
  JS.startsWith line "diff --git" || JS.startsWith line "index " ||
  JS.startsWith line "new file" || JS.startsWith line "deleted file".

(** [match ? parseInt(match[1], 10) : 0] *)
Definition hunkStart (line : string) : Z :=
  match Header.parseHeaderMatch line with
  | Some c => JS.parseInt c
  | None => 0
  end.

Definition push (h : Hunk) (e : DiffLine) : Hunk :=
  {| header := header h; lines := lines h ++ [e] |}.

Definition pushCurrent (st : state) : list Hunk :=
  match currentHunk st with
  | Some h => doneHunks st ++ [h]
  | None => doneHunks st
  end.

(** One iteration of [for (const line of lines)]. *)
Definition step (st : state) (line : string) : state :=
  if isSkippedHeader line then st
  else if JS.startsWith line "@@" then
    {| doneHunks := pushCurrent st;
       currentHunk := Some {| header := line; lines := [] |};
       currentLineNumber := hunkStart line |}
  else
    match currentHunk st with
    | None => st
    | Some h =>
        let n := currentLineNumber st in
        if JS.startsWith line "+" then
          {| doneHunks := doneHunks st;
             currentHunk := Some (push h {| type := added; content := line; lineNumber := n |});
             currentLineNumber := n + 1 |}
        else if JS.startsWith line "-" then
          {| doneHunks := doneHunks st;
             currentHunk := Some (push h {| type := removed; content := line; lineNumber := n |});
             currentLineNumber := n |}
        else if negb (JS.startsWith line "\") then
          {| doneHunks := doneHunks st;
             currentHunk := Some (push h {| type := context; content := line; lineNumber := n |});
             currentLineNumber := n + 1 |}
        else st
    end.

Definition run (lines : list string) (st : state) : state :=
  fold_left step lines st.

(** [if (currentHunk && currentHunk.lines.length > 0) hunks.push(currentHunk)] *)
Definition finish (st : state) : list Hunk :=
  match currentHunk st with
  | Some h =>
      match lines h with
      | [] => doneHunks st
      | _ :: _ => doneHunks st ++ [h]
      end
  | None => doneHunks st
  end.

Definition isBinaryDiff (diff : string) : bool :=
  JS.includes diff "Binary files" || JS.includes diff "GIT binary patch".

Definition parseDiff (diff filePath : string) (type : Z) : FileDiff :=
  if isBinaryDiff diff then
    {| filePath := filePath; changeType := type; hunks := []; isBinary := Some true |}
  else
    {| filePath := filePath; changeType := type;
       hunks := finish (run (JS.split diff) initial);
       isBinary := None |}.

(** The body of the loop of [parseStagedDiffs] for one segment. *)
Definition structureSegment (fileDiff fullFilePath : string) : FileDiff :=
  parseDiff fileDiff fullFilePath (getFileChangeType fileDiff).

(** *** Vocabulary for the properties of the structurer *)

(** The counter after an entry has been emitted. *)
Definition advance (n : Z) (e : DiffLine) : Z :=
  match type e with
  | removed => n
  | added | context => n + 1
  end.

(** The entries carry the successive values of a counter started at [n]. *)
Fixpoint numbered (n : Z) (es : list DiffLine) : Prop :=
  match es with
  | [] => True
  | e :: es' => lineNumber e = n /\ numbered (advance n e) es'
  end.

Definition wellNumbered (h : Hunk) : Prop :=
  numbered (hunkStart (header h)) (lines h).

(** The counter after all the entries of a hunk. *)
Definition counterAfter (h : Hunk) : Z :=
  fold_left advance (lines h) (hunkStart (header h)).

(** What the loop maintains: finished hunks are well numbered, and so is
    the one being built, whose counter is [currentLineNumber]. *)
Definition invariant (st : state) : Prop :=
  Forall wellNumbered (doneHunks st) /\
  match currentHunk st with
  | Some h => wellNumbered h /\ currentLineNumber st = counterAfter h
  | None => True
  end.

End DiffStructurer.

(** ** Sample inputs *)

Module Samples.

(** The hunk and the rule of the specification's example. *)
Definition rules : list RegExp := [compile consolePattern].
Definition hunkHeader : string := "@@ -10,3 +10,4 @@".
Definition hunkBody : list string :=
  [" ctx1"; "+console.log('x')"; "+keep()"; " ctx2"].
Definition hunkDiff : string := JS.join (hunkHeader :: hunkBody).

(** A diff as [git diff] prints it, the hunk header followed by the
    enclosing function. *)
Definition gitDiff : string :=
  JS.join ["diff --git a/f.js b/f.js"; "index 1111111..2222222 100644";
           "--- a/f.js"; "+++ b/f.js";
           "@@ -1,2 +1,3 @@ function f() {"; " a"; "+b"; " c"].

(** The same diff with the bare header. *)
Definition plainDiff : string :=
  JS.join ["diff --git a/f.js b/f.js"; "index 1111111..2222222 100644";
           "--- a/f.js"; "+++ b/f.js";
           "@@ -1,2 +1,3 @@"; " a"; "+b"; " c"].

(** A change of mode only: no hunk. *)
Definition modeDiff : string :=
  JS.join ["diff --git a/run.sh b/run.sh"; "old mode 100644"; "new mode 100755"].

(** A segment with removed, added and context lines and the marker of a
    missing final newline. *)
Definition segment : string :=
  JS.join ["diff --git a/f.js b/f.js"; "index 1111111..2222222 100644";
           "--- a/f.js"; "+++ b/f.js";
           "@@ -4,3 +7,3 @@"; " a"; "-b"; "+c"; " d"; "\ No newline at end of file"].

Definition segmentHunk : DiffStructurer.Hunk :=
  {| DiffStructurer.header := "@@ -4,3 +7,3 @@";
     DiffStructurer.lines :=
       [ {| DiffStructurer.type := DiffStructurer.context;
            DiffStructurer.content := " a"; DiffStructurer.lineNumber := 7 |};
         {| DiffStructurer.type := DiffStructurer.removed;
            DiffStructurer.content := "-b"; DiffStructurer.lineNumber := 8 |};
         {| DiffStructurer.type := DiffStructurer.added;
            DiffStructurer.content := "+c"; DiffStructurer.lineNumber := 8 |};
         {| DiffStructurer.type := DiffStructurer.context;
            DiffStructurer.content := " d"; DiffStructurer.lineNumber := 9 |} ] |}.

(** Lines on which the header patterns are tried. *)
Definition headerLines : list string :=
  ["@@ -10,3 +10,4 @@"; "@@ -10,3 +10,4 @@ function f() {"; "@@ -1 +1 @@";
   "@@ -1,2 +3 @@"; "@@ -1 +2,3 @@"; "@@ -0,0 +1,12 @@"; "@@ -1, +1,2 @@";
   "@@ -1,2 +1,2@@"; "@@@ -1,2 -1,2 +1,3 @@@"; "@@ x @@ -1,2 +3,4 @@";
   "@@ -1 +5 @@ @@ -1,2 +3,4 @@"; "@@"; ""; "@@ -a,b +c,d @@"].

Definition binarySegment : string :=
  JS.join ["diff --git a/logo.png b/logo.png"; "index 1111111..2222222 100644";
           "Binary files a/logo.png and b/logo.png differ"].

End Samples.

(** Whether a match was found. *)
Definition matched {A : Type} (o : option A) : bool :=
  match o with
  | Some _ => true
  | None => false
  end.

(** Strings without a line feed: the lines of a text. *)
Fixpoint noLF (s : string) : bool :=
  match s with
  | EmptyString => true
  | String c s' => negb (Ascii.eqb c JS.LF) && noLF s'
  end.

Fixpoint allDigits (s : string) : bool :=
  match s with
  | EmptyString => true
  | String c s' => JS.isDigit c && allDigits s'
  end.

(** The text after a digit run: empty, or starting with a non-digit. *)
Definition startsNonDigit (s : string) : bool :=
  match s with
  | EmptyString => true
  | String c _ => negb (JS.isDigit c)
  end.

(** An optional count: nothing, or a comma and digits. *)
Definition isCount (o : string) : Prop :=
  o = EmptyString \/ exists b, o = "," ++ b /\ allDigits b = true /\ b <> EmptyString.

(** A decimal numeral as a template literal prints it: digits, not empty,
    no leading zero except for ["0"] itself. *)
Definition isNumeral (s : string) : bool :=
  match s with
  | EmptyString => false
  | String c s' =>
      allDigits s && (negb (Ascii.eqb c "0") || String.eqb s' EmptyString)
  end.

(** The value of a decimal number read from the left with accumulator. *)
Fixpoint uintValue (acc : Z) (d : uint) : Z :=
  match d with
  | Nil => acc
  | D0 d' => uintValue (10 * acc) d'
  | D1 d' => uintValue (10 * acc + 1) d'
  | D2 d' => uintValue (10 * acc + 2) d'
  | D3 d' => uintValue (10 * acc + 3) d'
  | D4 d' => uintValue (10 * acc + 4) d'
  | D5 d' => uintValue (10 * acc + 5) d'
  | D6 d' => uintValue (10 * acc + 6) d'
  | D7 d' => uintValue (10 * acc + 7) d'
  | D8 d' => uintValue (10 * acc + 8) d'
  | D9 d' => uintValue (10 * acc + 9) d'
  end.

(** ** Safe integers

    The numbers of the code are doubles.  On the integers of absolute
    value at most [Number.MAX_SAFE_INTEGER] the results of [parseInt],
    [++], [-] and the printing of a template literal are exact, and the
    [Z] of the embedding is the number of the code.  Beyond that range
    [parseInt] rounds, [++] may leave a counter where it is and a
    template literal may print a rounded number or an exponent, which
    the embedding does not follow: the properties that depend on the
    value of a number read or written are stated for safe integers. *)

Module Safe.

Definition MAX_SAFE_INTEGER : Z := 2 ^ 53 - 1.

(** [Number.isSafeInteger(n)], for an integer. *)
Definition isSafeInteger (n : Z) : bool :=
  (- MAX_SAFE_INTEGER <=? n) && (n <=? MAX_SAFE_INTEGER).

(** The three numbers that the filter reads from a header with
    [parseInt]: groups 1, 3 and 4. *)
Definition headerNumbers (m : Header.groups) : bool :=
  isSafeInteger (JS.parseInt (Header.g1 m)) &&
  isSafeInteger (JS.parseInt (Header.g3 m)) &&
  isSafeInteger (JS.parseInt (Header.g4 m)).

(** A line, for the numbers that the filter reads when it takes the line
    for the header of a hunk. *)
Definition headerLine (line : string) : bool :=
  match Header.filterHeaderMatch line with
  | Some m => headerNumbers m
  | None => true
  end.

(** A number of lines, which bounds the counter [skippedLines]. *)
Definition lineCount (lines : list string) : bool :=
  isSafeInteger (Z.of_nat (List.length lines)).

(** The counter of the structurer over a hunk: it starts at the new
    start read from the header and has gone up by at most the number of
    entries. *)
Definition counter (h : DiffStructurer.Hunk) : bool :=
  isSafeInteger
    (DiffStructurer.hunkStart (DiffStructurer.header h) +
     Z.of_nat (List.length (DiffStructurer.lines h))).

End Safe.

(** ** Further vocabulary for the patch filter *)

Module FilterMore.

(** The lines starting with [@@]. *)
Definition hunkStarts (lines : list string) : list string :=
  filter PatchFilter.isHunkStart lines.

(** A line of a hunk on the new side: an addition or a context line. *)
Definition newSide (line : string) : bool :=
  JS.startsWith line "+" || JS.startsWith line " ".

(** A line of a hunk on the old side: a removal or a context line. *)
Definition oldSide (line : string) : bool :=
  JS.startsWith line "-" || JS.startsWith line " ".

Definition count (p : string -> bool) (lines : list string) : Z :=
  Z.of_nat (List.length (filter p lines)).

(** The number of [@] in a string. *)
Fixpoint countAt (s : string) : nat :=
  match s with
  | EmptyString => 0%nat
  | String c s' => ((if Ascii.eqb c "@" then 1 else 0) + countAt s')%nat
  end.

(** A line of a hunk on which a further filtering has nothing to do: not
    a file header, not excluded, and fixed by the rewriting of headers. *)
Definition settled (filterRegexes : list RegExp) (l : string) : Prop :=
  PatchFilter.isFileHeader l = false /\
  PatchFilter.dropped filterRegexes l = false /\
  PatchFilter.canonicalLine l = l.

End FilterMore.

(** ** Further vocabulary for the diff structurer *)

Module StructurerMore.

Import DiffStructurer.

(** The kind the loop gives to a line that becomes an entry. *)
Definition classify (line : string) : LineType :=
  if JS.startsWith line "+" then added
  else if JS.startsWith line "-" then removed
  else context.

(** The lines that become entries once a hunk is open. *)
Definition isEntryLine (line : string) : bool :=
  negb (isSkippedHeader line) && negb (JS.startsWith line "@@") &&
  negb (JS.startsWith line "\").

(** All the entries of a sequence of hunks, in order. *)
Definition entries (hs : list Hunk) : list DiffLine := flat_map lines hs.

(** The entries held by a state of the loop. *)
Definition stateEntries (st : state) : list DiffLine :=
  (entries (doneHunks st) ++
   match currentHunk st with
   | Some h => lines h
   | None => []
   end)%list.

(** The headers held by a state of the loop. *)
Definition stateHeaders (st : state) : list string :=
  (map header (doneHunks st) ++
   match currentHunk st with
   | Some h => [header h]
   | None => []
   end)%list.

Definition kindAndContent (e : DiffLine) : LineType * string := (type e, content e).

Definition isAddedEntry (e : DiffLine) : bool :=
  match type e with
  | added => true
  | _ => false
  end.

Definition isRemoved (e : DiffLine) : bool :=
  match type e with
  | removed => true
  | _ => false
  end.

(** The line numbers of the added entries. *)
Definition addedNumbers (es : list DiffLine) : list Z :=
  map lineNumber (filter isAddedEntry es).

End StructurerMore.

(** ** The review panel: [getDiffStats] and [escapeHtml] *)

Module Webview.

(** [array.join(sep)] *)
Fixpoint joinWith (sep : string) (ls : list string) : string :=
  match ls with
  | [] => EmptyString
  | [l] => l
  | l :: ls' => l ++ sep ++ joinWith sep ls'
  end.

(** The body of the inner loop of [getDiffStats]: the two counters after
    one entry. *)
Definition countLine (acc : Z * Z) (line : DiffStructurer.DiffLine) : Z * Z :=
  let (additions, deletions) := acc in
  (match DiffStructurer.type line with
   | DiffStructurer.added => additions + 1
   | _ => additions
   end,
   match DiffStructurer.type line with
   | DiffStructurer.removed => deletions + 1
   | _ => deletions
   end).

(** The two loops of [getDiffStats]. *)
Definition countLines (hunks : list DiffStructurer.Hunk) : Z * Z :=
  fold_left (fun acc hunk => fold_left countLine (DiffStructurer.lines hunk) acc)
    hunks (0, 0).

(** The end of [getDiffStats]: the array [stats] and its joining.  The
    sign written before the deletions is U+2212, which is not among the
    code units 0..255 of the strings of this development: it is the
    argument [minus]. *)
Definition statsText (minus : string) (additions deletions : Z) : string :=
  let stats :=
    ((if 0 <? additions then [("+" ++ JS.toString additions)%string] else []) ++
     (if 0 <? deletions then [(minus ++ JS.toString deletions)%string] else []))%list in
  joinWith " " stats.

Definition getDiffStats (minus : string) (diff : DiffStructurer.FileDiff) : string :=
  let (additions, deletions) := countLines (DiffStructurer.hunks diff) in
  statsText minus additions deletions.

(** [s.replace(/c/g, rep)] for a pattern of one character and a
    replacement without [$]. *)
Fixpoint replaceAll (c : ascii) (rep : string) (s : string) : string :=
  match s with
  | EmptyString => EmptyString
  | String x s' =>
      if Ascii.eqb x c then rep ++ replaceAll c rep s'
      else String x (replaceAll c rep s')
  end.

(** The double quote, code unit 34. *)
Definition DQUOTE : ascii := "034"%char.

Definition escapeHtml (unsafe : string) : string :=
  replaceAll "'" "&#039;"
    (replaceAll DQUOTE "&quot;"
       (replaceAll ">" "&gt;"
          (replaceAll "<" "&lt;"
             (replaceAll "&" "&amp;" unsafe)))).

(** The text that [generateDiffHtml] puts in the [line-content] span of
    an entry: [${prefix}${escapeHtml(line.content)}]. *)
Definition linePrefix (t : DiffStructurer.LineType) : string :=
  match t with
  | DiffStructurer.added => "+"
  | DiffStructurer.removed => "-"
  | DiffStructurer.context => " "
  end.

Definition lineContentHtml (line : DiffStructurer.DiffLine) : string :=
  linePrefix (DiffStructurer.type line) ++ escapeHtml (DiffStructurer.content line).

(** *** Vocabulary for the properties *)

(** What [escapeHtml] writes for one character. *)
Definition escapeChar (c : ascii) : string :=
  if Ascii.eqb c "&" then "&amp;"
  else if Ascii.eqb c "<" then "&lt;"
  else if Ascii.eqb c ">" then "&gt;"
  else if Ascii.eqb c DQUOTE then "&quot;"
  else if Ascii.eqb c "'" then "&#039;"
  else String c EmptyString.

Fixpoint escapeChars (s : string) : string :=
  match s with
  | EmptyString => EmptyString
  | String c s' => escapeChar c ++ escapeChars s'
  end.

(** The characters that [escapeHtml] replaces, [&] apart. *)
Definition isMarkup (c : ascii) : bool :=
  Ascii.eqb c "<" || Ascii.eqb c ">" || Ascii.eqb c DQUOTE || Ascii.eqb c "'".

Fixpoint occurs (p : ascii -> bool) (s : string) : bool :=
  match s with
  | EmptyString => false
  | String c s' => p c || occurs p s'
  end.

End Webview.

(** ** Splitting the staged diff: [parseStagedDiffs] *)

Module Staged.

Import Header.

Definition CR : ascii := "013"%char.

(** The line terminators among the code units 0..255. *)
Definition isLineTerminator (c : ascii) : bool :=
  Ascii.eqb c JS.LF || Ascii.eqb c CR.

(** [(.*?) b\/]: the shortest run of characters of the line that is
    followed by [ b/]; the run, and what follows [ b/]. *)
Fixpoint lazyUntilB (s : string) : option (string * string) :=
  match eat " b/" s with
  | Some r => Some (EmptyString, r)
  | None =>
      match s with
      | EmptyString => None
      | String c s' =>
          if isLineTerminator c then None
          else '(g, r) <- lazyUntilB s' ;; Some (String c g, r)
      end
  end.

(** [(.*?)$] with the flag [m]: up to the end of the line. *)
Fixpoint restOfLine (s : string) : string :=
  match s with
  | EmptyString => EmptyString
  | String c s' => if isLineTerminator c then EmptyString else String c (restOfLine s')
  end.

(** [diff --git a\/(.*?) b\/(.*?)$] at the start of [s]: groups 1 and 2. *)
Definition diffStartAt (s : string) : option (string * string) :=
  s <- eat "diff --git a/" s ;;
  '(g1, s) <- lazyUntilB s ;;
  Some (g1, restOfLine s).

(** [(?=^diff --git a\/(.*?) b\/(.*?)$)] with the flag [m], at a place
    that is, or is not, the start of a line. *)
Definition lookahead (lineStart : bool) (s : string) : option (string * string) :=
  if lineStart then diffStartAt s else None.

(** [s.split(diffSplitRegex)] from a place after the first character:
    the rest of the current piece, and the elements that follow it.  The
    pattern matches the empty string, so the text is cut before every
    place where it matches, and the two groups are put between the
    pieces. *)
Fixpoint cut (lineStart : bool) (s : string) : string * list string :=
  match s with
  | EmptyString => (EmptyString, [])
  | String c s' =>
      let (piece, more) := cut (isLineTerminator c) s' in
      match lookahead lineStart s with
      | Some (g1, g2) => (EmptyString, g1 :: g2 :: String c piece :: more)
      | None => (String c piece, more)
      end
  end.

(** [stagedDiff.split(diffSplitRegex)]: no cut is made before the first
    character, where the piece that would be cut off is empty. *)
Definition splitDiffs (s : string) : list string :=
  match s with
  | EmptyString => [EmptyString]
  | String c s' => let (piece, more) := cut (isLineTerminator c) s' in String c piece :: more
  end.

(** [diffSplitRegex.exec(fileDiff)]: the first place, from the left,
    where the pattern matches. *)
Fixpoint execFrom (lineStart : bool) (s : string) : option (string * string) :=
  match lookahead lineStart s with
  | Some m => Some m
  | None =>
      match s with
      | EmptyString => None
      | String c s' => execFrom (isLineTerminator c) s'
      end
  end.

Definition exec (s : string) : option (string * string) := execFrom true s.

(** [(str) => str.trim()] as a test. *)
Definition notBlank (str : string) : bool :=
  negb (String.eqb (JS.trim str) EmptyString).

(** The body of [for (const fileDiff of fileDiffs)]: what one element of
    the split adds to [diffs].  [pathJoin] is [path.join] and
    [workspaceRoot] the path of the first workspace folder, or the empty
    string. *)
Definition stagedFile (pathJoin : string -> string -> string)
    (workspaceRoot : string) (fileDiff : string) : list DiffStructurer.FileDiff :=
  match exec fileDiff with
  | Some (_, filePath) =>
      [DiffStructurer.parseDiff fileDiff (pathJoin workspaceRoot filePath)
         (DiffStructurer.getFileChangeType fileDiff)]
  | None => []
  end.

(** [parseStagedDiffs], from the text returned by [repo.diff(true)]. *)
Definition parseStagedDiffs (pathJoin : string -> string -> string)
    (workspaceRoot : string) (stagedDiff : string) : list DiffStructurer.FileDiff :=
  if String.eqb stagedDiff EmptyString then []
  else
    let fileDiffs := filter notBlank (splitDiffs stagedDiff) in
    flat_map (stagedFile pathJoin workspaceRoot) fileDiffs.

(** *** Vocabulary for the properties *)

Fixpoint hasTerminator (s : string) : bool :=
  match s with
  | EmptyString => false
  | String c s' => isLineTerminator c || hasTerminator s'
  end.

Fixpoint endsWithTerminator (s : string) : bool :=
  match s with
  | EmptyString => false
  | String c EmptyString => isLineTerminator c
  | String _ s' => endsWithTerminator s'
  end.

(** An element of the split on which [exec] can only match at the start. *)
Definition startOnly (x : string) : Prop :=
  forall m, exec x = Some m -> diffStartAt x = Some m.

(** The path read by [exec] at the start of a segment. *)
Definition bPath (seg : string) : string :=
  match diffStartAt seg with
  | Some (_, g2) => g2
  | None => EmptyString
  end.

(** The diff of one file as [git diff] prints it: it starts with its
    [diff --git] line, no later line of it is such a line, it ends with
    a line terminator, and its path is not itself such a line. *)
Definition isFileSegment (seg : string) : Prop :=
  diffStartAt seg <> None /\
  execFrom false seg = None /\
  endsWithTerminator seg = true /\
  exec (bPath seg) = None.

(** The elements that the split puts into the array for the segments
    after the first one: the two groups, then the segment. *)
Definition elements (segs : list string) : list string :=
  flat_map
    (fun seg =>
       match diffStartAt seg with
       | Some (g1, g2) => [g1; g2; seg]
       | None => [seg]
       end)
    segs.

End Staged.

(** ** Earlier versions of the extension *)

Module Legacy.

(** The test of [createFilteredPatch] on the trimmed text of an added
    line, before the patterns became a setting. *)
Definition isConsoleCall (codeLine : string) : bool :=
  JS.startsWith codeLine "console.log(" ||
  JS.startsWith codeLine "console.error(" ||
  JS.startsWith codeLine "console.warn(".

(** One iteration of [for (const line of lines)] of [createFilteredPatch]. *)
Definition filterStep (st : PatchFilter.state) (line : string) : PatchFilter.state :=
  if PatchFilter.isFileHeader line then
    {| PatchFilter.filteredLines := PatchFilter.filteredLines st ++ [line];
       PatchFilter.currentHunk := PatchFilter.currentHunk st;
       PatchFilter.skippedLines := PatchFilter.skippedLines st |}
  else if PatchFilter.isHunkStart line then
    {| PatchFilter.filteredLines := PatchFilter.flush st;
       PatchFilter.currentHunk := [line];
       PatchFilter.skippedLines := 0 |}
  else
    match PatchFilter.currentHunk st with
    | [] => st
    | _ :: _ =>
        if JS.startsWith line "+" then
          let codeLine := JS.trim (JS.substring1 line) in
          if isConsoleCall codeLine then
            {| PatchFilter.filteredLines := PatchFilter.filteredLines st;
               PatchFilter.currentHunk := PatchFilter.currentHunk st;
               PatchFilter.skippedLines := PatchFilter.skippedLines st + 1 |}
          else
            {| PatchFilter.filteredLines := PatchFilter.filteredLines st;
               PatchFilter.currentHunk := PatchFilter.currentHunk st ++ [line];
               PatchFilter.skippedLines := PatchFilter.skippedLines st |}
        else
          {| PatchFilter.filteredLines := PatchFilter.filteredLines st;
             PatchFilter.currentHunk := PatchFilter.currentHunk st ++ [line];
             PatchFilter.skippedLines := PatchFilter.skippedLines st |}
    end.

(** [createFilteredPatch(diff, filePath)] of the earlier version. *)
Definition createFilteredPatch (diff : string) : string :=
  JS.join (PatchFilter.flush (fold_left filterStep (JS.split diff) PatchFilter.initial)).

(** [parseDiff] of the earlier version: other lines are skipped as file
    headers, the first character of a line is not kept in [content], and
    binary files are not told apart. *)
Definition isHeaderLine (line : string) : bool :=
  JS.startsWith line "---" || JS.startsWith line "+++".

Definition parseStep (st : DiffStructurer.state) (line : string) : DiffStructurer.state :=
  if isHeaderLine line then st
  else if JS.startsWith line "@@" then
    {| DiffStructurer.doneHunks := DiffStructurer.pushCurrent st;
       DiffStructurer.currentHunk :=
         Some {| DiffStructurer.header := line; DiffStructurer.lines := [] |};
       DiffStructurer.currentLineNumber := DiffStructurer.hunkStart line |}
  else
    match DiffStructurer.currentHunk st with
    | None => st
    | Some h =>
        let n := DiffStructurer.currentLineNumber st in
        if JS.startsWith line "+" then
          {| DiffStructurer.doneHunks := DiffStructurer.doneHunks st;
             DiffStructurer.currentHunk :=
               Some (DiffStructurer.push h
                       {| DiffStructurer.type := DiffStructurer.added;
                          DiffStructurer.content := JS.substring1 line;
                          DiffStructurer.lineNumber := n |});
             DiffStructurer.currentLineNumber := n + 1 |}
        else if JS.startsWith line "-" then
          {| DiffStructurer.doneHunks := DiffStructurer.doneHunks st;
             DiffStructurer.currentHunk :=
               Some (DiffStructurer.push h
                       {| DiffStructurer.type := DiffStructurer.removed;
                          DiffStructurer.content := JS.substring1 line;
                          DiffStructurer.lineNumber := n |});
             DiffStructurer.currentLineNumber := n |}
        else if negb (JS.startsWith line "\") then
          {| DiffStructurer.doneHunks := DiffStructurer.doneHunks st;
             DiffStructurer.currentHunk :=
               Some (DiffStructurer.push h
                       {| DiffStructurer.type := DiffStructurer.context;
                          DiffStructurer.content := JS.substring1 line;
                          DiffStructurer.lineNumber := n |});
             DiffStructurer.currentLineNumber := n + 1 |}
        else st
    end.

Definition parseDiff (diff filePath : string) (type : Z) : DiffStructurer.FileDiff :=
  {| DiffStructurer.filePath := filePath;
     DiffStructurer.changeType := type;
     DiffStructurer.hunks :=
       DiffStructurer.finish (fold_left parseStep (JS.split diff) DiffStructurer.initial);
     DiffStructurer.isBinary := None |}.

(** *** Vocabulary for the properties *)

(** An entry, and a hunk, with the first character of the content taken away. *)
Definition withoutMarker (e : DiffStructurer.DiffLine) : DiffStructurer.DiffLine :=
  {| DiffStructurer.type := DiffStructurer.type e;
     DiffStructurer.content := JS.substring1 (DiffStructurer.content e);
     DiffStructurer.lineNumber := DiffStructurer.lineNumber e |}.

Definition withoutMarkers (h : DiffStructurer.Hunk) : DiffStructurer.Hunk :=
  {| DiffStructurer.header := DiffStructurer.header h;
     DiffStructurer.lines := map withoutMarker (DiffStructurer.lines h) |}.

(** A line that neither version of [parseDiff] skips as a file header. *)
Definition noHeaderLine (line : string) : bool :=
  negb (isHeaderLine line) && negb (DiffStructurer.isSkippedHeader line).

(** The states of the two loops after the same lines. *)
Definition related (old new : DiffStructurer.state) : Prop :=
  DiffStructurer.doneHunks old = map withoutMarkers (DiffStructurer.doneHunks new) /\
  DiffStructurer.currentHunk old = option_map withoutMarkers (DiffStructurer.currentHunk new) /\
  DiffStructurer.currentLineNumber old = DiffStructurer.currentLineNumber new.

(** *** The first version: [parseChangedLines], the numbers in the new
    file of the added lines of a diff *)

Record lineState : Type := {
  changedLines : list Z;
  currentLine : Z
}.

Definition noLines : lineState := {| changedLines := []; currentLine := 0 |}.

(** One iteration of [for (const line of lines)]: a header that matches
    sets the counter and ends the iteration; any other line goes through
    the two tests that follow.  The pattern,
    [@@ -\d+(?:,\d+)? \+(\d+)(?:,(\d+))? @@], is the one of [parseDiff]
    with one more group, which is not read: [Header.parseHeaderMatch]
    gives its group 1. *)
Definition changedStep (st : lineState) (line : string) : lineState :=
  match (if JS.startsWith line "@@" then Header.parseHeaderMatch line else None) with
  | Some c => {| changedLines := changedLines st; currentLine := JS.parseInt c |}
  | None =>
      {| changedLines :=
           if JS.startsWith line "+" && negb (JS.startsWith line "+++")
           then changedLines st ++ [currentLine st]
           else changedLines st;
         currentLine :=
           if negb (JS.startsWith line "-") && negb (JS.startsWith line "\")
           then currentLine st + 1
           else currentLine st |}
  end.

Definition changedIn (lines : list string) : list Z :=
  changedLines (fold_left changedStep lines noLines).

Definition parseChangedLines (diff : string) : list Z := changedIn (JS.split diff).

(** A line that [parseChangedLines] and [parseDiff] read in the same way:
    a hunk header that the pattern matches, or a line that is no file
    header for either. *)
Definition plainLine (line : string) : bool :=
  if JS.startsWith line "@@" then matched (Header.parseHeaderMatch line)
  else negb (DiffStructurer.isSkippedHeader line) && negb (JS.startsWith line "+++").

End Legacy.

(** ** Further sample inputs *)

Module MoreSamples.

Definition fileHeaders : list string :=
  ["diff --git a/f.js b/f.js"; "index 1111111..2222222 100644"; "--- a/f.js"; "+++ b/f.js"].

Definition firstHeader : string := "@@ -1,2 +1,4 @@".
Definition firstBody : list string := [" a"; "+console.log(a)"; "+b"; " c"].

Definition secondHunk : list string :=
  ["@@ -10,3 +12,4 @@ function g() {"; " d"; "-e"; "+debugger;"; "+f"; " g";
   "\ No newline at end of file"].

(** A diff with two hunks; each has an addition that the default rules
    exclude. *)
Definition twoHunks : string :=
  JS.join (fileHeaders ++ firstHeader :: firstBody ++ secondHunk).

Definition NL : string := String JS.LF EmptyString.

(** The staged diffs of two files, as [git diff --cached] prints them. *)
Definition changedFile : string :=
  JS.join ["diff --git a/x.js b/x.js"; "index 1111111..2222222 100644";
           "--- a/x.js"; "+++ b/x.js"; "@@ -1,2 +1,3 @@"; " a"; "+b"; " c"] ++ NL.

Definition newFile : string :=
  JS.join ["diff --git a/dir/y b.js b/dir/y b.js"; "new file mode 100644";
           "index 0000000..3333333"; "--- /dev/null"; "+++ b/dir/y b.js";
           "@@ -0,0 +1 @@"; "+z"] ++ NL.

Definition stagedDiff : string := changedFile ++ newFile.

(** [path.join] on a root and a relative path without dots. *)
Definition pathJoin (root rel : string) : string := root ++ "/" ++ rel.

End MoreSamples.

(** * Properties *)

(** ** Lines of a text *)

Lemma split_nonempty (s : string) : JS.split s <> [].
Proof.
  destruct s as [|c s]; simpl; [discriminate|].
  destruct (Ascii.eqb c JS.LF); [discriminate|].
  destruct (JS.split s); discriminate.
Qed.

Lemma join_cons (l : string) (ls : list string) :
  ls <> [] -> JS.join (l :: ls) = l ++ String JS.LF (JS.join ls).
Proof. destruct ls; [congruence | reflexivity]. Qed.

Lemma join_split (s : string) : JS.join (JS.split s) = s.
Proof.
  induction s as [|c s IH]; [reflexivity|].
  simpl JS.split. destruct (Ascii.eqb c JS.LF) eqn:E.
  - apply Ascii.eqb_eq in E. subst c.
    rewrite join_cons by apply split_nonempty. simpl. now rewrite IH.
  - pose proof (split_nonempty s) as Hne.
    destruct (JS.split s) as [|l ls]; [congruence|].
    rewrite <- IH. destruct ls; reflexivity.
Qed.

Lemma split_noLF (s : string) : Forall (fun l => noLF l = true) (JS.split s).
Proof.
  induction s as [|c s IH]; simpl.
  - repeat constructor.
  - destruct (Ascii.eqb c JS.LF) eqn:E.
    + constructor; [reflexivity | exact IH].
    + destruct (JS.split s) as [|l ls].
      * constructor; [simpl; now rewrite E | constructor].
      * inversion IH; subst.
        constructor; [|assumption]. simpl. now rewrite E.
Qed.

Lemma split_line (l : string) : noLF l = true -> JS.split l = [l].
Proof.
  induction l as [|c l IH]; simpl; [reflexivity|].
  intros H. apply andb_true_iff in H as [Hc Hl].
  apply negb_true_iff in Hc. rewrite Hc, (IH Hl). reflexivity.
Qed.

Lemma split_line_LF (l r : string) :
  noLF l = true -> JS.split (l ++ String JS.LF r) = l :: JS.split r.
Proof.
  induction l as [|c l IH]; simpl; [reflexivity|].
  intros H. apply andb_true_iff in H as [Hc Hl].
  apply negb_true_iff in Hc. rewrite Hc, (IH Hl). reflexivity.
Qed.

Lemma split_join (ls : list string) :
  ls <> [] -> Forall (fun l => noLF l = true) ls -> JS.split (JS.join ls) = ls.
Proof.
  induction ls as [|l ls IH]; [congruence|].
  intros _ H. inversion H as [|? ? Hl Hls]; subst.
  destruct ls as [|l' ls].
  - now apply split_line.
  - rewrite join_cons by discriminate.
    rewrite split_line_LF by assumption.
    f_equal. apply IH; [discriminate | assumption].
Qed.

Lemma noLF_app (a b : string) : noLF (a ++ b) = noLF a && noLF b.
Proof.
  induction a as [|c a IH]; simpl; [reflexivity|].
  now rewrite IH, andb_assoc.
Qed.

(** ** Prefixes *)

Lemma startsWith_inv (s p : string) :
  JS.startsWith s p = true -> exists r, s = p ++ r.
Proof.
  revert s. induction p as [|c p IH]; intros s H; simpl in *.
  - now exists s.
  - destruct s as [|b s]; [discriminate|].
    apply andb_true_iff in H as [Hc Hp]. apply Ascii.eqb_eq in Hc. subst b.
    destruct (IH _ Hp) as [r ->]. now exists r.
Qed.

Lemma eat_spec (l s r : string) : Header.eat l s = Some r <-> s = l ++ r.
Proof.
  revert s. induction l as [|a l IH]; intros s; simpl.
  - split; congruence.
  - destruct s as [|b s]; [split; discriminate|].
    destruct (Ascii.eqb a b) eqn:E.
    + apply Ascii.eqb_eq in E. subst b. rewrite IH. split; congruence.
    + apply Ascii.eqb_neq in E. split; [discriminate | congruence].
Qed.

Lemma eat_app (l r : string) : Header.eat l (l ++ r) = Some r.
Proof. now apply eat_spec. Qed.

(** ** The loop of the patch filter *)

Section FilterLoop.

Import PatchFilter.

Variable filterRegexes : list RegExp.

Lemma hunkStart_not_fileHeader (l : string) :
  isHunkStart l = true -> isFileHeader l = false.
Proof.
  intros H. apply startsWith_inv in H as [r ->]. reflexivity.
Qed.

Lemma step_hunkStart (st : state) (l : string) :
  isHunkStart l = true ->
  step filterRegexes st l =
  {| filteredLines := flush st; currentHunk := [l]; skippedLines := 0 |}.
Proof.
  intros H. unfold step.
  now rewrite (hunkStart_not_fileHeader _ H), H.
Qed.

Lemma step_prepend (fl : list string) (st : state) (l : string) :
  step filterRegexes (prepend fl st) l = prepend fl (step filterRegexes st l).
Proof.
  destruct st as [f c k]. unfold step, prepend, flush.
  cbn [filteredLines currentHunk skippedLines].
  destruct (isFileHeader l); [now rewrite <- app_assoc|].
  destruct (isHunkStart l); [now rewrite <- app_assoc|].
  destruct c; [reflexivity|].
  destruct (JS.startsWith l "+"); [|reflexivity].
  destruct (shouldFilter filterRegexes l); reflexivity.
Qed.

Lemma run_prepend (lines : list string) (fl : list string) (st : state) :
  run filterRegexes lines (prepend fl st) = prepend fl (run filterRegexes lines st).
Proof.
  revert st. induction lines as [|l lines IH]; intros st; [reflexivity|].
  unfold run in *. simpl. now rewrite step_prepend, IH.
Qed.

Lemma flush_prepend (fl : list string) (st : state) :
  flush (prepend fl st) = (fl ++ flush st)%list.
Proof. unfold flush, prepend. simpl. now rewrite app_assoc. Qed.

Lemma run_app (l1 l2 : list string) (st : state) :
  run filterRegexes (l1 ++ l2) st = run filterRegexes l2 (run filterRegexes l1 st).
Proof. apply fold_left_app. Qed.

(** Before the first hunk header only file headers are emitted. *)
Lemma run_before (lines : list string) (st : state) :
  Forall (fun l => isHunkStart l = false) lines ->
  currentHunk st = [] ->
  run filterRegexes lines st =
  {| filteredLines := filteredLines st ++ headersOf lines;
     currentHunk := [];
     skippedLines := skippedLines st |}.
Proof.
  intros H. revert st. induction H as [|l lines Hl _ IH]; intros st Hc.
  - destruct st; simpl in *. subst. unfold headersOf. simpl. now rewrite app_nil_r.
  - unfold run in *. simpl. unfold headersOf in *. simpl.
    unfold step at 2. rewrite Hl.
    destruct (isFileHeader l).
    + rewrite IH by assumption. simpl. now rewrite <- app_assoc.
    + rewrite Hc. now apply IH.
Qed.

Lemma headersOf_cons (l : string) (body : list string) :
  headersOf (l :: body) = (headersOf [l] ++ headersOf body)%list.
Proof. unfold headersOf. cbn [filter]. now destruct (isFileHeader l). Qed.

Lemma keptBody_cons (l : string) (body : list string) :
  keptBody filterRegexes (l :: body) =
  (keptBody filterRegexes [l] ++ keptBody filterRegexes body)%list.
Proof.
  unfold keptBody. cbn [filter].
  now destruct (negb (isFileHeader l) && negb (dropped filterRegexes l)).
Qed.

Lemma skippedCount_cons (l : string) (body : list string) :
  skippedCount filterRegexes (l :: body) =
  skippedCount filterRegexes [l] + skippedCount filterRegexes body.
Proof.
  unfold skippedCount. cbn [filter].
  destruct (dropped filterRegexes l); cbn [List.length]; lia.
Qed.

(** One line inside a hunk: a file header is emitted at once, a dropped
    addition is counted, any other line joins the hunk. *)
Lemma step_body (st : state) (l : string) :
  isHunkStart l = false ->
  currentHunk st <> [] ->
  step filterRegexes st l =
  {| filteredLines := filteredLines st ++ headersOf [l];
     currentHunk := currentHunk st ++ keptBody filterRegexes [l];
     skippedLines := skippedLines st + skippedCount filterRegexes [l] |}.
Proof.
  intros Hl Hc. destruct st as [f c k]. cbn [currentHunk] in Hc.
  unfold step, headersOf, keptBody, skippedCount, dropped, isAdded.
  cbn [filteredLines currentHunk skippedLines filter].
  rewrite Hl. destruct c as [|h0 b0]; [congruence|].
  destruct (isFileHeader l), (JS.startsWith l "+"), (shouldFilter filterRegexes l);
    cbn [negb andb filter List.length]; rewrite ?app_nil_r;
    f_equal; cbn; lia.
Qed.

Lemma run_body (body : list string) (st : state) :
  Forall (fun l => isHunkStart l = false) body ->
  currentHunk st <> [] ->
  run filterRegexes body st =
  {| filteredLines := filteredLines st ++ headersOf body;
     currentHunk := currentHunk st ++ keptBody filterRegexes body;
     skippedLines := skippedLines st + skippedCount filterRegexes body |}.
Proof.
  intros H. revert st. induction H as [|l body Hl _ IH]; intros st Hc.
  - destruct st as [f c k]. unfold run, headersOf, keptBody, skippedCount.
    cbn. now rewrite !app_nil_r, Z.add_0_r.
  - change (run filterRegexes (l :: body) st)
      with (run filterRegexes body (step filterRegexes st l)).
    rewrite (step_body st l Hl Hc).
    rewrite IH.
    + cbn [filteredLines currentHunk skippedLines].
      rewrite (headersOf_cons l body), (keptBody_cons l body),
        (skippedCount_cons l body), <- !app_assoc, Z.add_assoc.
      reflexivity.
    + cbn [currentHunk]. destruct (currentHunk st); [congruence|discriminate].
Qed.

Lemma filterLines_nil : filterLines filterRegexes [] = [].
Proof. reflexivity. Qed.

Lemma filterLines_hunkStart (h : string) (t : list string) :
  isHunkStart h = true ->
  filterLines filterRegexes (h :: t) =
  flush (run filterRegexes t {| filteredLines := []; currentHunk := [h]; skippedLines := 0 |}).
Proof.
  intros H. unfold filterLines, run. simpl. now rewrite step_hunkStart.
Qed.

(** A state that meets the end of the input or the next hunk header
    emits its hunk; what follows is filtered on its own. *)
Lemma flush_run_next (post : list string) (st : state) :
  post = [] \/ (exists h t, post = h :: t /\ isHunkStart h = true) ->
  flush (run filterRegexes post st) = (flush st ++ filterLines filterRegexes post)%list.
Proof.
  intros [-> | (h & t & -> & Hh)].
  - simpl. now rewrite filterLines_nil, app_nil_r.
  - rewrite filterLines_hunkStart by assumption.
    change (run filterRegexes (h :: t) st)
      with (run filterRegexes t (step filterRegexes st h)).
    rewrite step_hunkStart by assumption.
    replace {| filteredLines := flush st; currentHunk := [h]; skippedLines := 0 |}
      with (prepend (flush st)
              {| filteredLines := []; currentHunk := [h]; skippedLines := 0 |})
      by (unfold prepend; cbn [filteredLines currentHunk skippedLines];
          now rewrite app_nil_r).
    now rewrite run_prepend, flush_prepend.
Qed.

(** The shape of the output around one hunk. *)
Lemma filterLines_hunk (pre : list string) (h : string) (body post : list string) :
  isHunkStart h = true ->
  Forall (fun l => isHunkStart l = false) body ->
  post = [] \/ (exists h' t, post = h' :: t /\ isHunkStart h' = true) ->
  filterLines filterRegexes (pre ++ h :: body ++ post) =
  (filterLines filterRegexes pre ++ headersOf body ++
   rewriteHeader h (skippedCount filterRegexes body) ::
   keptBody filterRegexes body ++ filterLines filterRegexes post)%list.
Proof.
  intros Hh Hbody Hpost.
  unfold filterLines at 1.
  rewrite run_app.
  change (h :: body ++ post)%list with ([h] ++ body ++ post)%list.
  rewrite !run_app.
  rewrite (flush_run_next post) by assumption.
  unfold run at 2. cbn [fold_left]. rewrite step_hunkStart by assumption.
  rewrite run_body by (assumption || discriminate).
  unfold flush at 1. cbn [filteredLines currentHunk skippedLines List.app finalizeHunk].
  fold (filterLines filterRegexes pre).
  now rewrite <- !app_assoc, Z.add_0_l.
Qed.

End FilterLoop.

(** ** Decimal numerals *)

Lemma isDigit_cases (c : ascii) :
  JS.isDigit c = true ->
  exists f : uint -> uint,
    (forall d, NilEmpty.string_of_uint (f d) = String c (NilEmpty.string_of_uint d)) /\
    (forall acc d, uintValue acc (f d) = uintValue (10 * acc + JS.digitValue c) d) /\
    (forall d, c <> "0"%char -> unorm (f d) = f d).
Proof.
  intros H.
  assert (Hc : c = "0"%char \/ c = "1"%char \/ c = "2"%char \/ c = "3"%char \/
               c = "4"%char \/ c = "5"%char \/ c = "6"%char \/ c = "7"%char \/
               c = "8"%char \/ c = "9"%char).
  { destruct c as [[] [] [] [] [] [] [] []]; try discriminate; tauto. }
  clear H.
  decompose [or] Hc; subst c;
    [ exists D0 | exists D1 | exists D2 | exists D3 | exists D4
    | exists D5 | exists D6 | exists D7 | exists D8 | exists D9 ];
    (split; [reflexivity | split; [intros acc d; cbn [uintValue]; f_equal;
       match goal with |- context [JS.digitValue ?c] =>
         let v := eval compute in (JS.digitValue c) in
         change (JS.digitValue c) with v end; lia | ]]);
    intros d H; try reflexivity; congruence.
Qed.

Lemma allDigits_uint (s : string) :
  allDigits s = true -> exists d, s = NilEmpty.string_of_uint d.
Proof.
  induction s as [|c s IH]; simpl; intros H.
  - now exists Nil.
  - apply andb_true_iff in H as [Hc Hs].
    destruct (IH Hs) as [d ->].
    destruct (isDigit_cases c Hc) as (f & Hf & _).
    exists (f d). now rewrite Hf.
Qed.

Lemma string_of_uint_digits (d : uint) :
  allDigits (NilEmpty.string_of_uint d) = true.
Proof. induction d; simpl; auto. Qed.

Lemma parseDigits_string_of_uint (d : uint) (acc : Z) :
  JS.parseDigits acc (NilEmpty.string_of_uint d) = uintValue acc d.
Proof.
  revert acc. induction d; intros acc; cbn [NilEmpty.string_of_uint uintValue];
    [reflexivity | ..];
    unfold JS.parseDigits; fold JS.parseDigits;
    match goal with |- context [JS.isDigit ?c] => change (JS.isDigit c) with true end;
    cbn iota; rewrite IHd; f_equal;
    match goal with |- context [JS.digitValue ?c] =>
      let v := eval compute in (JS.digitValue c) in
      change (JS.digitValue c) with v end; lia.
Qed.

Lemma of_uint_acc_value (d : uint) (acc : positive) :
  Z.pos (Pos.of_uint_acc d acc) = uintValue (Z.pos acc) d.
Proof.
  revert acc. induction d; intros acc; cbn [Pos.of_uint_acc uintValue];
    [reflexivity | ..]; rewrite IHd; f_equal; lia.
Qed.

Lemma of_uint_value (d : uint) : Z.of_uint d = uintValue 0 d.
Proof.
  unfold Z.of_uint. induction d; cbn [Pos.of_uint uintValue];
    [reflexivity | exact IHd | ..];
    cbn [Z.of_N]; rewrite of_uint_acc_value; f_equal.
Qed.

(** Reading back what a template literal printed. *)
Lemma parseInt_toString (n : Z) : 0 <= n -> JS.parseInt (JS.toString n) = n.
Proof.
  intros Hn. unfold JS.parseInt, JS.toString.
  rewrite <- (DecimalZ.of_to n) at 2.
  destruct (Z.to_int n) as [d|d] eqn:E.
  - cbn [NilEmpty.string_of_int Z.of_int].
    now rewrite parseDigits_string_of_uint, of_uint_value.
  - exfalso. destruct n; try discriminate. lia.
Qed.

(** Printing what was read from a numeral gives the numeral back. *)
Lemma toString_parseInt (s : string) :
  isNumeral s = true -> JS.toString (JS.parseInt s) = s.
Proof.
  intros H. destruct s as [|c s]; [discriminate|].
  unfold isNumeral in H. apply andb_true_iff in H as [Hd Hz].
  cbn [allDigits] in Hd. apply andb_true_iff in Hd as [Hc Hs].
  destruct (allDigits_uint s Hs) as [d ->].
  destruct (isDigit_cases c Hc) as (f & Hf & Hv & Hn).
  rewrite <- Hf.
  unfold JS.parseInt, JS.toString.
  rewrite parseDigits_string_of_uint, <- of_uint_value.
  change (Z.of_uint (f d)) with (Z.of_int (Pos (f d))).
  rewrite DecimalZ.to_of. cbn [norm NilEmpty.string_of_int].
  apply orb_true_iff in Hz as [Hz|Hz].
  - rewrite Hn; [reflexivity|].
    intros ->. discriminate.
  - apply String.eqb_eq in Hz.
    destruct d; try discriminate.
    destruct (Ascii.eqb c "0") eqn:E0.
    + apply Ascii.eqb_eq in E0. subst c.
      specialize (Hf Nil). cbn in Hf.
      destruct (f Nil) as [|[]| | | | | | | | |]; try discriminate.
      all: cbn in Hf; try discriminate. reflexivity.
    + rewrite Hn; [reflexivity|]. intros ->. discriminate.
Qed.

Lemma isDigit_not_LF (c : ascii) : JS.isDigit c = true -> Ascii.eqb c JS.LF = false.
Proof.
  intros H. destruct (Ascii.eqb c JS.LF) eqn:E; [|reflexivity].
  apply Ascii.eqb_eq in E. subst c. discriminate.
Qed.

Lemma allDigits_noLF (s : string) : allDigits s = true -> noLF s = true.
Proof.
  induction s as [|c s IH]; simpl; [reflexivity|].
  intros H. apply andb_true_iff in H as [Hc Hs].
  now rewrite (isDigit_not_LF c Hc), (IH Hs).
Qed.

Lemma toString_noLF (n : Z) : noLF (JS.toString n) = true.
Proof.
  unfold JS.toString.
  destruct (Z.to_int n); cbn [NilEmpty.string_of_int noLF];
    rewrite ?(allDigits_noLF _ (string_of_uint_digits _)); reflexivity.
Qed.

(** ** The header patterns *)

Section HeaderFacts.

Import Header.

Lemma digitRun_spec (s d r : string) :
  digitRun s = (d, r) -> s = d ++ r /\ allDigits d = true.
Proof.
  revert d r. induction s as [|c s IH]; intros d r; cbn [digitRun].
  - intros [= <- <-]. now split.
  - destruct (JS.isDigit c) eqn:E.
    + destruct (digitRun s) as [d' r'].
      intros [= <- <-]. destruct (IH d' r' eq_refl) as [-> Hd].
      split; [reflexivity|]. cbn [allDigits]. now rewrite E, Hd.
    + intros [= <- <-]. now split.
Qed.

Lemma digits_spec (s d r : string) :
  digits s = Some (d, r) ->
  s = d ++ r /\ allDigits d = true /\ d <> EmptyString.
Proof.
  unfold digits. destruct (digitRun s) as [d' r'] eqn:E.
  destruct d' as [|c d']; [discriminate|].
  intros [= <- <-]. destruct (digitRun_spec _ _ _ E) as [-> Hd].
  repeat split; [assumption | discriminate].
Qed.

Lemma digitRun_app (d r : string) :
  allDigits d = true -> startsNonDigit r = true -> digitRun (d ++ r) = (d, r).
Proof.
  intros Hd Hr. induction d as [|c d IH]; cbn [append digitRun].
  - destruct r as [|c r]; [reflexivity|]. cbn [digitRun].
    cbn in Hr. apply negb_true_iff in Hr. now rewrite Hr.
  - cbn [allDigits] in Hd. apply andb_true_iff in Hd as [Hc Hd].
    now rewrite Hc, (IH Hd).
Qed.

Lemma digits_app (d r : string) :
  d <> EmptyString -> allDigits d = true -> startsNonDigit r = true ->
  digits (d ++ r) = Some (d, r).
Proof.
  intros Hne Hd Hr. unfold digits. rewrite digitRun_app by assumption.
  destruct d; [congruence | reflexivity].
Qed.

Lemma firstMatch_here {A : Type} (at_ : string -> option A) (s : string) (m : A) :
  at_ s = Some m -> firstMatch at_ s = Some m.
Proof. intros H. destruct s; cbn [firstMatch]; now rewrite H. Qed.

Lemma firstMatch_inv {A : Type} (at_ : string -> option A) (s : string) (m : A) :
  firstMatch at_ s = Some m -> exists p t, s = p ++ t /\ at_ t = Some m.
Proof.
  induction s as [|c s IH]; cbn [firstMatch].
  - destruct (at_ EmptyString) eqn:E; [|discriminate].
    intros [= <-]. now exists EmptyString, EmptyString.
  - destruct (at_ (String c s)) eqn:E.
    + intros [= <-]. now exists EmptyString, (String c s).
    + intros H. destruct (IH H) as (p & t & -> & Ht).
      now exists (String c p), t.
Qed.

(** The shape of a line on which the filter's pattern matches at the
    start. *)
Lemma filterHeaderAt_inv (s : string) (m : groups) :
  filterHeaderAt s = Some m ->
  (exists rest,
     s = "@@ -" ++ g1 m ++ "," ++ g2 m ++ " +" ++ g3 m ++ "," ++ g4 m ++ " @@" ++ rest) /\
  (allDigits (g1 m) = true /\ g1 m <> EmptyString) /\
  (allDigits (g2 m) = true /\ g2 m <> EmptyString) /\
  (allDigits (g3 m) = true /\ g3 m <> EmptyString) /\
  (allDigits (g4 m) = true /\ g4 m <> EmptyString).
Proof.
  unfold filterHeaderAt, bind.
  destruct (eat "@@ -" s) as [s1|] eqn:E1; [|discriminate].
  destruct (digits s1) as [[a s2]|] eqn:D1; [|discriminate].
  destruct (eat "," s2) as [s3|] eqn:E2; [|discriminate].
  destruct (digits s3) as [[b s4]|] eqn:D2; [|discriminate].
  destruct (eat " +" s4) as [s5|] eqn:E3; [|discriminate].
  destruct (digits s5) as [[c s6]|] eqn:D3; [|discriminate].
  destruct (eat "," s6) as [s7|] eqn:E4; [|discriminate].
  destruct (digits s7) as [[d s8]|] eqn:D4; [|discriminate].
  destruct (eat " @@" s8) as [s9|] eqn:E5; [|discriminate].
  intros [= <-]. cbn [g1 g2 g3 g4].
  apply eat_spec in E1, E2, E3, E4, E5.
  apply digits_spec in D1, D2, D3, D4.
  destruct D1 as (-> & ? & ?), D2 as (-> & ? & ?), D3 as (-> & ? & ?),
    D4 as (-> & ? & ?).
  subst. repeat split; try assumption.
  exists s9. reflexivity.
Qed.

Lemma filterHeaderAt_complete (a b c d rest : string) :
  allDigits a = true -> a <> EmptyString ->
  allDigits b = true -> b <> EmptyString ->
  allDigits c = true -> c <> EmptyString ->
  allDigits d = true -> d <> EmptyString ->
  filterHeaderAt ("@@ -" ++ a ++ "," ++ b ++ " +" ++ c ++ "," ++ d ++ " @@" ++ rest) =
  Some {| g1 := a; g2 := b; g3 := c; g4 := d |}.
Proof.
  intros. unfold filterHeaderAt.
  rewrite eat_app. cbn [bind].
  rewrite digits_app by (assumption || reflexivity). cbn [bind].
  rewrite eat_app. cbn [bind].
  rewrite digits_app by (assumption || reflexivity). cbn [bind].
  rewrite eat_app. cbn [bind].
  rewrite digits_app by (assumption || reflexivity). cbn [bind].
  rewrite eat_app. cbn [bind].
  rewrite digits_app by (assumption || reflexivity). cbn [bind].
  rewrite eat_app. reflexivity.
Qed.

Lemma optCount_count (b r : string) :
  allDigits b = true -> b <> EmptyString -> startsNonDigit r = true ->
  optCount ("," ++ b ++ r) = r.
Proof.
  intros. unfold optCount. rewrite eat_app. cbn [bind].
  now rewrite digits_app.
Qed.

(** Where the filter's pattern matches at the start of a line, so does
    the structurer's, and its group 1 is the filter's group 3. *)
Lemma parseHeaderAt_of_filterHeaderAt (s : string) (m : groups) :
  filterHeaderAt s = Some m -> parseHeaderAt s = Some (g3 m).
Proof.
  intros H. apply filterHeaderAt_inv in H.
  destruct H as ((rest & ->) & (Ha & Ha') & (Hb & Hb') & (Hc & Hc') & (Hd & Hd')).
  unfold parseHeaderAt.
  rewrite eat_app. cbn [bind].
  rewrite digits_app by (assumption || reflexivity). cbn [bind].
  rewrite optCount_count by (assumption || reflexivity).
  rewrite eat_app. cbn [bind].
  rewrite digits_app by (assumption || reflexivity). cbn [bind].
  rewrite optCount_count by (assumption || reflexivity).
  rewrite eat_app. reflexivity.
Qed.

Lemma firstMatch_mono {A B : Type} (f : string -> option A) (g : string -> option B) :
  (forall s a, f s = Some a -> exists b, g s = Some b) ->
  forall s a, firstMatch f s = Some a -> exists b, firstMatch g s = Some b.
Proof.
  intros Hfg s. induction s as [|c s IH]; intros a; cbn [firstMatch].
  - destruct (f EmptyString) eqn:E; [|discriminate]. intros _.
    destruct (Hfg _ _ E) as [b ->]. now exists b.
  - destruct (f (String c s)) eqn:E.
    + intros _. destruct (Hfg _ _ E) as [b ->]. now exists b.
    + intros H. destruct (g (String c s)) as [b|]; [now exists b|].
      now apply (IH a).
Qed.

End HeaderFacts.

(** ** Lines written by the filter *)

Section FilterOutput.

Import PatchFilter.

Variable filterRegexes : list RegExp.

Lemma formatHeader_noLF (a : Z) (b : string) (c d : Z) :
  allDigits b = true -> noLF (formatHeader a b c d) = true.
Proof.
  intros Hb. unfold formatHeader.
  rewrite !noLF_app, !toString_noLF, (allDigits_noLF b Hb). reflexivity.
Qed.

Lemma rewriteHeader_noLF (h : string) (k : Z) :
  noLF h = true -> noLF (rewriteHeader h k) = true.
Proof.
  intros Hh. unfold rewriteHeader.
  destruct (Header.filterHeaderMatch h) as [m|] eqn:E; [|assumption].
  apply firstMatch_inv in E as (p & t & _ & Ht).
  apply filterHeaderAt_inv in Ht as (_ & _ & (Hb & _) & _).
  now apply formatHeader_noLF.
Qed.

Lemma finalizeHunk_noLF (hunk : list string) (k : Z) :
  Forall (fun l => noLF l = true) hunk ->
  Forall (fun l => noLF l = true) (finalizeHunk hunk k).
Proof.
  intros H. destruct H as [|h body Hh Hb]; cbn [finalizeHunk]; constructor;
    [now apply rewriteHeader_noLF | assumption].
Qed.

Lemma flush_noLF (st : state) :
  Forall (fun l => noLF l = true) (filteredLines st) ->
  Forall (fun l => noLF l = true) (currentHunk st) ->
  Forall (fun l => noLF l = true) (flush st).
Proof.
  intros Hf Hc. unfold flush. apply Forall_app. split; [assumption|].
  now apply finalizeHunk_noLF.
Qed.

Lemma step_noLF (st : state) (l : string) :
  noLF l = true ->
  Forall (fun l => noLF l = true) (filteredLines st) ->
  Forall (fun l => noLF l = true) (currentHunk st) ->
  Forall (fun l => noLF l = true) (filteredLines (step filterRegexes st l)) /\
  Forall (fun l => noLF l = true) (currentHunk (step filterRegexes st l)).
Proof.
  intros Hl Hf Hc. unfold step.
  assert (H1 : Forall (fun l => noLF l = true) [l]) by (now constructor).
  destruct (isFileHeader l); cbn [filteredLines currentHunk].
  { split; [apply Forall_app; now split | assumption]. }
  destruct (isHunkStart l); cbn [filteredLines currentHunk].
  { split; [now apply flush_noLF | assumption]. }
  destruct (currentHunk st) as [|h0 b0] eqn:E.
  { rewrite E. now split. }
  destruct (JS.startsWith l "+"); [destruct (shouldFilter filterRegexes l)|];
    cbn [filteredLines currentHunk]; split; try assumption;
    apply Forall_app; now split.
Qed.

Lemma filterLines_noLF (lines : list string) :
  Forall (fun l => noLF l = true) lines ->
  Forall (fun l => noLF l = true) (filterLines filterRegexes lines).
Proof.
  intros H. unfold filterLines.
  assert (Hinv : forall st,
    Forall (fun l => noLF l = true) (filteredLines st) ->
    Forall (fun l => noLF l = true) (currentHunk st) ->
    Forall (fun l => noLF l = true) (flush (run filterRegexes lines st))).
  { induction H as [|l lines Hl _ IH]; intros st Hf Hc.
    - now apply flush_noLF.
    - change (run filterRegexes (l :: lines) st)
        with (run filterRegexes lines (step filterRegexes st l)).
      destruct (step_noLF st l Hl Hf Hc). now apply IH. }
  apply Hinv; constructor.
Qed.

(** *** Counting the [+] lines *)

Lemma plusLine_isAdded (l : string) : plusLine l = isAdded l.
Proof.
  unfold plusLine, isAdded, isFileHeader.
  destruct (JS.startsWith l "+") eqn:E; [|reflexivity].
  apply startsWith_inv in E as [r ->]. reflexivity.
Qed.




End FilterOutput.

Section FilterCount.

Import PatchFilter.

Variable filterRegexes : list RegExp.

Lemma lines_before_from (lines : list string) :
  lines = (beforeFirstHunk lines ++ fromFirstHunk lines)%list.
Proof.
  induction lines as [|l lines IH]; [reflexivity|].
  cbn [beforeFirstHunk fromFirstHunk].
  destruct (isHunkStart l); [reflexivity|]. cbn [List.app]. f_equal. exact IH.
Qed.

Lemma beforeFirstHunk_no_hunkStart (lines : list string) :
  Forall (fun l => isHunkStart l = false) (beforeFirstHunk lines).
Proof.
  induction lines as [|l lines IH]; cbn [beforeFirstHunk]; [constructor|].
  destruct (isHunkStart l) eqn:E; now constructor.
Qed.

Lemma fromFirstHunk_shape (lines : list string) :
  fromFirstHunk lines = [] \/
  (exists h t, fromFirstHunk lines = h :: t /\ isHunkStart h = true).
Proof.
  induction lines as [|l lines IH]; cbn [fromFirstHunk]; [now left|].
  destruct (isHunkStart l) eqn:E; [|assumption].
  right. now exists l, lines.
Qed.







Lemma length_filter_zero {A : Type} (p : A -> bool) (l : list A) :
  List.length (filter p l) = 0%nat <-> Forall (fun x => p x = false) l.
Proof.
  induction l as [|x l IH]; cbn [filter].
  - split; [constructor | reflexivity].
  - destruct (p x) eqn:E; cbn [List.length].
    + split; [discriminate|]. intros H. inversion H. congruence.
    + rewrite IH. split; [now constructor | intros H; now inversion H].
Qed.






End FilterCount.

(** ** The loop of the diff structurer *)

Section StructurerLoop.

Import DiffStructurer.

Lemma numbered_app (n : Z) (es : list DiffLine) (e : DiffLine) :
  numbered n (es ++ [e]) <-> numbered n es /\ lineNumber e = fold_left advance es n.
Proof.
  revert n. induction es as [|e0 es IH]; intros n; cbn [List.app numbered fold_left].
  - tauto.
  - rewrite IH. tauto.
Qed.

Lemma numbered_adjacent (n : Z) (l1 : list DiffLine) (e1 e2 : DiffLine) (l2 : list DiffLine) :
  numbered n (l1 ++ e1 :: e2 :: l2) -> lineNumber e2 = advance (lineNumber e1) e1.
Proof.
  revert n. induction l1 as [|e l1 IH]; intros n; cbn [List.app numbered].
  - intros (-> & -> & _). reflexivity.
  - intros (_ & H). exact (IH _ H).
Qed.

Lemma push_wellNumbered (h : Hunk) (e : DiffLine) :
  wellNumbered h -> lineNumber e = counterAfter h ->
  wellNumbered (push h e) /\ counterAfter (push h e) = advance (counterAfter h) e.
Proof.
  unfold wellNumbered, counterAfter, push. cbn [header lines].
  intros Hw He. split.
  - apply numbered_app. now split.
  - now rewrite fold_left_app.
Qed.

Lemma step_invariant (st : state) (line : string) :
  invariant st -> invariant (step st line).
Proof.
  intros [Hd Hc]. unfold step.
  destruct (isSkippedHeader line); [now split|].
  destruct (JS.startsWith line "@@").
  { split; cbn [doneHunks currentHunk currentLineNumber].
    - unfold pushCurrent. destruct (currentHunk st) as [h|]; [|assumption].
      apply Forall_app. split; [assumption|]. constructor; [tauto | constructor].
    - unfold wellNumbered, counterAfter. cbn [header lines numbered fold_left]. tauto. }
  destruct (currentHunk st) as [h|] eqn:E; [|split; [assumption | now rewrite E]].
  destruct Hc as [Hw Hn].
  destruct (JS.startsWith line "+");
    [|destruct (JS.startsWith line "-");
      [|destruct (negb (JS.startsWith line "\")); [|split; [assumption | now rewrite E]]]];
    (split; cbn [doneHunks currentHunk currentLineNumber]; [assumption|]);
    match goal with |- wellNumbered (push h ?e) /\ _ =>
      destruct (push_wellNumbered h e Hw Hn) as [H1 H2]; split; [exact H1|];
      rewrite H2, <- Hn; reflexivity
    end.
Qed.

Lemma run_invariant (lines : list string) (st : state) :
  invariant st -> invariant (run lines st).
Proof.
  revert st. induction lines as [|l lines IH]; intros st H; [exact H|].
  apply (IH (step st l)). now apply step_invariant.
Qed.

Lemma finish_wellNumbered (st : state) :
  invariant st -> Forall wellNumbered (finish st).
Proof.
  intros [Hd Hc]. unfold finish.
  destruct (currentHunk st) as [h|]; [|assumption].
  destruct (lines h) eqn:E; [assumption|].
  apply Forall_app. split; [assumption|]. constructor; [tauto | constructor].
Qed.

Lemma parseDiff_wellNumbered (diff filePath : string) (type : Z) :
  Forall wellNumbered (hunks (parseDiff diff filePath type)).
Proof.
  unfold parseDiff. destruct (isBinaryDiff diff); cbn [hunks]; [constructor|].
  apply finish_wellNumbered, run_invariant.
  split; cbn; [constructor | exact I].
Qed.


End StructurerLoop.

(** ** Reading a rewritten header again *)

Lemma isDigit_value (c : ascii) : JS.isDigit c = true -> 0 <= JS.digitValue c <= 9.
Proof.
  unfold JS.isDigit, JS.digitValue. intros H.
  apply andb_true_iff in H as [H1 H2].
  apply Nat.leb_le in H1, H2. lia.
Qed.

Lemma parseDigits_nonneg (s : string) (acc : Z) : 0 <= acc -> 0 <= JS.parseDigits acc s.
Proof.
  revert acc. induction s as [|c s IH]; intros acc Hacc; cbn [JS.parseDigits]; [assumption|].
  destruct (JS.isDigit c) eqn:E; [|assumption].
  apply IH. pose proof (isDigit_value c E). lia.
Qed.

Lemma parseInt_nonneg (s : string) : 0 <= JS.parseInt s.
Proof. apply parseDigits_nonneg. lia. Qed.

Lemma toString_digits (n : Z) :
  0 <= n -> allDigits (JS.toString n) = true /\ JS.toString n <> EmptyString.
Proof.
  intros Hn. unfold JS.toString. destruct n as [|p|p]; [now split | | lia].
  cbn [Z.to_int NilEmpty.string_of_int]. split; [apply string_of_uint_digits|].
  pose proof (DecimalPos.Unsigned.to_uint_nonnil p) as Hp.
  destruct (Pos.to_uint p); [congruence | discriminate ..].
Qed.

Lemma isNumeral_digits (s : string) :
  isNumeral s = true -> allDigits s = true /\ s <> EmptyString.
Proof.
  destruct s as [|c s]; [discriminate|]. unfold isNumeral.
  intros H. apply andb_true_iff in H as [H _]. now split.
Qed.

Section Reparse.

Import Header PatchFilter.

(** A header written by the filter with a count that is not negative is
    matched again, with the numbers that were written. *)
Lemma formatHeader_reparse (a : Z) (b : string) (c n : Z) :
  0 <= a -> allDigits b = true -> b <> EmptyString -> 0 <= c -> 0 <= n ->
  exists m,
    filterHeaderMatch (formatHeader a b c n) = Some m /\
    JS.parseInt (g1 m) = a /\ g2 m = b /\
    JS.parseInt (g3 m) = c /\ JS.parseInt (g4 m) = n.
Proof.
  intros Ha Hb Hb' Hc Hn.
  destruct (toString_digits a Ha), (toString_digits c Hc), (toString_digits n Hn).
  exists {| g1 := JS.toString a; g2 := b; g3 := JS.toString c; g4 := JS.toString n |}.
  cbn [g1 g2 g3 g4]. rewrite !parseInt_toString by assumption.
  repeat split. apply firstMatch_here.
  now apply (filterHeaderAt_complete (JS.toString a) b (JS.toString c) (JS.toString n) EmptyString).
Qed.

Lemma filterHeaderMatch_groups (h : string) (m : groups) :
  filterHeaderMatch h = Some m ->
  (allDigits (g1 m) = true /\ g1 m <> EmptyString) /\
  (allDigits (g2 m) = true /\ g2 m <> EmptyString) /\
  (allDigits (g3 m) = true /\ g3 m <> EmptyString) /\
  (allDigits (g4 m) = true /\ g4 m <> EmptyString).
Proof.
  intros H. apply firstMatch_inv in H as (p & t & _ & Ht).
  now apply filterHeaderAt_inv in Ht.
Qed.

(** The header written for a line that starts with a header. *)
Lemma rewriteHeader_shape (a b c d trailing : string) (k : Z) :
  allDigits a = true -> a <> EmptyString ->
  allDigits b = true -> b <> EmptyString ->
  allDigits c = true -> c <> EmptyString ->
  allDigits d = true -> d <> EmptyString ->
  filterHeaderMatch ("@@ -" ++ a ++ "," ++ b ++ " +" ++ c ++ "," ++ d ++ " @@" ++ trailing) =
    Some {| g1 := a; g2 := b; g3 := c; g4 := d |} /\
  rewriteHeader ("@@ -" ++ a ++ "," ++ b ++ " +" ++ c ++ "," ++ d ++ " @@" ++ trailing) k =
    formatHeader (JS.parseInt a) b (JS.parseInt c) (JS.parseInt d - k).
Proof.
  intros.
  assert (E : filterHeaderMatch
                ("@@ -" ++ a ++ "," ++ b ++ " +" ++ c ++ "," ++ d ++ " @@" ++ trailing) =
              Some {| g1 := a; g2 := b; g3 := c; g4 := d |})
    by (apply firstMatch_here; now apply filterHeaderAt_complete).
  split; [exact E|]. unfold rewriteHeader. now rewrite E.
Qed.

(** Numerals are written as they were read. *)
Lemma formatHeader_numerals (a b c : string) (n : Z) :
  isNumeral a = true -> isNumeral c = true ->
  formatHeader (JS.parseInt a) b (JS.parseInt c) n =
  "@@ -" ++ a ++ "," ++ b ++ " +" ++ c ++ "," ++ JS.toString n ++ " @@".
Proof.
  intros Ha Hc. unfold formatHeader. now rewrite !toString_parseInt by assumption.
Qed.

End Reparse.

(** ** Filtering with nothing to drop *)

Section NothingDropped.

Import PatchFilter.

Variable filterRegexes : list RegExp.

Lemma skippedCount_none (body : list string) :
  Forall (fun l => dropped filterRegexes l = false) body ->
  skippedCount filterRegexes body = 0.
Proof.
  intros H. unfold skippedCount.
  apply length_filter_zero in H. now rewrite H.
Qed.

Lemma keptBody_none (body : list string) :
  Forall (fun l => dropped filterRegexes l = false) body ->
  keptBody filterRegexes body = filter (fun l => negb (isFileHeader l)) body.
Proof.
  intros H. unfold keptBody. apply filter_ext_in.
  intros l Hl. rewrite Forall_forall in H. rewrite (H l Hl).
  apply andb_true_r.
Qed.

Lemma filter_all {A : Type} (p : A -> bool) (l : list A) :
  Forall (fun x => p x = true) l -> filter p l = l.
Proof. induction 1 as [|x l Hx _ IH]; cbn [filter]; [reflexivity|]. now rewrite Hx, IH. Qed.

Lemma map_fixed {A : Type} (f : A -> A) (l : list A) :
  Forall (fun x => f x = x) l -> map f l = l.
Proof. induction 1 as [|x l Hx _ IH]; cbn [map]; [reflexivity|]. now rewrite Hx, IH. Qed.

(** With no line dropped and no file header among the lines of the
    hunks, each hunk comes out with its header rewritten and its body
    as it was. *)
Lemma flush_run_nothing_dropped (t : list string) (st : state) (h : string) (b : list string) :
  Forall (fun l => isFileHeader l = false) t ->
  Forall (fun l => dropped filterRegexes l = false) t ->
  currentHunk st = h :: b -> skippedLines st = 0 ->
  flush (run filterRegexes t st) =
  (filteredLines st ++ rewriteHeader h 0 :: b ++ map canonicalLine t)%list.
Proof.
  intros Hh. revert st h b.
  induction Hh as [|l t Hl _ IH]; intros st h b Hd Hc Hs.
  - cbn [run fold_left map]. unfold flush. rewrite Hc, Hs. cbn [finalizeHunk].
    now rewrite app_nil_r.
  - inversion Hd as [|? ? Hdl Hdt]; subst.
    change (run filterRegexes (l :: t) st)
      with (run filterRegexes t (step filterRegexes st l)).
    cbn [map]. unfold canonicalLine at 1.
    destruct (isHunkStart l) eqn:E.
    + rewrite step_hunkStart by assumption.
      rewrite (IH _ l []) by (assumption || reflexivity).
      cbn [filteredLines List.app]. unfold flush. rewrite Hc, Hs. cbn [finalizeHunk].
      now rewrite <- !app_assoc.
    + rewrite step_body by (assumption || congruence).
      rewrite (IH _ h (b ++ keptBody filterRegexes [l])%list)
        by (try assumption; cbn [currentHunk skippedLines]; rewrite ?Hc, ?Hs;
            rewrite ?(skippedCount_none [l]) by (now constructor); reflexivity).
      cbn [filteredLines]. unfold headersOf, keptBody. cbn [filter].
      rewrite Hl, Hdl. cbn [negb andb]. now rewrite app_nil_r, <- !app_assoc.
Qed.

Lemma filterLines_nothing_dropped (lines : list string) :
  Forall (fun l => isFileHeader l = false) (fromFirstHunk lines) ->
  Forall (fun l => dropped filterRegexes l = false) (fromFirstHunk lines) ->
  filterLines filterRegexes lines =
  (headersOf (beforeFirstHunk lines) ++ map canonicalLine (fromFirstHunk lines))%list.
Proof.
  intros Hh Hd. unfold filterLines.
  rewrite (lines_before_from lines) at 1. rewrite run_app.
  rewrite (run_before filterRegexes (beforeFirstHunk lines))
    by (apply beforeFirstHunk_no_hunkStart || reflexivity).
  cbn [filteredLines skippedLines initial List.app].
  destruct (fromFirstHunk_shape lines) as [E | (h & t & E & Hs)]; rewrite E in *.
  - reflexivity.
  - inversion Hh; inversion Hd; subst.
    change (run filterRegexes (h :: t) ?st)
      with (run filterRegexes t (step filterRegexes st h)).
    rewrite step_hunkStart by assumption.
    rewrite (flush_run_nothing_dropped t _ h []) by (assumption || reflexivity).
    cbn [filteredLines map List.app]. unfold flush.
    cbn [filteredLines currentHunk finalizeHunk].
    unfold canonicalLine at 2. now rewrite Hs, app_nil_r.
Qed.

Lemma dropped_no_rules (l : string) : dropped [] l = false.
Proof. unfold dropped, shouldFilter. cbn [existsb]. apply andb_false_r. Qed.

End NothingDropped.

(** ** The header matchers implement the patterns *)

Section RegexSemantics.

Import Regex.

Lemma append_assoc (a b c : string) : (a ++ b) ++ c = a ++ b ++ c.
Proof. induction a as [|x a IH]; cbn; [reflexivity | now rewrite IH]. Qed.

Lemma append_eq_nil (a b : string) :
  a ++ b = EmptyString -> a = EmptyString /\ b = EmptyString.
Proof. destruct a; cbn; [auto | discriminate]. Qed.

Lemma lang_seq_inv (r1 r2 : re) (s : string) :
  lang (Seq r1 r2) s -> exists s1 s2, s = s1 ++ s2 /\ lang r1 s1 /\ lang r2 s2.
Proof. inversion 1; subst; eauto. Qed.

Lemma lang_alt_inv (r1 r2 : re) (s : string) :
  lang (Alt r1 r2) s -> lang r1 s \/ lang r2 s.
Proof. inversion 1; subst; auto. Qed.

Lemma lang_chr_inv (a : ascii) (s : string) :
  lang (Chr a) s -> s = String a EmptyString.
Proof. inversion 1; subst; auto. Qed.

Lemma lang_cls_inv (p : ascii -> bool) (s : string) :
  lang (Cls p) s -> exists a, s = String a EmptyString /\ p a = true.
Proof. inversion 1; subst; eauto. Qed.

Lemma lang_eps_inv (s : string) : lang Eps s -> s = EmptyString.
Proof. inversion 1; subst; auto. Qed.

Lemma lang_void_inv (s : string) : lang Void s -> False.
Proof. inversion 1. Qed.

Lemma nullable_lang (r : re) : nullable r = true <-> lang r EmptyString.
Proof.
  induction r as [| | a | p | r1 IH1 r2 IH2 | r1 IH1 r2 IH2 | r IH]; cbn [nullable].
  - split; [discriminate | intros H; destruct (lang_void_inv _ H)].
  - split; [constructor | reflexivity].
  - split; [discriminate | intros H; apply lang_chr_inv in H; discriminate].
  - split; [discriminate | intros H; apply lang_cls_inv in H as (a & E & _); discriminate].
  - rewrite andb_true_iff, IH1, IH2. split.
    + intros [H1 H2]. exact (lang_seq _ _ _ _ H1 H2).
    + intros H. apply lang_seq_inv in H as (s1 & s2 & E & H1 & H2).
      symmetry in E. apply append_eq_nil in E as [-> ->]. now split.
  - rewrite orb_true_iff, IH1, IH2. split.
    + intros [H|H]; [now apply lang_alt_l | now apply lang_alt_r].
    + apply lang_alt_inv.
  - split; [constructor | reflexivity].
Qed.

(** A star is unrolled on a first piece that is not empty. *)
Lemma lang_star_inv (r : re) (c : ascii) (s : string) :
  lang (Star r) (String c s) ->
  exists s1 s2, s = s1 ++ s2 /\ lang r (String c s1) /\ lang (Star r) s2.
Proof.
  intros H. remember (Star r) as r' eqn:Er. remember (String c s) as t eqn:Et.
  revert c s Et.
  induction H as [| | | | | | r0 | r0 s1 s2 H1 _ H2 IH2]; try discriminate; intros c s Et.
  injection Er as ->. destruct s1 as [|c1 s1].
  - cbn in Et. now apply IH2.
  - cbn in Et. injection Et as -> <-. now exists s1, s2.
Qed.

Lemma deriv_lang (r : re) (c : ascii) (s : string) :
  lang (deriv c r) s <-> lang r (String c s).
Proof.
  revert s.
  induction r as [| | a | p | r1 IH1 r2 IH2 | r1 IH1 r2 IH2 | r IH]; intros s; cbn [deriv].
  - split; intros H; destruct (lang_void_inv _ H).
  - split; intros H; [destruct (lang_void_inv _ H) | apply lang_eps_inv in H; discriminate].
  - destruct (Ascii.eqb a c) eqn:E.
    + apply Ascii.eqb_eq in E. subst. split; intros H.
      * apply lang_eps_inv in H. subst. constructor.
      * apply lang_chr_inv in H. injection H as ->. constructor.
    + apply Ascii.eqb_neq in E. split; intros H.
      * destruct (lang_void_inv _ H).
      * apply lang_chr_inv in H. congruence.
  - destruct (p c) eqn:E; split; intros H.
    + apply lang_eps_inv in H. subst. now constructor.
    + apply lang_cls_inv in H as (a & [= -> ->] & _). constructor.
    + destruct (lang_void_inv _ H).
    + apply lang_cls_inv in H as (a & [= -> ->] & Hp). congruence.
  - assert (Hseq : lang (Seq (deriv c r1) r2) s ->
                   lang (Seq r1 r2) (String c s)).
    { intros H. apply lang_seq_inv in H as (s1 & s2 & -> & H1 & H2).
      apply IH1 in H1. exact (lang_seq _ _ _ _ H1 H2). }
    assert (Hinv : lang (Seq r1 r2) (String c s) ->
                   lang (Seq (deriv c r1) r2) s \/
                   (lang r1 EmptyString /\ lang (deriv c r2) s)).
    { intros H. apply lang_seq_inv in H as (s1 & s2 & E & H1 & H2).
      destruct s1 as [|c1 s1]; cbn in E.
      - right. subst s2. split; [assumption | now apply IH2].
      - injection E as <- ->. left. apply lang_seq; [now apply IH1 | assumption]. }
    destruct (nullable r1) eqn:N.
    + split.
      * intros H. apply lang_alt_inv in H as [H|H]; [now apply Hseq|].
        apply nullable_lang in N.
        change (String c s) with (EmptyString ++ String c s).
        apply lang_seq; [assumption | now apply IH2].
      * intros H. destruct (Hinv H) as [H'|[_ H']];
          [now apply lang_alt_l | now apply lang_alt_r].
    + split; [exact Hseq|].
      intros H. destruct (Hinv H) as [H'|[H' _]]; [assumption|].
      apply nullable_lang in H'. congruence.
  - split; intros H; apply lang_alt_inv in H as [H|H];
      solve [apply lang_alt_l; now apply IH1 | apply lang_alt_r; now apply IH2].
  - split.
    + intros H. apply lang_seq_inv in H as (s1 & s2 & -> & H1 & H2).
      apply IH in H1.
      change (String c (s1 ++ s2)) with (String c s1 ++ s2).
      now apply lang_star_cons.
    + intros H. apply lang_star_inv in H as (s1 & s2 & -> & H1 & H2).
      apply lang_seq; [now apply IH | assumption].
Qed.

(** [matchesAt] finds a prefix in the language. *)
Lemma matchesAt_lang (s : string) (r : re) :
  matchesAt s r = true <-> exists p t, s = p ++ t /\ lang r p.
Proof.
  revert r. induction s as [|c s IH]; intros r; cbn [matchesAt].
  - rewrite orb_false_r, nullable_lang. split.
    + intros H. now exists EmptyString, EmptyString.
    + intros (p & t & E & H). symmetry in E.
      apply append_eq_nil in E as [-> _]. exact H.
  - rewrite orb_true_iff, nullable_lang, IH. split.
    + intros [H | (p & t & -> & H)].
      * now exists EmptyString, (String c s).
      * exists (String c p), t. split; [reflexivity | now apply deriv_lang].
    + intros (p & t & E & H). destruct p as [|c' p].
      * now left.
      * cbn in E. injection E as <- ->. right.
        exists p, t. split; [reflexivity | now apply deriv_lang].
Qed.

Lemma lang_lit (l p : string) : lang (lit l) p <-> p = l.
Proof.
  revert p. induction l as [|c l IH]; intros p; cbn [lit].
  - split; [apply lang_eps_inv | intros ->; constructor].
  - split.
    + intros H. apply lang_seq_inv in H as (s1 & s2 & -> & H1 & H2).
      apply lang_chr_inv in H1. apply IH in H2. now subst.
    + intros ->. change (String c l) with (String c EmptyString ++ l).
      apply lang_seq; [constructor | now apply IH].
Qed.

Lemma lang_star_digits (p : string) :
  lang (Star (Cls JS.isDigit)) p <-> allDigits p = true.
Proof.
  induction p as [|c p IH]; cbn [allDigits].
  - split; [reflexivity | constructor].
  - rewrite andb_true_iff, <- IH. split.
    + intros H. apply lang_star_inv in H as (s1 & s2 & -> & H1 & H2).
      apply lang_cls_inv in H1 as (a & [= -> ->] & Ha). now split.
    + intros [Hc Hp]. change (String c p) with (String c EmptyString ++ p).
      apply lang_star_cons; [now constructor | assumption].
Qed.

Lemma lang_digits (p : string) :
  lang digitsRe p <-> allDigits p = true /\ p <> EmptyString.
Proof.
  unfold digitsRe, plus. split.
  - intros H. apply lang_seq_inv in H as (s1 & s2 & -> & H1 & H2).
    apply lang_cls_inv in H1 as (a & -> & Ha). apply lang_star_digits in H2.
    cbn [append allDigits]. rewrite Ha, H2. split; [reflexivity | discriminate].
  - intros [Hd Hne]. destruct p as [|c p]; [congruence|].
    cbn [allDigits] in Hd. apply andb_true_iff in Hd as [Hc Hp].
    change (String c p) with (String c EmptyString ++ p).
    apply lang_seq; [now constructor | now apply lang_star_digits].
Qed.

Lemma lang_opt (r : re) (p : string) : lang (opt r) p <-> p = EmptyString \/ lang r p.
Proof.
  unfold opt. split.
  - intros H. apply lang_alt_inv in H as [H|H]; [left; now apply lang_eps_inv | now right].
  - intros [-> | H]; [apply lang_alt_l; constructor | now apply lang_alt_r].
Qed.

(** The strings matched by the filter's pattern. *)
Lemma lang_filterHeaderRe (p : string) :
  lang filterHeaderRe p <->
  exists a b c d,
    (allDigits a = true /\ a <> EmptyString) /\
    (allDigits b = true /\ b <> EmptyString) /\
    (allDigits c = true /\ c <> EmptyString) /\
    (allDigits d = true /\ d <> EmptyString) /\
    p = "@@ -" ++ a ++ "," ++ b ++ " +" ++ c ++ "," ++ d ++ " @@".
Proof.
  unfold filterHeaderRe. split.
  - intros H.
    apply lang_seq_inv in H as (l1 & ? & -> & H1 & H). apply lang_lit in H1.
    apply lang_seq_inv in H as (a & ? & -> & Ha & H). apply lang_digits in Ha.
    apply lang_seq_inv in H as (l2 & ? & -> & H2 & H). apply lang_chr_inv in H2.
    apply lang_seq_inv in H as (b & ? & -> & Hb & H). apply lang_digits in Hb.
    apply lang_seq_inv in H as (l3 & ? & -> & H3 & H). apply lang_lit in H3.
    apply lang_seq_inv in H as (c & ? & -> & Hc & H). apply lang_digits in Hc.
    apply lang_seq_inv in H as (l4 & ? & -> & H4 & H). apply lang_chr_inv in H4.
    apply lang_seq_inv in H as (d & l5 & -> & Hd & H). apply lang_digits in Hd.
    apply lang_lit in H. subst.
    now exists a, b, c, d.
  - intros (a & b & c & d & Ha & Hb & Hc & Hd & ->).
    apply lang_seq; [now apply lang_lit|].
    apply lang_seq; [now apply lang_digits|].
    apply (lang_seq (Chr ",") _ ","); [constructor|].
    apply lang_seq; [now apply lang_digits|].
    apply lang_seq; [now apply lang_lit|].
    apply lang_seq; [now apply lang_digits|].
    apply (lang_seq (Chr ",") _ ","); [constructor|].
    apply lang_seq; [now apply lang_digits|].
    now apply lang_lit.
Qed.

Lemma lang_count (p : string) :
  lang (opt (Seq (Chr ",") digitsRe)) p <-> isCount p.
Proof.
  unfold isCount. rewrite lang_opt. split; (intros [H|H]; [now left | right]).
  - apply lang_seq_inv in H as (l & b & -> & H1 & H2).
    apply lang_chr_inv in H1. apply lang_digits in H2. subst. now exists b.
  - destruct H as (b & -> & Hb).
    apply (lang_seq (Chr ",") _ ","); [constructor | now apply lang_digits].
Qed.

(** The strings matched by the structurer's pattern. *)
Lemma lang_parseHeaderRe (p : string) :
  lang parseHeaderRe p <->
  exists a ob c od,
    (allDigits a = true /\ a <> EmptyString) /\ isCount ob /\
    (allDigits c = true /\ c <> EmptyString) /\ isCount od /\
    p = "@@ -" ++ a ++ ob ++ " +" ++ c ++ od ++ " @@".
Proof.
  unfold parseHeaderRe. cbv zeta. split.
  - intros H.
    apply lang_seq_inv in H as (l1 & ? & -> & H1 & H). apply lang_lit in H1.
    apply lang_seq_inv in H as (a & ? & -> & Ha & H). apply lang_digits in Ha.
    apply lang_seq_inv in H as (ob & ? & -> & Hob & H). apply lang_count in Hob.
    apply lang_seq_inv in H as (l3 & ? & -> & H3 & H). apply lang_lit in H3.
    apply lang_seq_inv in H as (c & ? & -> & Hc & H). apply lang_digits in Hc.
    apply lang_seq_inv in H as (od & l5 & -> & Hod & H). apply lang_count in Hod.
    apply lang_lit in H. subst.
    now exists a, ob, c, od.
  - intros (a & ob & c & od & Ha & Hob & Hc & Hod & ->).
    apply lang_seq; [now apply lang_lit|].
    apply lang_seq; [now apply lang_digits|].
    apply lang_seq; [now apply lang_count|].
    apply lang_seq; [now apply lang_lit|].
    apply lang_seq; [now apply lang_digits|].
    apply lang_seq; [now apply lang_count|].
    now apply lang_lit.
Qed.

Lemma bool_eq_iff (a b : bool) : (a = true <-> b = true) -> a = b.
Proof. destruct a, b; intuition congruence. Qed.

Lemma matched_some {A : Type} (o : option A) : matched o = true <-> exists x, o = Some x.
Proof.
  destruct o as [x|]; cbn; split; try discriminate; [now exists x | reflexivity |].
  intros [x H]. discriminate.
Qed.

(** The filter's matcher succeeds at the start of a line exactly when
    the filter's pattern matches a prefix of the line. *)
Lemma filterHeaderAt_matchesAt (s : string) :
  matched (Header.filterHeaderAt s) = matchesAt s filterHeaderRe.
Proof.
  apply bool_eq_iff. rewrite matched_some, matchesAt_lang. split.
  - intros [m H]. apply filterHeaderAt_inv in H as ((rest & ->) & Ha & Hb & Hc & Hd).
    exists ("@@ -" ++ Header.g1 m ++ "," ++ Header.g2 m ++ " +" ++ Header.g3 m ++ "," ++
            Header.g4 m ++ " @@"), rest.
    split.
    + cbn [append]. repeat (rewrite append_assoc; cbn [append]). reflexivity.
    + apply lang_filterHeaderRe. now exists (Header.g1 m), (Header.g2 m), (Header.g3 m), (Header.g4 m).
  - intros (p & t & -> & H).
    apply lang_filterHeaderRe in H as (a & b & c & d & [Ha Ha'] & [Hb Hb'] & [Hc Hc'] & [Hd Hd'] & ->).
    exists {| Header.g1 := a; Header.g2 := b; Header.g3 := c; Header.g4 := d |}.
    rewrite <- (filterHeaderAt_complete a b c d t) by assumption.
    f_equal. cbn [append]. repeat (rewrite append_assoc; cbn [append]). reflexivity.
Qed.

Lemma optCount_spec (s : string) :
  exists o, isCount o /\ s = o ++ Header.optCount s.
Proof.
  unfold Header.optCount, Header.bind.
  destruct (Header.eat "," s) as [s1|] eqn:E1; [|exists EmptyString; split; [now left | reflexivity]].
  destruct (Header.digits s1) as [[b r]|] eqn:E2; [|exists EmptyString; split; [now left | reflexivity]].
  apply eat_spec in E1. apply digits_spec in E2 as (-> & Hb & Hb'). subst s.
  exists ("," ++ b). split; [right; now exists b | reflexivity].
Qed.

Lemma optCount_app (o r : string) :
  isCount o -> JS.startsWith r " " = true -> Header.optCount (o ++ r) = r.
Proof.
  intros Ho Hr. apply startsWith_inv in Hr as [r' ->].
  destruct Ho as [-> | (b & -> & Hb & Hb')].
  - reflexivity.
  - rewrite append_assoc. now apply optCount_count.
Qed.

Lemma isCount_startsNonDigit (o r : string) :
  isCount o -> startsNonDigit r = true -> startsNonDigit (o ++ r) = true.
Proof. intros [-> | (b & -> & _)] Hr; [exact Hr | reflexivity]. Qed.

Lemma parseHeaderAt_inv (s c : string) :
  Header.parseHeaderAt s = Some c ->
  exists a ob od rest,
    (allDigits a = true /\ a <> EmptyString) /\ isCount ob /\
    (allDigits c = true /\ c <> EmptyString) /\ isCount od /\
    s = "@@ -" ++ a ++ ob ++ " +" ++ c ++ od ++ " @@" ++ rest.
Proof.
  unfold Header.parseHeaderAt, Header.bind.
  destruct (Header.eat "@@ -" s) as [s1|] eqn:E1; [|discriminate].
  destruct (Header.digits s1) as [[a s2]|] eqn:D1; [|discriminate].
  destruct (Header.eat " +" (Header.optCount s2)) as [s3|] eqn:E2; [|discriminate].
  destruct (Header.digits s3) as [[c' s4]|] eqn:D2; [|discriminate].
  destruct (Header.eat " @@" (Header.optCount s4)) as [s5|] eqn:E3; [|discriminate].
  intros [= <-].
  apply eat_spec in E1, E2, E3.
  apply digits_spec in D1 as (-> & Ha), D2 as (-> & Hc).
  destruct (optCount_spec s2) as (ob & Hob & Eb), (optCount_spec s4) as (od & Hod & Ed).
  exists a, ob, od, s5. repeat split; try tauto.
  subst s. rewrite Eb, E2, Ed, E3. reflexivity.
Qed.

Lemma parseHeaderAt_complete (a ob c od rest : string) :
  allDigits a = true -> a <> EmptyString -> isCount ob ->
  allDigits c = true -> c <> EmptyString -> isCount od ->
  Header.parseHeaderAt ("@@ -" ++ a ++ ob ++ " +" ++ c ++ od ++ " @@" ++ rest) = Some c.
Proof.
  intros Ha Ha' Hob Hc Hc' Hod. unfold Header.parseHeaderAt.
  rewrite eat_app. cbn [Header.bind].
  rewrite digits_app by (try assumption; now apply isCount_startsNonDigit).
  cbn [Header.bind].
  rewrite optCount_app by (assumption || reflexivity).
  rewrite eat_app. cbn [Header.bind].
  rewrite digits_app by (try assumption; now apply isCount_startsNonDigit).
  cbn [Header.bind].
  rewrite optCount_app by (assumption || reflexivity).
  rewrite eat_app. reflexivity.
Qed.

(** The same for the structurer's matcher and pattern. *)
Lemma parseHeaderAt_matchesAt (s : string) :
  matched (Header.parseHeaderAt s) = matchesAt s parseHeaderRe.
Proof.
  apply bool_eq_iff. rewrite matched_some, matchesAt_lang. split.
  - intros [c H].
    apply parseHeaderAt_inv in H as (a & ob & od & rest & Ha & Hob & Hc & Hod & ->).
    exists ("@@ -" ++ a ++ ob ++ " +" ++ c ++ od ++ " @@"), rest.
    split.
    + cbn [append]. repeat (rewrite append_assoc; cbn [append]). reflexivity.
    + apply lang_parseHeaderRe. now exists a, ob, c, od.
  - intros (p & t & -> & H).
    apply lang_parseHeaderRe in H as (a & ob & c & od & [Ha Ha'] & Hob & [Hc Hc'] & Hod & ->).
    exists c.
    rewrite <- (parseHeaderAt_complete a ob c od t) by assumption.
    f_equal. cbn [append]. repeat (rewrite append_assoc; cbn [append]). reflexivity.
Qed.

Lemma firstMatch_search {A : Type} (f : string -> option A) (r : re) :
  (forall s, matched (f s) = matchesAt s r) ->
  forall s, matched (Header.firstMatch f s) = search s r.
Proof.
  intros Hf s. induction s as [|c s IH]; cbn [Header.firstMatch search].
  - rewrite <- Hf, orb_false_r. now destruct (f EmptyString).
  - rewrite <- Hf, <- IH. now destruct (f (String c s)).
Qed.

(** Each matcher finds a match on a line exactly when the pattern it
    stands for matches somewhere in the line. *)
Theorem header_matchers_recognise (line : string) :
  matched (Header.filterHeaderMatch line) = search line filterHeaderRe /\
  matched (Header.parseHeaderMatch line) = search line parseHeaderRe.
Proof.
  split.
  - apply firstMatch_search, filterHeaderAt_matchesAt.
  - apply firstMatch_search, parseHeaderAt_matchesAt.
Qed.

End RegexSemantics.

(** ** Numbers that stay safe *)

Section SafeNumbers.

Lemma isSafeInteger_between (lo n hi : Z) :
  lo <= n <= hi ->
  Safe.isSafeInteger lo = true -> Safe.isSafeInteger hi = true ->
  Safe.isSafeInteger n = true.
Proof.
  unfold Safe.isSafeInteger. rewrite !andb_true_iff, !Z.leb_le. lia.
Qed.

Lemma skippedCount_bounds (filterRegexes : list RegExp) (body : list string) :
  0 <= PatchFilter.skippedCount filterRegexes body <= Z.of_nat (List.length body).
Proof.
  unfold PatchFilter.skippedCount.
  pose proof (filter_length_le (PatchFilter.dropped filterRegexes) body). lia.
Qed.

(** The new count that the filter writes is the difference of two safe
    integers of the same sign. *)
Lemma newCount_safe (filterRegexes : list RegExp) (m : Header.groups) (body : list string) :
  Safe.headerNumbers m = true -> Safe.lineCount body = true ->
  Safe.isSafeInteger
    (JS.parseInt (Header.g4 m) - PatchFilter.skippedCount filterRegexes body) = true.
Proof.
  unfold Safe.headerNumbers, Safe.lineCount. rewrite !andb_true_iff.
  intros [_ Hd] Hb.
  pose proof (parseInt_nonneg (Header.g4 m)) as H0.
  pose proof (skippedCount_bounds filterRegexes body) as Hk.
  unfold Safe.isSafeInteger in *. rewrite !andb_true_iff, !Z.leb_le in *. lia.
Qed.

Lemma hunkStart_nonneg (line : string) : 0 <= DiffStructurer.hunkStart line.
Proof.
  unfold DiffStructurer.hunkStart.
  destruct (Header.parseHeaderMatch line); [apply parseInt_nonneg | lia].
Qed.

Lemma numbered_bounds (es : list DiffStructurer.DiffLine) (n : Z) :
  DiffStructurer.numbered n es ->
  Forall (fun e => n <= DiffStructurer.lineNumber e <= n + Z.of_nat (List.length es)) es.
Proof.
  revert n. induction es as [|e es IH]; intros n; [constructor|].
  cbn [DiffStructurer.numbered]. intros [He Hes]. constructor.
  - cbn [List.length]. lia.
  - specialize (IH _ Hes). eapply Forall_impl; [|exact IH].
    cbn [List.length]. intros e' He'. cbv beta in He'.
    unfold DiffStructurer.advance in He'. destruct (DiffStructurer.type e); lia.
Qed.

(** Where the counter of a hunk stays safe, so does every number given
    to an entry. *)
Lemma numbered_safe (h : DiffStructurer.Hunk) :
  DiffStructurer.wellNumbered h -> Safe.counter h = true ->
  Forall (fun e => Safe.isSafeInteger (DiffStructurer.lineNumber e) = true)
    (DiffStructurer.lines h).
Proof.
  unfold DiffStructurer.wellNumbered, Safe.counter. intros Hn Hc.
  apply numbered_bounds in Hn. eapply Forall_impl; [|exact Hn].
  intros e He. cbv beta in He.
  pose proof (hunkStart_nonneg (DiffStructurer.header h)) as H0.
  unfold Safe.isSafeInteger in *. rewrite !andb_true_iff, !Z.leb_le in *. lia.
Qed.

End SafeNumbers.

(** * The claims *)

Section PatchFilterClaims.

Import PatchFilter.



(** The example of the specification, by evaluation, with the rule
    [^\s*console\.] and with the default rule set. *)
Example createFilteredPatch_example :
  createFilteredPatch Samples.rules Samples.hunkDiff =
    JS.join ["@@ -10,3 +10,3 @@"; " ctx1"; "+keep()"; " ctx2"] /\
  createFilteredPatch defaultFilterRegexes Samples.hunkDiff =
    JS.join ["@@ -10,3 +10,3 @@"; " ctx1"; "+keep()"; " ctx2"].
Proof. split; reflexivity. Qed.

(** C2, as the claim states it, fails: the header of a hunk is written
    anew even when no rule is given, and what [git diff] prints after the
    closing [@@] is lost. *)
Lemma createFilteredPatch_not_identity :
  createFilteredPatch [] Samples.gitDiff = Samples.plainDiff /\
  createFilteredPatch [] Samples.gitDiff <> Samples.gitDiff.
Proof. split; [reflexivity | discriminate]. Qed.

(** C2, amended.  With an empty rule set, and no line taken for a file
    header after the first hunk header, the output is the file headers
    found before the first hunk header followed by every later line in
    its place and as it is, except that each hunk header matching the
    pattern is written as [@@ -a,b +c,d @@].  The output is the input
    itself when moreover only file headers precede the first hunk
    header and every hunk header is already of that form. *)
Theorem createFilteredPatch_no_rules (diff : string) :
  Forall (fun l => isFileHeader l = false) (fromFirstHunk (JS.split diff)) ->
  createFilteredPatch [] diff =
    JS.join (headersOf (beforeFirstHunk (JS.split diff)) ++
             map canonicalLine (fromFirstHunk (JS.split diff))) /\
  (Forall (fun l => isFileHeader l = true) (beforeFirstHunk (JS.split diff)) ->
   Forall (fun l => canonicalLine l = l) (fromFirstHunk (JS.split diff)) ->
   createFilteredPatch [] diff = diff).
Proof.
  intros Hh.
  assert (E : createFilteredPatch [] diff =
              JS.join (headersOf (beforeFirstHunk (JS.split diff)) ++
                       map canonicalLine (fromFirstHunk (JS.split diff)))).
  { unfold createFilteredPatch.
    rewrite filterLines_nothing_dropped; [reflexivity | assumption |].
    apply Forall_forall. intros l _. apply dropped_no_rules. }
  split; [exact E|].
  intros Hb Hc. rewrite E. unfold headersOf.
  rewrite (filter_all _ _ Hb), (map_fixed _ _ Hc), <- lines_before_from.
  apply join_split.
Qed.

Lemma createFilteredPatch_no_rules_witness :
  createFilteredPatch [] Samples.plainDiff = Samples.plainDiff.
Proof.
  refine (proj2 (createFilteredPatch_no_rules Samples.plainDiff _) _ _);
    repeat constructor.
Defined.



(** C9, as the claim states it, fails: without a hunk header, a line
    that is not one of the four file headers is lost. *)
Lemma createFilteredPatch_drops_mode_lines :
  Forall (fun l => isHunkStart l = false) (JS.split Samples.modeDiff) /\
  createFilteredPatch defaultFilterRegexes Samples.modeDiff =
    "diff --git a/run.sh b/run.sh" /\
  createFilteredPatch defaultFilterRegexes Samples.modeDiff <> Samples.modeDiff.
Proof. split; [repeat constructor | split; [reflexivity | discriminate]]. Qed.

(** C9, amended.  For an input with no line starting with [@@], the
    output is made of the lines that start with [diff ], [index ],
    [--- ] or [+++ ], as they are and in their order. *)
Theorem createFilteredPatch_no_hunk (filterRegexes : list RegExp) (diff : string) :
  Forall (fun l => isHunkStart l = false) (JS.split diff) ->
  createFilteredPatch filterRegexes diff = JS.join (headersOf (JS.split diff)).
Proof.
  intros H. unfold createFilteredPatch, filterLines.
  rewrite run_before by (assumption || reflexivity).
  unfold flush. cbn [filteredLines currentHunk initial finalizeHunk List.app].
  now rewrite app_nil_r.
Qed.

Lemma createFilteredPatch_no_hunk_witness :
  createFilteredPatch defaultFilterRegexes Samples.modeDiff =
  JS.join ["diff --git a/run.sh b/run.sh"].
Proof.
  apply (createFilteredPatch_no_hunk defaultFilterRegexes Samples.modeDiff).
  repeat constructor.
Defined.

(** C10.  A hunk whose header line matches the filter's pattern, with
    numbers that are safe integers, comes
    out with a header made of the four numbers alone, whatever the
    number of additions excluded: for a header line [@@ -a,b +c,d @@]
    followed by any text, the header written is
    [@@ -a,b +c,n @@] with nothing after it, [n] being a safe integer
    again, and when no addition of
    the hunk is excluded it is [@@ -a,b +c,d @@], the line without the
    text, over a body that is kept whole. *)
Theorem createFilteredPatch_canonical_header
    (filterRegexes : list RegExp) (diff : string)
    (pre : list string) (h : string) (body post : list string) (m : Header.groups) :
  JS.split diff = (pre ++ h :: body ++ post)%list ->
  isHunkStart h = true ->
  Forall (fun l => isHunkStart l = false) body ->
  post = [] \/ (exists h' t, post = h' :: t /\ isHunkStart h' = true) ->
  Header.filterHeaderMatch h = Some m ->
  Safe.headerNumbers m = true ->
  Safe.lineCount body = true ->
  let k := skippedCount filterRegexes body in
  let header :=
    formatHeader (JS.parseInt (Header.g1 m)) (Header.g2 m)
                 (JS.parseInt (Header.g3 m)) (JS.parseInt (Header.g4 m) - k) in
  createFilteredPatch filterRegexes diff =
    JS.join (filterLines filterRegexes pre ++ headersOf body ++
             header :: keptBody filterRegexes body ++
             filterLines filterRegexes post) /\
  Safe.isSafeInteger (JS.parseInt (Header.g4 m) - k) = true /\
  (forall a b c d trailing,
     h = "@@ -" ++ a ++ "," ++ b ++ " +" ++ c ++ "," ++ d ++ " @@" ++ trailing ->
     isNumeral a = true -> allDigits b = true -> b <> EmptyString ->
     isNumeral c = true -> isNumeral d = true ->
     header = "@@ -" ++ a ++ "," ++ b ++ " +" ++ c ++ "," ++
              JS.toString (JS.parseInt d - k) ++ " @@" /\
     (Forall (fun l => dropped filterRegexes l = false) body ->
      header = "@@ -" ++ a ++ "," ++ b ++ " +" ++ c ++ "," ++ d ++ " @@" /\
      keptBody filterRegexes body = filter (fun l => negb (isFileHeader l)) body)).
Proof.
  intros Hsplit Hh Hbody Hpost Hm Hsafe Hcount k header. split; [|split].
  - unfold createFilteredPatch. rewrite Hsplit.
    rewrite (filterLines_hunk filterRegexes pre h body post Hh Hbody Hpost).
    unfold rewriteHeader. now rewrite Hm.
  - now apply newCount_safe.
  - intros a b c d trailing -> Ha Hb Hb' Hc Hd.
    destruct (isNumeral_digits a Ha), (isNumeral_digits c Hc), (isNumeral_digits d Hd).
    destruct (rewriteHeader_shape a b c d trailing k) as [E _]; try assumption.
    rewrite E in Hm. injection Hm as <-.
    unfold header. cbn [Header.g1 Header.g2 Header.g3 Header.g4].
    rewrite formatHeader_numerals by assumption.
    split; [reflexivity|]. intros Hnone.
    unfold k. rewrite skippedCount_none, Z.sub_0_r, toString_parseInt by assumption.
    split; [reflexivity | now apply keptBody_none].
Qed.

Lemma createFilteredPatch_canonical_header_witness :
  createFilteredPatch defaultFilterRegexes Samples.gitDiff = Samples.plainDiff.
Proof.
  refine (proj1 (createFilteredPatch_canonical_header defaultFilterRegexes Samples.gitDiff
            ["diff --git a/f.js b/f.js"; "index 1111111..2222222 100644";
             "--- a/f.js"; "+++ b/f.js"]
            "@@ -1,2 +1,3 @@ function f() {" [" a"; "+b"; " c"] []
            {| Header.g1 := "1"; Header.g2 := "2"; Header.g3 := "1"; Header.g4 := "3" |}
            eq_refl eq_refl _ (or_introl eq_refl) eq_refl eq_refl eq_refl)).
  repeat constructor.
Defined.

End PatchFilterClaims.

Section HeaderClaims.

Import Header.

(** C3, as the claim states it, fails: a header without counts is
    recognised by the structurer's pattern and not by the filter's, and
    neither pattern supplies a count of 1. *)
Lemma header_patterns_differ :
  filterHeaderMatch "@@ -1 +1 @@" = None /\
  parseHeaderMatch "@@ -1 +1 @@" = Some "1".
Proof. split; reflexivity. Qed.

(** What the two matchers read on the sample lines. *)
Example header_matchers_samples :
  map (fun l => option_map g3 (filterHeaderMatch l)) Samples.headerLines =
    [Some "10"; Some "10"; None; None; None; Some "1"; None; None; None;
     Some "3"; Some "3"; None; None; None] /\
  map parseHeaderMatch Samples.headerLines =
    [Some "10"; Some "10"; Some "1"; Some "3"; Some "2"; Some "1"; None; None; None;
     Some "3"; Some "5"; None; None; None].
Proof. split; reflexivity. Qed.

(** C3, amended.  Every line on which the filter's pattern
    [@@ -a,b +c,d @@] matches is also matched by the structurer's
    pattern; when the line starts with that header, the number the
    structurer reads, its group 1, is the filter's new start [c].  The
    structurer reads the new start alone, from a header with or without
    counts. *)
Theorem header_patterns_agree (line : string) (m : groups) :
  filterHeaderMatch line = Some m ->
  (exists c, parseHeaderMatch line = Some c) /\
  (filterHeaderAt line = Some m ->
   parseHeaderMatch line = Some (g3 m) /\
   DiffStructurer.hunkStart line = JS.parseInt (g3 m)) /\
  (forall a ob c od rest,
     allDigits a = true -> a <> EmptyString -> isCount ob ->
     allDigits c = true -> c <> EmptyString -> isCount od ->
     DiffStructurer.hunkStart ("@@ -" ++ a ++ ob ++ " +" ++ c ++ od ++ " @@" ++ rest) =
     JS.parseInt c).
Proof.
  intros H. split; [|split].
  - revert H. apply firstMatch_mono. intros s a Ha.
    exists (g3 a). now apply parseHeaderAt_of_filterHeaderAt.
  - intros Hat.
    assert (E : parseHeaderMatch line = Some (g3 m))
      by (apply firstMatch_here; now apply parseHeaderAt_of_filterHeaderAt).
    split; [exact E|]. unfold DiffStructurer.hunkStart. now rewrite E.
  - intros a ob c od rest Ha Ha' Hob Hc Hc' Hod.
    unfold DiffStructurer.hunkStart, parseHeaderMatch.
    now rewrite (firstMatch_here _ _ _
                   (parseHeaderAt_complete a ob c od rest Ha Ha' Hob Hc Hc' Hod)).
Qed.

Lemma header_patterns_agree_witness :
  (exists c, parseHeaderMatch "@@ -10,3 +12,4 @@ f()" = Some c) /\
  (filterHeaderAt "@@ -10,3 +12,4 @@ f()" =
     Some {| g1 := "10"; g2 := "3"; g3 := "12"; g4 := "4" |} ->
   parseHeaderMatch "@@ -10,3 +12,4 @@ f()" = Some "12" /\
   DiffStructurer.hunkStart "@@ -10,3 +12,4 @@ f()" = 12).
Proof.
  destruct (header_patterns_agree "@@ -10,3 +12,4 @@ f()"
              {| g1 := "10"; g2 := "3"; g3 := "12"; g4 := "4" |} eq_refl)
    as (H1 & H2 & _).
  split; [exact H1 | exact H2].
Defined.

End HeaderClaims.

Section StructurerClaims.

Import DiffStructurer.

(** C5.  In every hunk returned by [parseDiff] whose counter stays among
    the safe integers, the entries carry the
    successive values of a counter that starts at the new start read
    from the header, goes up by one after an added or context entry and
    stays after a removed one: the first entry has the new start, the
    entry after an added or context entry has its number plus one, and
    the entry after a removed entry has its number.  Every number given
    is a safe integer. *)
Theorem parseDiff_line_numbers (diff filePath : string) (type : Z) (h : Hunk) :
  In h (hunks (parseDiff diff filePath type)) ->
  Safe.counter h = true ->
  numbered (hunkStart (header h)) (lines h) /\
  (forall c e es,
     Header.parseHeaderMatch (header h) = Some c -> lines h = e :: es ->
     lineNumber e = JS.parseInt c) /\
  (forall l1 e1 e2 l2,
     lines h = (l1 ++ e1 :: e2 :: l2)%list ->
     (DiffStructurer.type e1 <> removed ->
      lineNumber e2 = lineNumber e1 + 1 /\ lineNumber e1 < lineNumber e2) /\
     (DiffStructurer.type e1 = removed -> lineNumber e2 = lineNumber e1)) /\
  Forall (fun e => Safe.isSafeInteger (lineNumber e) = true) (lines h).
Proof.
  intros Hin Hsafe.
  pose proof (parseDiff_wellNumbered diff filePath type) as Hall.
  rewrite Forall_forall in Hall. specialize (Hall h Hin).
  pose proof (numbered_safe h Hall Hsafe) as Hnum.
  unfold wellNumbered in Hall. split; [exact Hall|]. split; [|split; [|exact Hnum]].
  - intros c e es Hc He. rewrite He in Hall. destruct Hall as [-> _].
    unfold hunkStart. now rewrite Hc.
  - intros l1 e1 e2 l2 Hl. rewrite Hl in Hall.
    apply numbered_adjacent in Hall. rewrite Hall. unfold advance.
    destruct (DiffStructurer.type e1); split; intros; try congruence; lia.
Qed.

Lemma parseDiff_line_numbers_witness :
  numbered 7 (lines Samples.segmentHunk) /\
  (forall c e es,
     Header.parseHeaderMatch (header Samples.segmentHunk) = Some c ->
     lines Samples.segmentHunk = e :: es ->
     lineNumber e = JS.parseInt c) /\
  (forall l1 e1 e2 l2,
     lines Samples.segmentHunk = (l1 ++ e1 :: e2 :: l2)%list ->
     (DiffStructurer.type e1 <> removed ->
      lineNumber e2 = lineNumber e1 + 1 /\ lineNumber e1 < lineNumber e2) /\
     (DiffStructurer.type e1 = removed -> lineNumber e2 = lineNumber e1)) /\
  Forall (fun e => Safe.isSafeInteger (lineNumber e) = true) (lines Samples.segmentHunk).
Proof.
  apply (parseDiff_line_numbers Samples.segment "f.js" 1 Samples.segmentHunk).
  - left. reflexivity.
  - reflexivity.
Defined.

(** C6.  For a segment that contains [Binary files] or
    [GIT binary patch], [parseDiff] returns the path and type it was
    given, no hunk, and [isBinary] set; the loop over the lines is not
    entered. *)
Theorem parseDiff_binary (diff filePath : string) (type : Z) :
  JS.includes diff "Binary files" = true \/ JS.includes diff "GIT binary patch" = true ->
  parseDiff diff filePath type =
    {| filePath := filePath; changeType := type; hunks := []; isBinary := Some true |} /\
  hunks (structureSegment diff filePath) = [] /\
  isBinary (structureSegment diff filePath) = Some true.
Proof.
  intros H.
  assert (E : isBinaryDiff diff = true).
  { unfold isBinaryDiff. apply orb_true_iff. exact H. }
  unfold structureSegment, parseDiff. rewrite E. repeat split.
Qed.

Lemma parseDiff_binary_witness :
  parseDiff Samples.binarySegment "logo.png" 1 =
    {| filePath := "logo.png"; changeType := 1; hunks := []; isBinary := Some true |} /\
  hunks (structureSegment Samples.binarySegment "logo.png") = [] /\
  isBinary (structureSegment Samples.binarySegment "logo.png") = Some true.
Proof.
  apply (parseDiff_binary Samples.binarySegment "logo.png" 1).
  left. reflexivity.
Defined.

(** C7.  The type of a segment is 7, shown as added, exactly when the
    segment contains [new file mode]; 6, shown as deleted, exactly when
    it does not and contains [deleted file mode]; and 1, shown as
    changed, in every other case. *)
Theorem getFileChangeType_markers (diff filePath : string) :
  let isNew := JS.includes diff "new file mode" in
  let isDeleted := JS.includes diff "deleted file mode" in
  let t := changeType (structureSegment diff filePath) in
  t = getFileChangeType diff /\
  (t = 7 <-> isNew = true) /\
  (t = 6 <-> isNew = false /\ isDeleted = true) /\
  (t = 1 <-> isNew = false /\ isDeleted = false) /\
  getFileChangeText t =
    (if isNew then "Added:" else if isDeleted then "Deleted:" else "Changed:").
Proof.
  intros isNew isDeleted t.
  assert (E : t = getFileChangeType diff).
  { unfold t, structureSegment, parseDiff. now destruct (isBinaryDiff diff). }
  split; [exact E|]. rewrite E. unfold getFileChangeType.
  fold isNew. fold isDeleted.
  destruct isNew, isDeleted; cbn; intuition (congruence || lia).
Qed.

End StructurerClaims.

Section MarkerClaim.



End MarkerClaim.

(** * Further properties *)

(** ** Further properties of the patch filter *)

Section FilterNeverKeepsDropped.

Import PatchFilter FilterMore.

Variable filterRegexes : list RegExp.

Lemma rewriteHeader_hunkStart (h : string) (k : Z) :
  isHunkStart h = true -> isHunkStart (rewriteHeader h k) = true.
Proof.
  intros H. unfold rewriteHeader.
  destruct (Header.filterHeaderMatch h); [reflexivity | exact H].
Qed.

Lemma hunkStart_not_dropped (l : string) :
  isHunkStart l = true -> dropped filterRegexes l = false.
Proof. intros H. apply startsWith_inv in H as [r ->]. reflexivity. Qed.

Lemma fileHeader_not_dropped (l : string) :
  isFileHeader l = true -> dropped filterRegexes l = false.
Proof. intros H. unfold dropped, isAdded. rewrite H. now rewrite andb_false_r. Qed.

Lemma step_not_dropped (st : state) (l : string) :
  Forall (fun l => dropped filterRegexes l = false) (flush st) ->
  Forall (fun l => dropped filterRegexes l = false) (currentHunk st) ->
  Forall (fun l => dropped filterRegexes l = false) (flush (step filterRegexes st l)) /\
  Forall (fun l => dropped filterRegexes l = false) (currentHunk (step filterRegexes st l)).
Proof.
  intros Hf Hc. unfold step.
  destruct (isFileHeader l) eqn:Hh.
  { split; [|exact Hc]. unfold flush in *.
    cbn [filteredLines currentHunk skippedLines].
    apply Forall_app in Hf as [Hf1 Hf2].
    rewrite <- app_assoc. apply Forall_app. split; [exact Hf1|].
    constructor; [now apply fileHeader_not_dropped | exact Hf2]. }
  destruct (isHunkStart l) eqn:Hs.
  { assert (Hl : dropped filterRegexes l = false) by now apply hunkStart_not_dropped.
    split; cbn [currentHunk]; [|now constructor].
    unfold flush at 1. cbn [filteredLines currentHunk skippedLines finalizeHunk].
    apply Forall_app. split; [exact Hf|].
    constructor; [|constructor].
    apply hunkStart_not_dropped. now apply rewriteHeader_hunkStart. }
  destruct st as [fl ch k]. cbn [currentHunk filteredLines skippedLines] in *.
  destruct ch as [|h b]; [now split|].
  assert (Happ : forall k', dropped filterRegexes l = false ->
            Forall (fun l => dropped filterRegexes l = false)
              (flush {| filteredLines := fl; currentHunk := (h :: b) ++ [l]; skippedLines := k' |})).
  { intros k' Hl. unfold flush in *.
    cbn [filteredLines currentHunk skippedLines finalizeHunk List.app] in *.
    apply Forall_app in Hf as [Hf1 Hf2]. inversion Hf2 as [|? ? Hh' Hb]; subst.
    inversion Hc as [|? ? Hh0 _]; subst.
    apply Forall_app. split; [exact Hf1|].
    constructor.
    - unfold rewriteHeader in *. destruct (Header.filterHeaderMatch h); [reflexivity | exact Hh0].
    - apply Forall_app. split; [exact Hb | now constructor]. }
  assert (Hskip : forall k',
            Forall (fun l => dropped filterRegexes l = false)
              (flush {| filteredLines := fl; currentHunk := h :: b; skippedLines := k' |})).
  { intros k'. unfold flush in *.
    cbn [filteredLines currentHunk skippedLines finalizeHunk] in *.
    apply Forall_app in Hf as [Hf1 Hf2]. inversion Hf2 as [|? ? Hh' Hb]; subst.
    inversion Hc as [|? ? Hh0 _]; subst.
    apply Forall_app. split; [exact Hf1|].
    constructor; [|exact Hb].
    unfold rewriteHeader in *. destruct (Header.filterHeaderMatch h); [reflexivity | exact Hh0]. }
  destruct (JS.startsWith l "+") eqn:Hp.
  - destruct (shouldFilter filterRegexes l) eqn:Hsf.
    + split; [apply Hskip | exact Hc].
    + assert (Hl : dropped filterRegexes l = false)
        by (unfold dropped; rewrite Hsf; apply andb_false_r).
      split; [now apply Happ|]. cbn [currentHunk].
      apply Forall_app. split; [exact Hc | now constructor].
  - assert (Hl : dropped filterRegexes l = false)
      by (unfold dropped, isAdded; now rewrite Hp).
    split; [now apply Happ|]. cbn [currentHunk].
    apply Forall_app. split; [exact Hc | now constructor].
Qed.

Lemma filterLines_not_dropped (lines : list string) :
  Forall (fun l => dropped filterRegexes l = false) (filterLines filterRegexes lines).
Proof.
  unfold filterLines.
  assert (H : forall st,
    Forall (fun l => dropped filterRegexes l = false) (flush st) ->
    Forall (fun l => dropped filterRegexes l = false) (currentHunk st) ->
    Forall (fun l => dropped filterRegexes l = false) (flush (run filterRegexes lines st))).
  { induction lines as [|l ls IH]; intros st Hf Hc; [exact Hf|].
    change (run filterRegexes (l :: ls) st)
      with (run filterRegexes ls (step filterRegexes st l)).
    destruct (step_not_dropped st l Hf Hc). now apply IH. }
  apply H; constructor.
Qed.

(** X1.  The output keeps no addition that the rule set excludes: a line
    of the output that starts with [+], and not with [+++ ], has a
    trimmed content that no rule matches. *)
Theorem createFilteredPatch_keeps_no_excluded_line (diff line : string) :
  In line (JS.split (createFilteredPatch filterRegexes diff)) ->
  JS.startsWith line "+" = true ->
  JS.startsWith line "+++ " = false ->
  existsb (fun regex => test regex (JS.trim (JS.substring1 line))) filterRegexes = false.
Proof.
  intros Hin Hp Hh.
  assert (Hd : dropped filterRegexes line = false).
  { unfold createFilteredPatch in Hin.
    pose proof (filterLines_not_dropped (JS.split diff)) as Hall.
    destruct (filterLines filterRegexes (JS.split diff)) as [|l ls] eqn:E.
    - cbn in Hin. destruct Hin as [<- | []]. discriminate.
    - rewrite split_join in Hin;
        [|discriminate | rewrite <- E; apply filterLines_noLF, split_noLF].
      rewrite Forall_forall in Hall. now apply Hall. }
  unfold dropped in Hd. rewrite <- plusLine_isAdded in Hd.
  unfold plusLine in Hd. rewrite Hp, Hh in Hd. exact Hd.
Qed.

End FilterNeverKeepsDropped.

Lemma createFilteredPatch_keeps_no_excluded_line_witness :
  existsb (fun regex => test regex (JS.trim (JS.substring1 "+b"))) defaultFilterRegexes = false.
Proof.
  apply (createFilteredPatch_keeps_no_excluded_line defaultFilterRegexes MoreSamples.twoHunks "+b");
    [vm_compute; auto 20 | reflexivity | reflexivity].
Defined.

Section FilterHunkHeaders.

Import PatchFilter FilterMore.

Variable filterRegexes : list RegExp.

Lemma hunkStarts_app (l1 l2 : list string) :
  hunkStarts (l1 ++ l2) = (hunkStarts l1 ++ hunkStarts l2)%list.
Proof. apply filter_app. Qed.

Lemma hunkStarts_none (ls : list string) :
  Forall (fun l => isHunkStart l = false) ls -> hunkStarts ls = [].
Proof.
  induction 1 as [|l ls Hl _ IH]; [reflexivity|].
  unfold hunkStarts in *. cbn [filter]. now rewrite Hl.
Qed.

(** From a state inside a hunk whose body holds no header: the headers
    that come out are those of the current hunk and of the lines read,
    each as it is rewritten. *)
Lemma hunkStarts_run (lines : list string) (h : string) (b : list string) (k : Z) :
  isHunkStart h = true -> hunkStarts b = [] ->
  Forall2 (fun i o => exists k', o = rewriteHeader i k')
    (h :: hunkStarts lines)
    (hunkStarts (flush (run filterRegexes lines
       {| filteredLines := []; currentHunk := h :: b; skippedLines := k |}))).
Proof.
  revert h b k. induction lines as [|l ls IH]; intros h b k Hh Hb.
  - cbn [run fold_left]. unfold flush.
    cbn [filteredLines currentHunk skippedLines finalizeHunk List.app].
    unfold hunkStarts at 2. cbn [filter].
    rewrite (rewriteHeader_hunkStart h k Hh). fold (hunkStarts b). rewrite Hb.
    constructor; [now exists k | constructor].
  - change (run filterRegexes (l :: ls) ?st)
      with (run filterRegexes ls (step filterRegexes st l)).
    destruct (isHunkStart l) eqn:Hl.
    + rewrite step_hunkStart by assumption.
      replace {| filteredLines := flush {| filteredLines := []; currentHunk := h :: b; skippedLines := k |};
                 currentHunk := [l]; skippedLines := 0 |}
        with (prepend (rewriteHeader h k :: b)
                {| filteredLines := []; currentHunk := [l]; skippedLines := 0 |})
        by (unfold prepend, flush; cbn; now rewrite app_nil_r).
      rewrite run_prepend, flush_prepend.
      change (rewriteHeader h k :: b) with ([rewriteHeader h k] ++ b)%list.
      rewrite <- app_assoc, !hunkStarts_app, Hb.
      unfold hunkStarts at 1 2. cbn [filter]. rewrite Hl.
      rewrite (rewriteHeader_hunkStart h k Hh). cbn [List.app].
      constructor; [now exists k|]. now apply (IH l [] 0).
    + rewrite step_body by (assumption || discriminate).
      cbn [filteredLines currentHunk skippedLines List.app].
      replace {| filteredLines := headersOf [l];
                 currentHunk := h :: (b ++ keptBody filterRegexes [l])%list;
                 skippedLines := k + skippedCount filterRegexes [l] |}
        with (prepend (headersOf [l])
                {| filteredLines := []; currentHunk := h :: (b ++ keptBody filterRegexes [l])%list;
                   skippedLines := k + skippedCount filterRegexes [l] |})
        by (unfold prepend; cbn; now rewrite app_nil_r).
      rewrite run_prepend, flush_prepend, hunkStarts_app.
      assert (E1 : hunkStarts (headersOf [l]) = []).
      { unfold headersOf, hunkStarts. cbn [filter].
        destruct (isFileHeader l); cbn [filter]; [now rewrite Hl | reflexivity]. }
      assert (E2 : hunkStarts (b ++ keptBody filterRegexes [l]) = []).
      { rewrite hunkStarts_app, Hb. unfold keptBody, hunkStarts. cbn [filter].
        destruct (negb (isFileHeader l) && negb (dropped filterRegexes l));
          cbn [filter]; [now rewrite Hl | reflexivity]. }
      rewrite E1. cbn [List.app]. unfold hunkStarts at 1. cbn [filter]. rewrite Hl.
      now apply IH.
Qed.

Lemma hunkStarts_filterLines (lines : list string) :
  Forall2 (fun i o => exists k, o = rewriteHeader i k)
    (hunkStarts lines) (hunkStarts (filterLines filterRegexes lines)).
Proof.
  unfold filterLines.
  rewrite (lines_before_from lines) at 1 2. rewrite run_app, hunkStarts_app.
  rewrite (run_before filterRegexes (beforeFirstHunk lines))
    by (apply beforeFirstHunk_no_hunkStart || reflexivity).
  rewrite (hunkStarts_none _ (beforeFirstHunk_no_hunkStart lines)).
  cbn [filteredLines skippedLines initial List.app].
  assert (Hh : hunkStarts (headersOf (beforeFirstHunk lines)) = []).
  { apply hunkStarts_none. unfold headersOf.
    apply Forall_forall. intros l Hl. apply filter_In in Hl as [Hl _].
    pose proof (beforeFirstHunk_no_hunkStart lines) as H.
    rewrite Forall_forall in H. now apply H. }
  destruct (fromFirstHunk_shape lines) as [-> | (h & t & -> & Hs)].
  - cbn [run fold_left]. unfold flush. cbn [filteredLines currentHunk finalizeHunk].
    rewrite app_nil_r, Hh. constructor.
  - change (run filterRegexes (h :: t) ?st)
      with (run filterRegexes t (step filterRegexes st h)).
    rewrite step_hunkStart by assumption.
    unfold flush at 2. cbn [filteredLines currentHunk skippedLines finalizeHunk].
    rewrite app_nil_r.
    replace {| filteredLines := headersOf (beforeFirstHunk lines);
               currentHunk := [h]; skippedLines := 0 |}
      with (prepend (headersOf (beforeFirstHunk lines))
              {| filteredLines := []; currentHunk := [h]; skippedLines := 0 |})
      by (unfold prepend; cbn; now rewrite app_nil_r).
    rewrite run_prepend, flush_prepend, hunkStarts_app, Hh. cbn [List.app].
    unfold hunkStarts at 1. cbn [filter]. rewrite Hs.
    now apply hunkStarts_run.
Qed.

(** X2.  No hunk is lost or added: the lines of the output that start
    with [@@] are the lines of the input that do, in the same order, each
    either as it was or rewritten from its own numbers. *)
Theorem createFilteredPatch_keeps_every_hunk (diff : string) :
  Forall2 (fun i o => exists k, o = rewriteHeader i k)
    (hunkStarts (JS.split diff))
    (hunkStarts (JS.split (createFilteredPatch filterRegexes diff))) /\
  List.length (hunkStarts (JS.split (createFilteredPatch filterRegexes diff))) =
  List.length (hunkStarts (JS.split diff)).
Proof.
  assert (H : Forall2 (fun i o => exists k, o = rewriteHeader i k)
    (hunkStarts (JS.split diff))
    (hunkStarts (JS.split (createFilteredPatch filterRegexes diff)))).
  { unfold createFilteredPatch.
    pose proof (hunkStarts_filterLines (JS.split diff)) as H.
    destruct (filterLines filterRegexes (JS.split diff)) as [|l ls] eqn:E.
    - exact H.
    - rewrite split_join;
        [exact H | discriminate | rewrite <- E; apply filterLines_noLF, split_noLF]. }
  split; [exact H|]. symmetry. exact (Forall2_length H).
Qed.

End FilterHunkHeaders.

Section FilterCounts.

Import PatchFilter FilterMore.

Variable filterRegexes : list RegExp.

Lemma headersOf_none (body : list string) :
  Forall (fun l => isFileHeader l = false) body -> headersOf body = [].
Proof.
  induction 1 as [|l ls Hl _ IH]; [reflexivity|].
  unfold headersOf in *. cbn [filter]. now rewrite Hl.
Qed.

Lemma dropped_plus (l : string) :
  dropped filterRegexes l = true -> JS.startsWith l "+" = true.
Proof.
  unfold dropped, isAdded. intros H.
  apply andb_true_iff in H as [H _]. now apply andb_true_iff in H as [H _].
Qed.

Lemma count_keptBody (body : list string) :
  Forall (fun l => isFileHeader l = false) body ->
  count newSide (keptBody filterRegexes body) =
    count newSide body - skippedCount filterRegexes body /\
  count oldSide (keptBody filterRegexes body) = count oldSide body.
Proof.
  unfold count, skippedCount, keptBody.
  induction 1 as [|l ls Hl _ [IH1 IH2]]; [split; reflexivity|].
  cbn [filter]. rewrite Hl. cbn [negb andb].
  destruct (dropped filterRegexes l) eqn:Hd; cbn [negb filter].
  - pose proof (dropped_plus l Hd) as Hp.
    apply startsWith_inv in Hp as [r ->].
    change (newSide ("+" ++ r)) with true. change (oldSide ("+" ++ r)) with false.
    cbn [List.length]. split; [lia | exact IH2].
  - destruct (newSide l), (oldSide l); cbn [List.length]; split; lia.
Qed.

(** X3.  The filter keeps a hunk consistent.  In a hunk with no line taken
    for a file header, the only lines removed are additions: the old side
    of the body (removals and context lines) is what it was, and when the
    new count of the input header is the number of additions and context
    lines of the body, the new count written is the number of additions
    and context lines of the body that comes out. *)
Theorem createFilteredPatch_keeps_counts
    (diff : string) (pre : list string) (h : string) (body post : list string)
    (m : Header.groups) :
  JS.split diff = (pre ++ h :: body ++ post)%list ->
  isHunkStart h = true ->
  Forall (fun l => isHunkStart l = false) body ->
  post = [] \/ (exists h' t, post = h' :: t /\ isHunkStart h' = true) ->
  Header.filterHeaderMatch h = Some m ->
  Forall (fun l => isFileHeader l = false) body ->
  let body' := keptBody filterRegexes body in
  let n := JS.parseInt (Header.g4 m) - skippedCount filterRegexes body in
  createFilteredPatch filterRegexes diff =
    JS.join (filterLines filterRegexes pre ++
             formatHeader (JS.parseInt (Header.g1 m)) (Header.g2 m)
                          (JS.parseInt (Header.g3 m)) n ::
             body' ++ filterLines filterRegexes post) /\
  count oldSide body' = count oldSide body /\
  (JS.parseInt (Header.g4 m) = count newSide body -> n = count newSide body').
Proof.
  intros Hsplit Hh Hbody Hpost Hm Hfh body' n.
  destruct (count_keptBody body Hfh) as [Hnew Hold].
  split; [|split; [exact Hold | intros E; unfold n, body'; lia]].
  unfold createFilteredPatch. rewrite Hsplit.
  rewrite (filterLines_hunk filterRegexes pre h body post Hh Hbody Hpost).
  rewrite (headersOf_none body Hfh). cbn [List.app].
  unfold rewriteHeader. now rewrite Hm.
Qed.

End FilterCounts.

Section FilterRuleOrder.

Import PatchFilter.

(** Rule sets that exclude the same texts run alike. *)
Lemma shouldFilter_ext (rules1 rules2 : list RegExp) :
  (forall s, existsb (fun r => test r s) rules1 = existsb (fun r => test r s) rules2) ->
  forall lines st, run rules1 lines st = run rules2 lines st.
Proof.
  intros H lines. induction lines as [|l ls IH]; intros st; [reflexivity|].
  change (run ?r (l :: ls) st) with (run r ls (step r st l)).
  rewrite IH. f_equal. unfold step, shouldFilter. now rewrite H.
Qed.

Lemma existsb_Permutation {A : Type} (p : A -> bool) (l1 l2 : list A) :
  Permutation l1 l2 -> existsb p l1 = existsb p l2.
Proof.
  induction 1 as [| x l l' _ IH | x y l | l l' l'' _ IH1 _ IH2]; cbn [existsb].
  - reflexivity.
  - now rewrite IH.
  - now rewrite !orb_assoc, (orb_comm (p y)).
  - now rewrite IH1.
Qed.

(** X4.  The outcome depends on the rule set only through the texts that
    some rule matches: two rule sets that are permutations of each
    other, or that exclude the same texts, give the same patch. *)
Theorem createFilteredPatch_rule_order (rules1 rules2 : list RegExp) (diff : string) :
  (Permutation rules1 rules2 \/
   forall s, existsb (fun r => test r s) rules1 = existsb (fun r => test r s) rules2) ->
  createFilteredPatch rules1 diff = createFilteredPatch rules2 diff.
Proof.
  intros H.
  assert (E : forall s, existsb (fun r => test r s) rules1 =
                        existsb (fun r => test r s) rules2).
  { destruct H as [H|H]; [|exact H]. intros s. now apply existsb_Permutation. }
  unfold createFilteredPatch, filterLines. now rewrite (shouldFilter_ext _ _ E).
Qed.

End FilterRuleOrder.

Lemma createFilteredPatch_keeps_counts_witness :
  FilterMore.count FilterMore.oldSide
    (PatchFilter.keptBody defaultFilterRegexes MoreSamples.firstBody) = 2 /\
  JS.parseInt "4" - PatchFilter.skippedCount defaultFilterRegexes MoreSamples.firstBody =
  FilterMore.count FilterMore.newSide
    (PatchFilter.keptBody defaultFilterRegexes MoreSamples.firstBody).
Proof.
  refine (let H := createFilteredPatch_keeps_counts defaultFilterRegexes MoreSamples.twoHunks
            MoreSamples.fileHeaders MoreSamples.firstHeader MoreSamples.firstBody
            MoreSamples.secondHunk
            {| Header.g1 := "1"; Header.g2 := "2"; Header.g3 := "1"; Header.g4 := "4" |}
            eq_refl eq_refl _ (or_intror (ex_intro _ _ (ex_intro _ _ (conj eq_refl eq_refl))))
            eq_refl _ in
          conj (proj1 (proj2 H)) (proj2 (proj2 H) eq_refl));
    repeat constructor.
Defined.

Lemma createFilteredPatch_rule_order_witness :
  PatchFilter.createFilteredPatch [compile consoleCallPattern; compile debuggerPattern]
    MoreSamples.twoHunks =
  PatchFilter.createFilteredPatch [compile debuggerPattern; compile consoleCallPattern]
    MoreSamples.twoHunks.
Proof.
  apply createFilteredPatch_rule_order. left. apply perm_swap.
Defined.

Section FilterIdempotent.

Import PatchFilter FilterMore.

Variable filterRegexes : list RegExp.

Lemma countAt_app (a b : string) : countAt (a ++ b) = (countAt a + countAt b)%nat.
Proof. induction a as [|c a IH]; cbn [append countAt]; [reflexivity | rewrite IH; lia]. Qed.

Lemma countAt_digits (s : string) : allDigits s = true -> countAt s = 0%nat.
Proof.
  induction s as [|c s IH]; [reflexivity|]. cbn [allDigits countAt].
  intros H. apply andb_true_iff in H as [Hc Hs]. rewrite (IH Hs).
  destruct (Ascii.eqb c "@") eqn:E; [|reflexivity].
  apply Ascii.eqb_eq in E. subst c. discriminate.
Qed.

Lemma countAt_toString (n : Z) : countAt (JS.toString n) = 0%nat.
Proof.
  unfold JS.toString. destruct (Z.to_int n); cbn [NilEmpty.string_of_int countAt];
    now rewrite (countAt_digits _ (string_of_uint_digits _)).
Qed.

Lemma countAt_formatHeader (a : Z) (b : string) (c n : Z) :
  allDigits b = true -> countAt (formatHeader a b c n) = 4%nat.
Proof.
  intros Hb. unfold formatHeader.
  rewrite !countAt_app, !countAt_toString, (countAt_digits b Hb). reflexivity.
Qed.

Lemma countAt_matched (t : string) (m : Header.groups) :
  Header.filterHeaderAt t = Some m -> (4 <= countAt t)%nat.
Proof.
  intros H. apply filterHeaderAt_inv in H as ((rest & ->) & _).
  rewrite !countAt_app. cbn. lia.
Qed.

(** A header written by the filter is matched at its start or nowhere. *)
Lemma filterHeaderMatch_formatHeader (a : Z) (b : string) (c n : Z) :
  allDigits b = true ->
  Header.filterHeaderMatch (formatHeader a b c n) =
  Header.filterHeaderAt (formatHeader a b c n).
Proof.
  intros Hb.
  destruct (Header.filterHeaderAt (formatHeader a b c n)) as [m|] eqn:E.
  - now apply firstMatch_here.
  - destruct (Header.filterHeaderMatch (formatHeader a b c n)) as [m|] eqn:E'; [|reflexivity].
    exfalso. apply firstMatch_inv in E' as (p & t & Ept & Ht).
    pose proof (countAt_matched t m Ht) as H4.
    pose proof (countAt_formatHeader a b c n Hb) as Hr.
    rewrite Ept, countAt_app in Hr.
    destruct p as [|x p].
    + change (EmptyString ++ t) with t in Ept. rewrite <- Ept in Ht. congruence.
    + unfold formatHeader in Ept. cbn in Ept. injection Ept as Ex _. subst x.
      cbn [countAt] in Hr. change (Ascii.eqb "@" "@") with true in Hr. cbv iota in Hr. lia.
Qed.

Lemma toString_negative (n : Z) :
  n < 0 -> exists d, JS.toString n = String "-" d.
Proof.
  intros H. destruct n as [|p|p]; try lia.
  unfold JS.toString. cbn. eexists. reflexivity.
Qed.

(** Rewriting a rewritten header changes nothing. *)
Lemma rewriteHeader_idem (h : string) (k : Z) :
  rewriteHeader (rewriteHeader h k) 0 = rewriteHeader h k.
Proof.
  destruct (Header.filterHeaderMatch h) as [m|] eqn:E.
  - destruct (filterHeaderMatch_groups h m E) as ((Ha & Ha') & (Hb & Hb') & (Hc & Hc') & _).
    set (a := JS.parseInt (Header.g1 m)). set (c := JS.parseInt (Header.g3 m)).
    set (n := JS.parseInt (Header.g4 m) - k).
    assert (Er : rewriteHeader h k = formatHeader a (Header.g2 m) c n)
      by (unfold rewriteHeader; now rewrite E).
    rewrite Er.
    assert (Hapos : 0 <= a) by apply parseInt_nonneg.
    assert (Hcpos : 0 <= c) by apply parseInt_nonneg.
    destruct (Z_lt_le_dec n 0) as [Hn|Hn].
    + unfold rewriteHeader.
      rewrite filterHeaderMatch_formatHeader by assumption.
      replace (Header.filterHeaderAt (formatHeader a (Header.g2 m) c n)) with (@None Header.groups);
        [reflexivity|].
      symmetry. destruct (toString_negative n Hn) as [d Ed].
      destruct (toString_digits a Hapos), (toString_digits c Hcpos).
      unfold formatHeader, Header.filterHeaderAt. rewrite Ed.
      rewrite eat_app. cbn [Header.bind].
      rewrite digits_app by (assumption || reflexivity). cbn [Header.bind].
      rewrite eat_app. cbn [Header.bind].
      rewrite digits_app by (assumption || reflexivity). cbn [Header.bind].
      rewrite eat_app. cbn [Header.bind].
      rewrite digits_app by (assumption || reflexivity). cbn [Header.bind].
      rewrite eat_app. reflexivity.
    + destruct (formatHeader_reparse a (Header.g2 m) c n Hapos Hb Hb' Hcpos Hn)
        as (m' & E' & E1 & E2 & E3 & E4).
      unfold rewriteHeader. rewrite E', E1, E2, E3, E4. now rewrite Z.sub_0_r.
  - assert (Er : rewriteHeader h k = h) by (unfold rewriteHeader; now rewrite E).
    rewrite Er. unfold rewriteHeader. now rewrite E.
Qed.

Lemma settled_header (h : string) (k : Z) :
  isHunkStart h = true -> FilterMore.settled filterRegexes (rewriteHeader h k).
Proof.
  intros Hh. pose proof (rewriteHeader_hunkStart h k Hh) as H.
  split; [now apply hunkStart_not_fileHeader|].
  split; [now apply hunkStart_not_dropped|].
  unfold canonicalLine. rewrite H. apply rewriteHeader_idem.
Qed.

Lemma settled_body (l : string) :
  isFileHeader l = false -> isHunkStart l = false -> dropped filterRegexes l = false ->
  FilterMore.settled filterRegexes l.
Proof.
  intros H1 H2 H3. repeat split; try assumption. unfold canonicalLine. now rewrite H2.
Qed.

Lemma keptBody_settled (l : string) :
  isFileHeader l = false -> isHunkStart l = false ->
  Forall (FilterMore.settled filterRegexes) (keptBody filterRegexes [l]).
Proof.
  intros H1 H2. unfold keptBody. cbn [filter]. rewrite H1. cbn [negb andb].
  destruct (dropped filterRegexes l) eqn:E; cbn [negb]; constructor;
    [now apply settled_body | constructor].
Qed.

Lemma flush_run_settled (t : list string) (h : string) (b : list string) (k : Z) :
  Forall (fun l => isFileHeader l = false) t ->
  isHunkStart h = true -> Forall (FilterMore.settled filterRegexes) b ->
  exists k' rest,
    flush (run filterRegexes t
      {| filteredLines := []; currentHunk := h :: b; skippedLines := k |}) =
    rewriteHeader h k' :: rest /\ Forall (FilterMore.settled filterRegexes) rest.
Proof.
  intros Ht. revert h b k. induction Ht as [|l t Hl _ IH]; intros h b k Hh Hb.
  - exists k, b. split; [reflexivity | exact Hb].
  - change (run filterRegexes (l :: t) ?st)
      with (run filterRegexes t (step filterRegexes st l)).
    destruct (isHunkStart l) eqn:Hs.
    + rewrite step_hunkStart by assumption.
      replace {| filteredLines := flush {| filteredLines := []; currentHunk := h :: b; skippedLines := k |};
                 currentHunk := [l]; skippedLines := 0 |}
        with (prepend (rewriteHeader h k :: b)
                {| filteredLines := []; currentHunk := [l]; skippedLines := 0 |})
        by (unfold prepend, flush; cbn; now rewrite app_nil_r).
      rewrite run_prepend, flush_prepend.
      destruct (IH l [] 0 Hs (Forall_nil _)) as (k' & rest & -> & Hrest).
      exists k, (b ++ rewriteHeader l k' :: rest)%list. split; [reflexivity|].
      apply Forall_app. split; [exact Hb|].
      constructor; [now apply settled_header | exact Hrest].
    + rewrite step_body by (assumption || discriminate).
      cbn [filteredLines currentHunk skippedLines List.app].
      rewrite (headersOf_none [l]) by (now constructor).
      apply IH; [exact Hh|].
      apply Forall_app. split; [exact Hb | now apply keptBody_settled].
Qed.

Lemma before_from_headers (H T : list string) :
  Forall (fun l => isFileHeader l = true) H ->
  T = [] \/ (exists h t, T = h :: t /\ isHunkStart h = true) ->
  beforeFirstHunk (H ++ T) = H /\ fromFirstHunk (H ++ T) = T.
Proof.
  intros HH HT. induction HH as [|l H Hl _ [IH1 IH2]].
  - cbn [List.app]. destruct HT as [-> | (h & t & -> & Hh)]; [now split|].
    cbn [beforeFirstHunk fromFirstHunk]. now rewrite Hh.
  - cbn [List.app beforeFirstHunk fromFirstHunk].
    assert (Hs : isHunkStart l = false).
    { destruct (isHunkStart l) eqn:E; [|reflexivity].
      apply hunkStart_not_fileHeader in E. congruence. }
    rewrite Hs, IH1, IH2. now split.
Qed.

Lemma headersOf_all (lines : list string) :
  Forall (fun l => isFileHeader l = true) (headersOf lines).
Proof.
  apply Forall_forall. intros l Hl. unfold headersOf in Hl.
  now apply filter_In in Hl as [_ Hl].
Qed.

(** The file headers met before the first hunk header come out first,
    then what the hunks give. *)
Lemma filterLines_split (lines : list string) :
  filterLines filterRegexes lines =
  (headersOf (beforeFirstHunk lines) ++
   match fromFirstHunk lines with
   | [] => []
   | h :: t =>
       flush (run filterRegexes t
                {| filteredLines := []; currentHunk := [h]; skippedLines := 0 |})
   end)%list.
Proof.
  unfold filterLines.
  rewrite (lines_before_from lines) at 1. rewrite run_app.
  rewrite (run_before filterRegexes (beforeFirstHunk lines))
    by (apply beforeFirstHunk_no_hunkStart || reflexivity).
  cbn [filteredLines skippedLines initial List.app].
  destruct (fromFirstHunk_shape lines) as [E | (h & t & E & Hs)]; rewrite E.
  - reflexivity.
  - change (run filterRegexes (h :: t) ?st)
      with (run filterRegexes t (step filterRegexes st h)).
    rewrite step_hunkStart by assumption.
    unfold flush at 2. cbn [filteredLines currentHunk skippedLines finalizeHunk].
    rewrite app_nil_r.
    replace {| filteredLines := headersOf (beforeFirstHunk lines);
               currentHunk := [h]; skippedLines := 0 |}
      with (prepend (headersOf (beforeFirstHunk lines))
              {| filteredLines := []; currentHunk := [h]; skippedLines := 0 |})
      by (unfold prepend; cbn; now rewrite app_nil_r).
    now rewrite run_prepend, flush_prepend.
Qed.

(** The shape of the output when no line after the first hunk header is
    taken for a file header. *)
Lemma filterLines_shape (lines : list string) :
  Forall (fun l => isFileHeader l = false) (fromFirstHunk lines) ->
  exists T,
    filterLines filterRegexes lines = (headersOf (beforeFirstHunk lines) ++ T)%list /\
    (T = [] \/ (exists h t, T = h :: t /\ isHunkStart h = true)) /\
    Forall (FilterMore.settled filterRegexes) T.
Proof.
  intros Hh. rewrite filterLines_split.
  destruct (fromFirstHunk_shape lines) as [E | (h & t & E & Hs)]; rewrite E in *.
  - exists []. split; [reflexivity | split; [now left | constructor]].
  - inversion Hh as [|? ? _ Ht]; subst.
    destruct (flush_run_settled t h [] 0 Ht Hs (Forall_nil _)) as (k' & rest & -> & Hrest).
    exists (rewriteHeader h k' :: rest). split; [reflexivity|]. split.
    + right. exists (rewriteHeader h k'), rest. split; [reflexivity|].
      now apply rewriteHeader_hunkStart.
    + constructor; [now apply settled_header | exact Hrest].
Qed.

Lemma filterLines_idem (lines : list string) :
  Forall (fun l => isFileHeader l = false) (fromFirstHunk lines) ->
  filterLines filterRegexes (filterLines filterRegexes lines) =
  filterLines filterRegexes lines.
Proof.
  intros Hh. destruct (filterLines_shape lines Hh) as (T & -> & HT & Hs).
  destruct (before_from_headers _ T (headersOf_all (beforeFirstHunk lines)) HT) as [E1 E2].
  rewrite filterLines_nothing_dropped; rewrite ?E1, ?E2.
  - unfold headersOf at 1. rewrite (filter_all _ _ (headersOf_all _)). f_equal.
    apply map_fixed. eapply Forall_impl; [|exact Hs]. intros l Hl. apply Hl.
  - eapply Forall_impl; [|exact Hs]. intros l Hl. apply Hl.
  - eapply Forall_impl; [|exact Hs]. intros l Hl. apply Hl.
Qed.

(** X5.  Filtering what was filtered changes nothing, for a diff in which
    no line after the first hunk header starts with [diff ], [index ],
    [--- ] or [+++ ], and in which the numbers read from the hunk
    headers and the number of lines are safe integers. *)
Theorem createFilteredPatch_idempotent (diff : string) :
  Forall (fun l => isFileHeader l = false) (fromFirstHunk (JS.split diff)) ->
  Forall (fun l => Safe.headerLine l = true) (hunkStarts (JS.split diff)) ->
  Safe.lineCount (JS.split diff) = true ->
  createFilteredPatch filterRegexes (createFilteredPatch filterRegexes diff) =
  createFilteredPatch filterRegexes diff.
Proof.
  intros Hh _ _. unfold createFilteredPatch at 1 2.
  destruct (filterLines filterRegexes (JS.split diff)) as [|l ls] eqn:E.
  - unfold createFilteredPatch. now rewrite E.
  - rewrite split_join;
      [|discriminate | rewrite <- E; apply filterLines_noLF, split_noLF].
    rewrite <- E, filterLines_idem by assumption.
    reflexivity.
Qed.

End FilterIdempotent.

Lemma createFilteredPatch_idempotent_witness :
  PatchFilter.createFilteredPatch defaultFilterRegexes
    (PatchFilter.createFilteredPatch defaultFilterRegexes MoreSamples.twoHunks) =
  PatchFilter.createFilteredPatch defaultFilterRegexes MoreSamples.twoHunks.
Proof.
  refine (createFilteredPatch_idempotent defaultFilterRegexes MoreSamples.twoHunks _ _ _).
  - match goal with |- Forall ?P ?l => let l' := eval vm_compute in l in change (Forall P l') end.
    repeat constructor.
  - match goal with |- Forall ?P ?l => let l' := eval vm_compute in l in change (Forall P l') end.
    repeat constructor.
  - vm_compute. reflexivity.
Defined.

(** ** Further properties of the diff structurer *)

Section StructurerEntries.

Import DiffStructurer StructurerMore.

Lemma entries_app (l1 l2 : list Hunk) : entries (l1 ++ l2) = (entries l1 ++ entries l2)%list.
Proof. apply flat_map_app. Qed.

Lemma entries_finish (st : state) : entries (finish st) = stateEntries st.
Proof.
  unfold finish, stateEntries. destruct (currentHunk st) as [h|]; [|now rewrite app_nil_r].
  destruct (lines h) eqn:E; [now rewrite app_nil_r|].
  rewrite entries_app. unfold entries at 2. cbn [flat_map]. now rewrite E, app_nil_r.
Qed.

(** One line, a hunk being open. *)
Lemma step_entries_open (st : state) (h : Hunk) (l : string) :
  currentHunk st = Some h ->
  (exists h', currentHunk (step st l) = Some h') /\
  map kindAndContent (stateEntries (step st l)) =
    (map kindAndContent (stateEntries st) ++
     map (fun l => (classify l, l)) (filter isEntryLine [l]))%list.
Proof.
  intros Hc.
  assert (Hpush : forall e n,
    isEntryLine l = true -> kindAndContent e = (classify l, l) ->
    (exists h', currentHunk {| doneHunks := doneHunks st;
                               currentHunk := Some (push h e);
                               currentLineNumber := n |} = Some h') /\
    map kindAndContent
      (stateEntries {| doneHunks := doneHunks st;
                       currentHunk := Some (push h e);
                       currentLineNumber := n |}) =
    (map kindAndContent (stateEntries st) ++
     map (fun l => (classify l, l)) (filter isEntryLine [l]))%list).
  { intros e n He Hk. split; [eexists; reflexivity|].
    unfold stateEntries, push. cbn [doneHunks currentHunk lines filter].
    rewrite Hc, He, app_assoc, map_app. cbn [map]. now rewrite Hk. }
  assert (Hskip : isEntryLine l = false ->
    map kindAndContent (stateEntries st) =
    (map kindAndContent (stateEntries st) ++
     map (fun l => (classify l, l)) (filter isEntryLine [l]))%list).
  { intros He. cbn [filter]. rewrite He. cbn [map]. now rewrite app_nil_r. }
  unfold step.
  destruct (isSkippedHeader l) eqn:Ek.
  { split; [now exists h|]. apply Hskip. unfold isEntryLine. now rewrite Ek. }
  destruct (JS.startsWith l "@@") eqn:Es.
  { split; [eexists; reflexivity|].
    rewrite <- Hskip by (unfold isEntryLine; now rewrite Es, andb_false_r).
    unfold stateEntries, pushCurrent. cbn [doneHunks currentHunk lines].
    rewrite Hc, entries_app. unfold entries at 2. cbn [flat_map].
    now rewrite !app_nil_r. }
  rewrite Hc.
  destruct (JS.startsWith l "+") eqn:Ep.
  { apply Hpush.
    - apply startsWith_inv in Ep as [r ->]. reflexivity.
    - unfold kindAndContent, classify. cbn [type content]. now rewrite Ep. }
  destruct (JS.startsWith l "-") eqn:Em.
  { apply Hpush.
    - apply startsWith_inv in Em as [r ->]. reflexivity.
    - unfold kindAndContent, classify. cbn [type content]. now rewrite Ep, Em. }
  destruct (JS.startsWith l "\") eqn:Eb; cbn [negb].
  - split; [exists h; exact Hc|]. apply Hskip.
    unfold isEntryLine. now rewrite Eb, andb_false_r.
  - apply Hpush.
    + unfold isEntryLine. now rewrite Ek, Es, Eb.
    + unfold kindAndContent, classify. cbn [type content]. now rewrite Ep, Em.
Qed.

Lemma run_entries_open (ls : list string) (st : state) (h : Hunk) :
  currentHunk st = Some h ->
  map kindAndContent (stateEntries (run ls st)) =
    (map kindAndContent (stateEntries st) ++
     map (fun l => (classify l, l)) (filter isEntryLine ls))%list.
Proof.
  revert st h. induction ls as [|l ls IH]; intros st h Hc.
  - cbn. now rewrite app_nil_r.
  - change (run (l :: ls) st) with (run ls (step st l)).
    destruct (step_entries_open st h l Hc) as [[h' Hc'] E].
    rewrite (IH _ h' Hc'), E, <- app_assoc, <- map_app, <- filter_app.
    reflexivity.
Qed.

Lemma run_entries_closed (ls : list string) (st : state) :
  currentHunk st = None ->
  map kindAndContent (stateEntries (run ls st)) =
    (map kindAndContent (stateEntries st) ++
     map (fun l => (classify l, l))
       (filter isEntryLine (PatchFilter.fromFirstHunk ls)))%list.
Proof.
  revert st. induction ls as [|l ls IH]; intros st Hc.
  - cbn. now rewrite app_nil_r.
  - change (run (l :: ls) st) with (run ls (step st l)).
    cbn [PatchFilter.fromFirstHunk]. unfold PatchFilter.isHunkStart.
    destruct (JS.startsWith l "@@") eqn:Es.
    + assert (Hk : isSkippedHeader l = false)
        by (apply startsWith_inv in Es as [r ->]; reflexivity).
      assert (E : step st l =
                  {| doneHunks := doneHunks st;
                     currentHunk := Some {| header := l; lines := [] |};
                     currentLineNumber := hunkStart l |}).
      { unfold step, pushCurrent. now rewrite Hk, Es, Hc. }
      rewrite E.
      rewrite (run_entries_open ls
                 {| doneHunks := doneHunks st;
                    currentHunk := Some {| header := l; lines := [] |};
                    currentLineNumber := hunkStart l |}
                 {| header := l; lines := [] |} eq_refl).
      unfold stateEntries at 1 2. cbn [doneHunks currentHunk lines]. rewrite Hc.
      cbn [filter]. unfold isEntryLine at 2. rewrite Es, andb_false_r. cbn [andb].
      reflexivity.
    + assert (E : step st l = st).
      { unfold step. rewrite Es, Hc. now destruct (isSkippedHeader l). }
      rewrite E. now apply IH.
Qed.

Lemma finish_run_entries (ls : list string) :
  map kindAndContent (entries (finish (run ls initial))) =
  map (fun l => (classify l, l)) (filter isEntryLine (PatchFilter.fromFirstHunk ls)).
Proof. rewrite entries_finish. now rewrite run_entries_closed. Qed.

(** X6.  Unless the segment is binary, the entries of the hunks returned,
    taken in order, are the lines of the segment that follow the first
    line starting with [@@], less the lines starting with [diff --git],
    [index ], [new file], [deleted file], [@@] or a backslash; each
    entry holds its line whole and is added, removed or context after
    the first character of the line. *)
Theorem parseDiff_entries (diff filePath : string) (type : Z) :
  isBinaryDiff diff = false ->
  map kindAndContent (entries (hunks (parseDiff diff filePath type))) =
  map (fun l => (classify l, l))
    (filter isEntryLine (PatchFilter.fromFirstHunk (JS.split diff))).
Proof.
  intros Hb. unfold parseDiff. rewrite Hb. cbn [hunks].
  apply finish_run_entries.
Qed.

End StructurerEntries.

Lemma parseDiff_entries_witness :
  map StructurerMore.kindAndContent
    (StructurerMore.entries (DiffStructurer.hunks (DiffStructurer.parseDiff Samples.segment "f.js" 1))) =
  [(DiffStructurer.context, " a"); (DiffStructurer.removed, "-b");
   (DiffStructurer.added, "+c"); (DiffStructurer.context, " d")].
Proof.
  exact (parseDiff_entries Samples.segment "f.js" 1 eq_refl).
Defined.

Section StructurerNumbers.

Import DiffStructurer StructurerMore.

Lemma advance_count (es : list DiffLine) (n : Z) :
  fold_left advance es n =
  n + Z.of_nat (List.length (filter (fun e => negb (isRemoved e)) es)).
Proof.
  revert n. induction es as [|e es IH]; intros n; cbn [fold_left filter].
  - cbn. lia.
  - rewrite IH. unfold advance, isRemoved.
    destruct (DiffStructurer.type e); cbn [negb List.length]; lia.
Qed.

Lemma numbered_nth (es : list DiffLine) (n : Z) (i : nat) (e : DiffLine) :
  numbered n es -> nth_error es i = Some e ->
  lineNumber e = fold_left advance (firstn i es) n.
Proof.
  revert n i. induction es as [|e0 es IH]; intros n i Hn Hi.
  - destruct i; discriminate.
  - destruct Hn as [H0 Hn]. destruct i as [|i]; cbn in Hi.
    + injection Hi as <-. exact H0.
    + cbn [firstn fold_left]. now apply IH.
Qed.

(** X7.  In a hunk whose counter stays among the safe integers, the
    number of an entry is the new start read from the header of
    its hunk plus the number of added and context entries before it in
    the hunk; it is never below the new start, and it is a safe
    integer. *)
Theorem parseDiff_line_number_closed_form
    (diff filePath : string) (type : Z) (h : Hunk) (i : nat) (e : DiffLine) :
  In h (hunks (parseDiff diff filePath type)) ->
  Safe.counter h = true ->
  nth_error (lines h) i = Some e ->
  lineNumber e =
    hunkStart (header h) +
    Z.of_nat (List.length (filter (fun e => negb (isRemoved e)) (firstn i (lines h)))) /\
  hunkStart (header h) <= lineNumber e /\
  Safe.isSafeInteger (lineNumber e) = true.
Proof.
  intros Hin Hsafe Hi.
  pose proof (parseDiff_wellNumbered diff filePath type) as Hall.
  rewrite Forall_forall in Hall. specialize (Hall h Hin).
  pose proof (numbered_safe h Hall Hsafe) as Hnum.
  rewrite Forall_forall in Hnum. specialize (Hnum e (nth_error_In _ _ Hi)).
  unfold wellNumbered in Hall.
  rewrite (numbered_nth _ _ _ _ Hall Hi), advance_count in *.
  split; [reflexivity | split; [lia | exact Hnum]].
Qed.

(** The headers of the hunks. *)
Lemma step_headers (st : state) (l : string) :
  stateHeaders (step st l) =
  (stateHeaders st ++ filter PatchFilter.isHunkStart [l])%list.
Proof.
  unfold step, PatchFilter.isHunkStart. cbn [filter].
  destruct (isSkippedHeader l) eqn:Ek.
  { assert (Es : JS.startsWith l "@@" = false).
    { destruct (JS.startsWith l "@@") eqn:Es; [|reflexivity].
      apply startsWith_inv in Es as [r ->]. discriminate. }
    now rewrite Es, app_nil_r. }
  destruct (JS.startsWith l "@@") eqn:Es.
  { unfold stateHeaders, pushCurrent. cbn [doneHunks currentHunk header].
    destruct (currentHunk st) as [h|]; [now rewrite map_app | now rewrite app_nil_r]. }
  rewrite app_nil_r. unfold stateHeaders.
  destruct (currentHunk st) as [h|] eqn:Ec; [|now rewrite Ec].
  destruct (JS.startsWith l "+"); [reflexivity|].
  destruct (JS.startsWith l "-"); [reflexivity|].
  destruct (negb (JS.startsWith l "\")); [reflexivity | now rewrite Ec].
Qed.

Lemma run_headers (ls : list string) (st : state) :
  stateHeaders (run ls st) = (stateHeaders st ++ FilterMore.hunkStarts ls)%list.
Proof.
  revert st. induction ls as [|l ls IH]; intros st.
  - cbn. now rewrite app_nil_r.
  - change (run (l :: ls) st) with (run ls (step st l)).
    rewrite IH, step_headers, <- app_assoc. unfold FilterMore.hunkStarts.
    now rewrite <- filter_app.
Qed.

(** The lines between two hunk headers fill the open hunk. *)
Lemma run_no_hunkStart (post : list string) (st : state) (h : Hunk) :
  currentHunk st = Some h ->
  Forall (fun l => PatchFilter.isHunkStart l = false) post ->
  exists h',
    currentHunk (run post st) = Some h' /\ header h' = header h /\
    doneHunks (run post st) = doneHunks st /\
    map kindAndContent (lines h') =
      (map kindAndContent (lines h) ++
       map (fun l => (classify l, l)) (filter isEntryLine post))%list.
Proof.
  intros Hc Hp. revert st h Hc.
  induction Hp as [|l post Hl _ IH]; intros st h Hc.
  - exists h. cbn. now rewrite app_nil_r.
  - change (run (l :: post) st) with (run post (step st l)).
    unfold PatchFilter.isHunkStart in Hl.
    assert (Hstep : exists h1,
      currentHunk (step st l) = Some h1 /\ header h1 = header h /\
      doneHunks (step st l) = doneHunks st /\
      map kindAndContent (lines h1) =
        (map kindAndContent (lines h) ++
         map (fun l => (classify l, l)) (filter isEntryLine [l]))%list).
    { destruct (step_entries_open st h l Hc) as [[h1 Hc1] E].
      exists h1. split; [exact Hc1|].
      assert (Hd : doneHunks (step st l) = doneHunks st /\ header h1 = header h).
      { revert Hc1. unfold step. rewrite Hl, Hc.
        destruct (isSkippedHeader l); [rewrite Hc; intros [= <-]; now split|].
        destruct (JS.startsWith l "+"); [intros [= <-]; now split|].
        destruct (JS.startsWith l "-"); [intros [= <-]; now split|].
        destruct (negb (JS.startsWith l "\")); [intros [= <-]; now split|].
        rewrite Hc. intros [= <-]. now split. }
      destruct Hd as [Hd Hh]. split; [exact Hh|]. split; [exact Hd|].
      unfold stateEntries in E. rewrite Hc1, Hc, Hd, !map_app, <- app_assoc in E.
      now apply app_inv_head in E. }
    destruct Hstep as (h1 & Hc1 & Hh1 & Hd1 & E1).
    destruct (IH _ h1 Hc1) as (h' & Hc' & Hh' & Hd' & E').
    exists h'. split; [exact Hc'|]. split; [congruence|]. split; [congruence|].
    rewrite E', E1, <- app_assoc, <- map_app, <- filter_app. reflexivity.
Qed.

(** X8.  Unless the segment is binary, the hunks returned come in the
    order of the lines starting with [@@], one for each and with that
    line for header, down to the last such line, which gives a hunk only
    when a line that becomes an entry follows it; without any line
    starting with [@@] no hunk is returned.  A hunk without entry is
    returned when another line starting with [@@] follows it. *)
Theorem parseDiff_hunk_headers (diff filePath : string) (type : Z) :
  isBinaryDiff diff = false ->
  (FilterMore.hunkStarts (JS.split diff) = [] ->
   hunks (parseDiff diff filePath type) = []) /\
  (forall pre l post,
     JS.split diff = (pre ++ l :: post)%list ->
     PatchFilter.isHunkStart l = true ->
     Forall (fun l => PatchFilter.isHunkStart l = false) post ->
     map header (hunks (parseDiff diff filePath type)) =
       (FilterMore.hunkStarts pre ++
        match filter isEntryLine post with
        | [] => []
        | _ :: _ => [l]
        end)%list).
Proof.
  intros Hb. unfold parseDiff. rewrite Hb. cbn [hunks]. split.
  - intros Hnone.
    pose proof (run_headers (JS.split diff) initial) as H.
    rewrite Hnone in H. unfold stateHeaders in H at 2. cbn in H.
    unfold stateHeaders in H. unfold finish.
    destruct (currentHunk (run (JS.split diff) initial)) as [h|].
    + destruct (map header (doneHunks (run (JS.split diff) initial))); discriminate.
    + rewrite app_nil_r in H. now apply map_eq_nil in H.
  - intros pre l post -> Hl Hpost.
    unfold run. rewrite fold_left_app. cbn [fold_left].
    fold (run pre initial). fold (run post (step (run pre initial) l)).
    assert (Hpre : stateHeaders (run pre initial) = FilterMore.hunkStarts pre)
      by (rewrite run_headers; reflexivity).
    assert (Hk : isSkippedHeader l = false).
    { pose proof Hl as Hl'. apply startsWith_inv in Hl' as [r ->]. reflexivity. }
    assert (Es : step (run pre initial) l =
                 {| doneHunks := pushCurrent (run pre initial);
                    currentHunk := Some {| header := l; lines := [] |};
                    currentLineNumber := hunkStart l |}).
    { unfold step. unfold PatchFilter.isHunkStart in Hl. now rewrite Hk, Hl. }
    assert (Hpc : map header (pushCurrent (run pre initial)) = FilterMore.hunkStarts pre).
    { rewrite <- Hpre. unfold pushCurrent, stateHeaders.
      destruct (currentHunk (run pre initial)); [now rewrite map_app | now rewrite app_nil_r]. }
    rewrite Es.
    destruct (run_no_hunkStart post
                {| doneHunks := pushCurrent (run pre initial);
                   currentHunk := Some {| header := l; lines := [] |};
                   currentLineNumber := hunkStart l |}
                {| header := l; lines := [] |} eq_refl Hpost)
      as (h' & Hc' & Hh' & Hd' & E').
    cbn [header lines doneHunks map List.app] in Hh', Hd', E'.
    unfold finish. rewrite Hc', Hd'.
    destruct (lines h') as [|e es] eqn:El.
    + cbn [map] in E'. symmetry in E'. apply map_eq_nil in E'. rewrite E'.
      now rewrite app_nil_r.
    + destruct (filter isEntryLine post) eqn:Ef; [discriminate|].
      rewrite map_app, Hpc. cbn [map]. now rewrite Hh'.
Qed.

End StructurerNumbers.

Lemma parseDiff_line_number_closed_form_witness :
  8 = DiffStructurer.hunkStart "@@ -4,3 +7,3 @@" + 1 /\
  DiffStructurer.hunkStart "@@ -4,3 +7,3 @@" <= 8 /\
  Safe.isSafeInteger 8 = true.
Proof.
  refine (parseDiff_line_number_closed_form Samples.segment "f.js" 1 Samples.segmentHunk 2
           {| DiffStructurer.type := DiffStructurer.added;
              DiffStructurer.content := "+c"; DiffStructurer.lineNumber := 8 |} _ eq_refl eq_refl).
  left. reflexivity.
Defined.

Lemma parseDiff_hunk_headers_witness :
  map DiffStructurer.header
    (DiffStructurer.hunks (DiffStructurer.parseDiff MoreSamples.twoHunks "f.js" 1)) =
  [MoreSamples.firstHeader; "@@ -10,3 +12,4 @@ function g() {"].
Proof.
  refine (proj2 (parseDiff_hunk_headers MoreSamples.twoHunks "f.js" 1 eq_refl)
            (MoreSamples.fileHeaders ++ MoreSamples.firstHeader :: MoreSamples.firstBody)%list
            "@@ -10,3 +12,4 @@ function g() {"
            (tl MoreSamples.secondHunk) eq_refl eq_refl _).
  match goal with |- Forall ?P ?l => let l' := eval vm_compute in l in change (Forall P l') end.
  repeat constructor.
Defined.

(** ** The review panel *)

Section EscapeHtml.

Import Webview.

Lemma replaceAll_app (c : ascii) (rep a b : string) :
  replaceAll c rep (a ++ b) = replaceAll c rep a ++ replaceAll c rep b.
Proof.
  induction a as [|x a IH]; cbn [append replaceAll]; [reflexivity|].
  destruct (Ascii.eqb x c); rewrite IH; [now rewrite append_assoc | reflexivity].
Qed.

Lemma escapeChars_app (a b : string) :
  escapeChars (a ++ b) = escapeChars a ++ escapeChars b.
Proof.
  induction a as [|x a IH]; cbn [append escapeChars]; [reflexivity|].
  now rewrite IH, append_assoc.
Qed.

(** The five replacements in a row come to one pass over the text. *)
Lemma escapeHtml_chars (s : string) : escapeHtml s = escapeChars s.
Proof.
  unfold escapeHtml. induction s as [|c s IH]; [reflexivity|].
  cbn [replaceAll escapeChars]. unfold escapeChar.
  destruct (Ascii.eqb c "&") eqn:E1.
  { rewrite !replaceAll_app, IH. reflexivity. }
  cbn [replaceAll]. destruct (Ascii.eqb c "<") eqn:E2.
  { rewrite !replaceAll_app, IH. reflexivity. }
  cbn [replaceAll]. destruct (Ascii.eqb c ">") eqn:E3.
  { rewrite !replaceAll_app, IH. reflexivity. }
  cbn [replaceAll]. destruct (Ascii.eqb c DQUOTE) eqn:E4.
  { rewrite !replaceAll_app, IH. reflexivity. }
  cbn [replaceAll]. destruct (Ascii.eqb c "'") eqn:E5.
  { now rewrite IH. }
  now rewrite IH.
Qed.

Lemma occurs_app (p : ascii -> bool) (a b : string) :
  occurs p (a ++ b) = occurs p a || occurs p b.
Proof.
  induction a as [|x a IH]; cbn [append occurs]; [reflexivity|].
  now rewrite IH, orb_assoc.
Qed.

Lemma escapeChar_no_markup (c : ascii) : occurs isMarkup (escapeChar c) = false.
Proof.
  unfold escapeChar.
  destruct (Ascii.eqb c "&"); [reflexivity|].
  destruct (Ascii.eqb c "<") eqn:E2; [reflexivity|].
  destruct (Ascii.eqb c ">") eqn:E3; [reflexivity|].
  destruct (Ascii.eqb c DQUOTE) eqn:E4; [reflexivity|].
  destruct (Ascii.eqb c "'") eqn:E5; [reflexivity|].
  cbn [occurs]. unfold isMarkup. now rewrite E2, E3, E4, E5.
Qed.

(** X9.  The text returned by [escapeHtml] holds none of the characters
    [<], [>], the double quote and the single quote, and it is the text
    given, each of these characters and each [&] being replaced by its
    entity at its place. *)
Theorem escapeHtml_no_markup (unsafe : string) :
  occurs isMarkup (escapeHtml unsafe) = false /\
  escapeHtml unsafe = escapeChars unsafe.
Proof.
  split; [|apply escapeHtml_chars].
  rewrite escapeHtml_chars.
  induction unsafe as [|c s IH]; [reflexivity|].
  cbn [escapeChars]. now rewrite occurs_app, escapeChar_no_markup, IH.
Qed.

Lemma escapeChar_cases (c : ascii) :
  (c = "&"%char /\ escapeChar c = "&amp;") \/
  (c = "<"%char /\ escapeChar c = "&lt;") \/
  (c = ">"%char /\ escapeChar c = "&gt;") \/
  (c = DQUOTE /\ escapeChar c = "&quot;") \/
  (c = "'"%char /\ escapeChar c = "&#039;") \/
  (c <> "&"%char /\ escapeChar c = String c EmptyString).
Proof.
  unfold escapeChar.
  destruct (Ascii.eqb c "&") eqn:E1; [apply Ascii.eqb_eq in E1; tauto|].
  destruct (Ascii.eqb c "<") eqn:E2; [apply Ascii.eqb_eq in E2; tauto|].
  destruct (Ascii.eqb c ">") eqn:E3; [apply Ascii.eqb_eq in E3; tauto|].
  destruct (Ascii.eqb c DQUOTE) eqn:E4; [apply Ascii.eqb_eq in E4; tauto|].
  destruct (Ascii.eqb c "'") eqn:E5; [apply Ascii.eqb_eq in E5; tauto|].
  apply Ascii.eqb_neq in E1. tauto.
Qed.

Lemma escapeChar_inj (c1 c2 : ascii) (r1 r2 : string) :
  escapeChar c1 ++ r1 = escapeChar c2 ++ r2 -> c1 = c2 /\ r1 = r2.
Proof.
  intros H.
  destruct (escapeChar_cases c1) as [[N1 E1]|[[N1 E1]|[[N1 E1]|[[N1 E1]|[[N1 E1]|[N1 E1]]]]]];
  destruct (escapeChar_cases c2) as [[N2 E2]|[[N2 E2]|[[N2 E2]|[[N2 E2]|[[N2 E2]|[N2 E2]]]]]];
  rewrite E1, E2 in H; cbn in H;
  injection H; intros; subst; try discriminate; try congruence; now split.
Qed.

(** X10.  [escapeHtml] loses nothing: two texts with the same escaped text
    are the same text. *)
Theorem escapeHtml_injective (a b : string) :
  escapeHtml a = escapeHtml b -> a = b.
Proof.
  rewrite !escapeHtml_chars. revert b.
  induction a as [|x a IH]; intros b H.
  - destruct b as [|y b]; [reflexivity|]. cbn [escapeChars] in H.
    destruct (escapeChar_cases y) as [[_ E]|[[_ E]|[[_ E]|[[_ E]|[[_ E]|[_ E]]]]]];
      rewrite E in H; discriminate.
  - destruct b as [|y b]; cbn [escapeChars] in H.
    + destruct (escapeChar_cases x) as [[_ E]|[[_ E]|[[_ E]|[[_ E]|[[_ E]|[_ E]]]]]];
        rewrite E in H; discriminate.
    + apply escapeChar_inj in H as [-> H]. f_equal. now apply IH.
Qed.

End EscapeHtml.

Lemma escapeHtml_injective_witness :
  "<a href='x'>" = "<a href=" ++ "'x'>".
Proof.
  apply escapeHtml_injective. reflexivity.
Defined.

Section DiffStats.

Import DiffStructurer StructurerMore Webview.

Variable minus : string.

Lemma countLine_fold (es : list DiffLine) (a d : Z) :
  fold_left countLine es (a, d) =
  (a + Z.of_nat (List.length (filter isAddedEntry es)),
   d + Z.of_nat (List.length (filter isRemoved es))).
Proof.
  revert a d. induction es as [|e es IH]; intros a d; cbn [fold_left filter].
  - cbn. f_equal; lia.
  - unfold countLine at 2. rewrite IH. unfold isAddedEntry, isRemoved.
    destruct (DiffStructurer.type e); cbn [List.length]; f_equal; lia.
Qed.

Lemma countLines_entries (hs : list Hunk) :
  countLines hs =
  (Z.of_nat (List.length (filter isAddedEntry (entries hs))),
   Z.of_nat (List.length (filter isRemoved (entries hs)))).
Proof.
  unfold countLines.
  assert (H : forall a d,
    fold_left (fun acc hunk => fold_left countLine (lines hunk) acc) hs (a, d) =
    (a + Z.of_nat (List.length (filter isAddedEntry (entries hs))),
     d + Z.of_nat (List.length (filter isRemoved (entries hs))))).
  { induction hs as [|h hs IH]; intros a d; cbn [fold_left].
    - cbn. f_equal; lia.
    - rewrite countLine_fold, IH. unfold entries. cbn [flat_map].
      rewrite !filter_app, !length_app. f_equal; lia. }
  rewrite H. f_equal.
Qed.

Lemma filter_kind_length (p : LineType -> bool) (es : list DiffLine) (ls : list string) :
  map kindAndContent es = map (fun l => (classify l, l)) ls ->
  List.length (filter (fun e => p (DiffStructurer.type e)) es) =
  List.length (filter (fun l => p (classify l)) ls).
Proof.
  revert ls. induction es as [|e es IH]; intros [|l ls] H; try discriminate; [reflexivity|].
  cbn [map] in H. injection H as Hk Hl Hrest. cbn [filter]. unfold kindAndContent in *.
  rewrite Hk. destruct (p (classify l)); cbn [List.length]; now rewrite (IH ls Hrest).
Qed.

Lemma classify_added (l : string) :
  match classify l with added => true | _ => false end = JS.startsWith l "+".
Proof. unfold classify. destruct (JS.startsWith l "+"); [reflexivity|]. now destruct (JS.startsWith l "-"). Qed.

Lemma classify_removed (l : string) :
  match classify l with removed => true | _ => false end =
  negb (JS.startsWith l "+") && JS.startsWith l "-".
Proof. unfold classify. destruct (JS.startsWith l "+"); [reflexivity|]. now destruct (JS.startsWith l "-"). Qed.

Lemma minus_not_plus (l : string) :
  negb (JS.startsWith l "+") && JS.startsWith l "-" = JS.startsWith l "-".
Proof.
  destruct (JS.startsWith l "-") eqn:E; [|apply andb_false_r].
  apply startsWith_inv in E as [r ->]. reflexivity.
Qed.

Lemma statsText_empty (a d : Z) :
  0 <= a -> 0 <= d -> (statsText minus a d = EmptyString <-> a = 0 /\ d = 0).
Proof.
  intros Ha Hd. unfold statsText.
  destruct (0 <? a) eqn:Ea; destruct (0 <? d) eqn:Ed;
    cbn [List.app joinWith];
    try apply Z.ltb_lt in Ea; try apply Z.ltb_lt in Ed;
    try apply Z.ltb_ge in Ea; try apply Z.ltb_ge in Ed.
  - split; [discriminate | lia].
  - split; [discriminate | lia].
  - destruct (toString_digits d Hd) as [_ Hne]. split; [|lia].
    intros H. apply append_eq_nil in H as [_ H]. contradiction.
  - split; [lia | reflexivity].
Qed.

(** X11.  The statistics shown for a segment count its lines as the
    structurer classifies them: nothing for a binary segment, and
    otherwise [+a] when [a] lines that become entries start with [+],
    then the sign and [d] when [d] of them start with [-], with a space
    between the two; the text is empty exactly when there is no such
    line. *)
Theorem getDiffStats_parseDiff (diff filePath : string) (type : Z) :
  let ls := filter isEntryLine (PatchFilter.fromFirstHunk (JS.split diff)) in
  let a := FilterMore.count (fun l => JS.startsWith l "+") ls in
  let d := FilterMore.count (fun l => JS.startsWith l "-") ls in
  getDiffStats minus (parseDiff diff filePath type) =
    (if isBinaryDiff diff then EmptyString else statsText minus a d) /\
  (statsText minus a d = EmptyString <-> a = 0 /\ d = 0).
Proof.
  intros ls a d. split.
  - unfold getDiffStats. rewrite countLines_entries.
    destruct (isBinaryDiff diff) eqn:Eb.
    + unfold parseDiff. rewrite Eb. reflexivity.
    + pose proof (finish_run_entries (JS.split diff)) as E. fold ls in E.
      unfold parseDiff. rewrite Eb. cbn [hunks].
      unfold a, d, FilterMore.count. f_equal; f_equal.
      * rewrite <- (filter_ext _ _ classify_added).
        apply (filter_kind_length (fun k => match k with added => true | _ => false end) _ _ E).
      * rewrite <- (filter_ext _ _ minus_not_plus), <- (filter_ext _ _ classify_removed).
        apply (filter_kind_length (fun k => match k with removed => true | _ => false end) _ _ E).
  - apply statsText_empty; unfold a, d, FilterMore.count; lia.
Qed.

End DiffStats.

(** ** The split of the staged diff *)

Section StagedSplit.

Import Staged.

Lemma append_nil_r (s : string) : s ++ "" = s.
Proof. induction s as [|c s IH]; [reflexivity|]. cbn [append]. now rewrite IH. Qed.

Lemma hasTerminator_app (a b : string) :
  hasTerminator (a ++ b) = hasTerminator a || hasTerminator b.
Proof.
  induction a as [|c a IH]; [reflexivity|].
  cbn [append hasTerminator]. rewrite IH. now rewrite orb_assoc.
Qed.

Lemma endsWithTerminator_has (s : string) :
  endsWithTerminator s = true -> hasTerminator s = true.
Proof.
  induction s as [|c s IH]; [discriminate|].
  cbn [endsWithTerminator hasTerminator]. destruct s as [|d s].
  - intros ->. reflexivity.
  - intros H. rewrite (IH H). apply orb_true_r.
Qed.

Lemma lazyUntilB_eq (s : string) :
  lazyUntilB s =
  match Header.eat " b/" s with
  | Some r => Some (EmptyString, r)
  | None =>
      match s with
      | EmptyString => None
      | String c s' =>
          if isLineTerminator c then None
          else match lazyUntilB s' with
               | Some (g, r) => Some (String c g, r)
               | None => None
               end
      end
  end.
Proof. destruct s; reflexivity. Qed.

Lemma lazyUntilB_spec (s g r : string) :
  lazyUntilB s = Some (g, r) -> s = g ++ " b/" ++ r /\ hasTerminator g = false.
Proof.
  revert g r. induction s as [|c s IH]; intros g r; rewrite lazyUntilB_eq.
  - cbn. discriminate.
  - destruct (Header.eat " b/" (String c s)) as [r0|] eqn:E.
    + intros [= <- <-]. apply eat_spec in E. now split.
    + destruct (isLineTerminator c) eqn:T; [discriminate|].
      destruct (lazyUntilB s) as [[g' r']|] eqn:L; [|discriminate].
      intros [= <- <-]. destruct (IH _ _ eq_refl) as [-> N]. split; [reflexivity|].
      cbn [hasTerminator]. now rewrite T, N.
Qed.

Lemma restOfLine_noTerminator (s : string) : hasTerminator (restOfLine s) = false.
Proof.
  induction s as [|c s IH]; [reflexivity|]. cbn [restOfLine].
  destruct (isLineTerminator c) eqn:T; [reflexivity|].
  cbn [hasTerminator]. now rewrite T, IH.
Qed.

Lemma diffStartAt_eq (s : string) :
  diffStartAt s =
  match Header.eat "diff --git a/" s with
  | Some s1 =>
      match lazyUntilB s1 with
      | Some (g1, s2) => Some (g1, restOfLine s2)
      | None => None
      end
  | None => None
  end.
Proof.
  unfold diffStartAt, Header.bind.
  destruct (Header.eat "diff --git a/" s); [|reflexivity].
  now destruct (lazyUntilB s0) as [[? ?]|].
Qed.

Lemma diffStartAt_spec (s g1 g2 : string) :
  diffStartAt s = Some (g1, g2) ->
  hasTerminator g1 = false /\ hasTerminator g2 = false /\
  exists r, s = "diff --git a/" ++ g1 ++ " b/" ++ r /\ g2 = restOfLine r.
Proof.
  rewrite diffStartAt_eq.
  destruct (Header.eat "diff --git a/" s) as [s1|] eqn:E; [|discriminate].
  destruct (lazyUntilB s1) as [[g r]|] eqn:L; [|discriminate].
  intros [= <- <-]. apply eat_spec in E. destruct (lazyUntilB_spec _ _ _ L) as [-> N].
  split; [exact N|]. split; [apply restOfLine_noTerminator|].
  exists r. now split.
Qed.

Lemma execFrom_eq (b : bool) (s : string) :
  execFrom b s =
  match lookahead b s with
  | Some m => Some m
  | None =>
      match s with
      | EmptyString => None
      | String c s' => execFrom (isLineTerminator c) s'
      end
  end.
Proof. destruct s; reflexivity. Qed.

Lemma execFrom_noTerminator (g : string) :
  hasTerminator g = false -> execFrom false g = None.
Proof.
  induction g as [|c g IH]; [reflexivity|].
  cbn [hasTerminator]. intros H. apply orb_false_elim in H as [T N].
  rewrite execFrom_eq. cbn [lookahead]. rewrite T. now apply IH.
Qed.

Lemma noTerminator_startOnly (g : string) :
  hasTerminator g = false -> startOnly g.
Proof.
  intros N m. unfold exec. rewrite execFrom_eq. cbn [lookahead].
  destruct (diffStartAt g) as [m'|]; [easy|].
  destruct g as [|c g]; [discriminate|].
  cbn [hasTerminator] in N. apply orb_false_elim in N as [T N].
  rewrite T, (execFrom_noTerminator g N). discriminate.
Qed.

(** A match stays a match when text is added after the string. *)

Lemma eat_none_app (l s rest : string) :
  Header.eat l s = None -> (String.length l <= String.length s)%nat ->
  Header.eat l (s ++ rest) = None.
Proof.
  revert s. induction l as [|a l IH]; intros s; [discriminate|].
  destruct s as [|b s]; cbn [Header.eat String.length append]; [lia|].
  destruct (Ascii.eqb a b); [|reflexivity].
  intros E Hl. apply IH; [exact E | lia].
Qed.

Lemma length_append (a b : string) :
  String.length (a ++ b) = (String.length a + String.length b)%nat.
Proof. induction a as [|c a IH]; [reflexivity|]. cbn [append String.length]. now rewrite IH. Qed.

Lemma lazyUntilB_app (s rest g r : string) :
  lazyUntilB s = Some (g, r) -> lazyUntilB (s ++ rest) = Some (g, r ++ rest).
Proof.
  revert g r. induction s as [|c s IH]; intros g r; rewrite lazyUntilB_eq.
  - cbn. discriminate.
  - destruct (Header.eat " b/" (String c s)) as [r0|] eqn:E.
    + intros [= <- <-]. apply eat_spec in E. rewrite E.
      rewrite lazyUntilB_eq.
      replace ((" b/" ++ r0) ++ rest) with (" b/" ++ (r0 ++ rest)) by reflexivity.
      now rewrite eat_app.
    + destruct (isLineTerminator c) eqn:T; [discriminate|].
      destruct (lazyUntilB s) as [[g' r']|] eqn:L; [|discriminate].
      intros [= <- <-]. rewrite lazyUntilB_eq.
      rewrite (eat_none_app _ _ rest E).
      * cbn [append]. rewrite T, (IH _ _ eq_refl). reflexivity.
      * destruct (lazyUntilB_spec _ _ _ L) as [-> _].
        cbn [String.length]. rewrite length_append. cbn [append String.length]. lia.
Qed.

Lemma diffStartAt_app_some (s rest g1 g2 : string) :
  diffStartAt s = Some (g1, g2) ->
  exists g2', diffStartAt (s ++ rest) = Some (g1, g2').
Proof.
  rewrite !diffStartAt_eq.
  destruct (Header.eat "diff --git a/" s) as [s1|] eqn:E; [|discriminate].
  destruct (lazyUntilB s1) as [[g r]|] eqn:L; [|discriminate].
  intros [= <- <-]. apply eat_spec in E. subst s.
  rewrite append_assoc, eat_app, (lazyUntilB_app _ rest _ _ L).
  now eexists.
Qed.

Lemma lookahead_app_none (b : bool) (s rest : string) :
  lookahead b (s ++ rest) = None -> lookahead b s = None.
Proof.
  destruct b; [|reflexivity]. cbn [lookahead]. intros H.
  destruct (diffStartAt s) as [[g1 g2]|] eqn:E; [|reflexivity].
  destruct (diffStartAt_app_some _ rest _ _ E) as [g2' E']. congruence.
Qed.

Lemma cut_eq (b : bool) (c : ascii) (s : string) :
  cut b (String c s) =
  match lookahead b (String c s) with
  | Some (g1, g2) =>
      (EmptyString, g1 :: g2 :: String c (fst (cut (isLineTerminator c) s))
                      :: snd (cut (isLineTerminator c) s))
  | None => (String c (fst (cut (isLineTerminator c) s)), snd (cut (isLineTerminator c) s))
  end.
Proof.
  cbn [cut]. destruct (cut (isLineTerminator c) s) as [piece more].
  destruct (lookahead b (String c s)) as [[g1 g2]|]; reflexivity.
Qed.

Lemma piece_startOnly (c : ascii) (piece : string) :
  execFrom (isLineTerminator c) piece = None -> startOnly (String c piece).
Proof.
  intros H m. unfold exec. rewrite execFrom_eq. cbn [lookahead].
  destruct (diffStartAt (String c piece)); [easy|]. rewrite H. discriminate.
Qed.

Lemma cut_startOnly (s : string) (b : bool) :
  (exists rest, s = fst (cut b s) ++ rest) /\
  execFrom b (fst (cut b s)) = None /\
  Forall startOnly (snd (cut b s)).
Proof.
  revert b. induction s as [|c s IH]; intros b.
  - cbn. split; [now exists ""|]. split; [now destruct b | constructor].
  - rewrite cut_eq. destruct (IH (isLineTerminator c)) as [[rest Hs] [Hp Hm]].
    destruct (lookahead b (String c s)) as [[g1 g2]|] eqn:E.
    + cbn [fst snd]. split; [now exists (String c s)|].
      split; [now destruct b|].
      assert (D : diffStartAt (String c s) = Some (g1, g2))
        by (destruct b; [exact E | discriminate]).
      destruct (diffStartAt_spec _ _ _ D) as [N1 [N2 _]].
      repeat constructor; auto using noTerminator_startOnly, piece_startOnly.
    + cbn [fst snd]. split; [exists rest; cbn [append]; now rewrite <- Hs|].
      split; [|exact Hm].
      rewrite execFrom_eq, Hp.
      rewrite Hs in E. change (lookahead b (String c (fst (cut (isLineTerminator c) s)) ++ rest) = None) in E.
      now rewrite (lookahead_app_none _ _ _ E).
Qed.

Lemma splitDiffs_startOnly (s : string) : Forall startOnly (splitDiffs s).
Proof.
  destruct s as [|c s].
  - repeat constructor. intros m. discriminate.
  - unfold splitDiffs. destruct (cut_startOnly s (isLineTerminator c)) as [_ [Hp Hm]].
    destruct (cut (isLineTerminator c) s) as [piece more]. cbn [fst snd] in *.
    constructor; [now apply piece_startOnly | exact Hm].
Qed.

(** X12.  Every file returned by [parseStagedDiffs] is the structure of an
    element of the split that starts with a [diff --git a/... b/...]
    line, under the path that this line gives after [ b/]. *)
Theorem parseStagedDiffs_sources (pathJoin : string -> string -> string)
    (workspaceRoot stagedDiff : string) (file : DiffStructurer.FileDiff) :
  In file (parseStagedDiffs pathJoin workspaceRoot stagedDiff) ->
  exists fileDiff g1 g2,
    In fileDiff (splitDiffs stagedDiff) /\
    notBlank fileDiff = true /\
    diffStartAt fileDiff = Some (g1, g2) /\
    file = DiffStructurer.structureSegment fileDiff (pathJoin workspaceRoot g2).
Proof.
  unfold parseStagedDiffs. destruct (String.eqb stagedDiff ""); [intros []|].
  intros H. apply in_flat_map in H as [fileDiff [Hin H]].
  apply filter_In in Hin as [Hin Hb]. unfold stagedFile in H.
  destruct (exec fileDiff) as [[g1 g2]|] eqn:E; [|destruct H].
  destruct H as [<-|[]].
  pose proof (splitDiffs_startOnly stagedDiff) as F.
  rewrite Forall_forall in F. specialize (F _ Hin _ E).
  now exists fileDiff, g1, g2.
Qed.

End StagedSplit.

Lemma parseStagedDiffs_sources_witness :
  exists fileDiff g1 g2,
    In fileDiff (Staged.splitDiffs MoreSamples.stagedDiff) /\
    Staged.notBlank fileDiff = true /\
    Staged.diffStartAt fileDiff = Some (g1, g2) /\
    DiffStructurer.structureSegment MoreSamples.newFile "/w/dir/y b.js" =
    DiffStructurer.structureSegment fileDiff (MoreSamples.pathJoin "/w" g2).
Proof.
  apply (parseStagedDiffs_sources MoreSamples.pathJoin "/w" MoreSamples.stagedDiff).
  right. left. reflexivity.
Defined.

(** ** The staged diff of well-formed segments *)

Section StagedSegments.

Import Staged.

Lemma concat_cons (seg : string) (segs : list string) :
  String.concat "" (seg :: segs) = seg ++ String.concat "" segs.
Proof. destruct segs; cbn [String.concat append]; [now rewrite append_nil_r | reflexivity]. Qed.

Lemma eat_none_terminator (l s rest : string) :
  Header.eat l s = None -> hasTerminator l = false -> hasTerminator s = true ->
  Header.eat l (s ++ rest) = None.
Proof.
  revert s. induction l as [|a l IH]; intros s; [discriminate|].
  destruct s as [|b s]; [discriminate|].
  cbn [Header.eat hasTerminator append].
  destruct (Ascii.eqb a b) eqn:E; [|reflexivity].
  apply Ascii.eqb_eq in E. subst b. intros H Hl Hs.
  apply orb_false_elim in Hl as [Ha Hl]. rewrite Ha in Hs. now apply IH.
Qed.

Lemma lazyUntilB_none_app (s rest : string) :
  lazyUntilB s = None -> hasTerminator s = true -> lazyUntilB (s ++ rest) = None.
Proof.
  induction s as [|c s IH]; [discriminate|].
  rewrite (lazyUntilB_eq (String c s)), (lazyUntilB_eq (String c s ++ rest)).
  destruct (Header.eat " b/" (String c s)) as [r0|] eqn:E; [discriminate|].
  intros H Hs. rewrite (eat_none_terminator _ _ rest E eq_refl Hs).
  cbn [append]. destruct (isLineTerminator c) eqn:T; [reflexivity|].
  cbn [hasTerminator] in Hs. rewrite T in Hs.
  destruct (lazyUntilB s) as [[g r]|]; [discriminate|].
  now rewrite IH.
Qed.

Lemma restOfLine_app (s rest : string) :
  hasTerminator s = true -> restOfLine (s ++ rest) = restOfLine s.
Proof.
  induction s as [|c s IH]; [discriminate|].
  cbn [hasTerminator append restOfLine].
  destruct (isLineTerminator c); [reflexivity|].
  intros H. now rewrite IH.
Qed.

Lemma diffStartAt_app (s rest : string) :
  hasTerminator s = true -> diffStartAt (s ++ rest) = diffStartAt s.
Proof.
  intros Hs. rewrite !diffStartAt_eq.
  destruct (Header.eat "diff --git a/" s) as [s1|] eqn:E.
  - apply eat_spec in E. subst s. rewrite append_assoc, eat_app.
    rewrite hasTerminator_app in Hs. cbn in Hs.
    destruct (lazyUntilB s1) as [[g r]|] eqn:L.
    + rewrite (lazyUntilB_app _ rest _ _ L).
      destruct (lazyUntilB_spec _ _ _ L) as [-> N].
      rewrite hasTerminator_app, N, hasTerminator_app in Hs. cbn in Hs.
      now rewrite restOfLine_app.
    + now rewrite lazyUntilB_none_app.
  - now rewrite eat_none_terminator.
Qed.

Lemma lookahead_app (b : bool) (s rest : string) :
  rest = "" \/ hasTerminator s = true -> lookahead b (s ++ rest) = lookahead b s.
Proof.
  intros [->|H]; [now rewrite append_nil_r|].
  destruct b; [|reflexivity]. now apply diffStartAt_app.
Qed.

(** A piece without a match, followed by text that is cut at its start. *)
Lemma cut_piece (rest : string) (more : list string) :
  (forall b, rest = "" \/ b = true -> cut b rest = ("", more)) ->
  forall u b,
    execFrom b u = None ->
    rest = "" \/ match u with "" => b = true | _ => endsWithTerminator u = true end ->
    cut b (u ++ rest) = (u, more).
Proof.
  intros Hrest. induction u as [|c u IH]; intros b Hu Hend.
  - cbn [append]. apply Hrest. exact Hend.
  - cbn [append]. rewrite cut_eq.
    rewrite execFrom_eq in Hu.
    destruct (lookahead b (String c u)) eqn:L; [discriminate|].
    change (String c (u ++ rest)) with (String c u ++ rest).
    rewrite lookahead_app, L.
    + rewrite IH; [reflexivity | exact Hu |].
      destruct Hend as [->|He]; [now left|]. right.
      destruct u as [|d u]; [|exact He].
      cbn in He. exact He.
    + destruct Hend as [->|He]; [now left|]. right.
      now apply endsWithTerminator_has.
Qed.

Lemma segment_nonempty (seg : string) :
  isFileSegment seg -> exists c t, seg = String c t.
Proof.
  intros [H _]. destruct seg as [|c t]; [now destruct H | now exists c, t].
Qed.

Lemma cut_segments (segs : list string) :
  Forall isFileSegment segs ->
  forall b, String.concat "" segs = "" \/ b = true ->
    cut b (String.concat "" segs) = ("", elements segs).
Proof.
  induction 1 as [|seg segs Hseg Hsegs IH]; intros b Hb.
  - reflexivity.
  - rewrite concat_cons in *.
    destruct (segment_nonempty _ Hseg) as [c [t ->]].
    destruct Hb as [Hb | ->]; [discriminate|].
    destruct Hseg as [Hd [Hi [He Hp]]].
    cbn [append]. rewrite cut_eq.
    change (String c (t ++ String.concat "" segs)) with (String c t ++ String.concat "" segs).
    rewrite lookahead_app by (right; now apply endsWithTerminator_has).
    cbn [lookahead].
    rewrite execFrom_eq in Hi. cbn [lookahead] in Hi.
    rewrite (cut_piece _ _ IH t (isLineTerminator c) Hi).
    + unfold elements. cbn [flat_map fst snd].
      destruct (diffStartAt (String c t)) as [[g1 g2]|]; [reflexivity | now destruct Hd].
    + right. destruct t as [|d t]; [exact He | exact He].
Qed.

Lemma splitDiffs_segments (seg : string) (segs : list string) :
  Forall isFileSegment (seg :: segs) ->
  splitDiffs (String.concat "" (seg :: segs)) = seg :: elements segs.
Proof.
  intros H. inversion H as [|? ? Hseg Hsegs]; subst.
  rewrite concat_cons. destruct (segment_nonempty _ Hseg) as [c [t ->]].
  destruct Hseg as [Hd [Hi [He Hp]]].
  cbn [append]. unfold splitDiffs.
  rewrite execFrom_eq in Hi. cbn [lookahead] in Hi.
  rewrite (cut_piece _ _ (cut_segments segs Hsegs) t (isLineTerminator c) Hi);
    [reflexivity|].
  right. destruct t as [|d t]; exact He.
Qed.

(** The shortest run before [ b/] does not contain [ b/]. *)
Lemma lazyUntilB_shortest (s g r : string) :
  lazyUntilB s = Some (g, r) -> forall p q, g <> p ++ " b/" ++ q.
Proof.
  revert g r. induction s as [|c s IH]; intros g r; rewrite lazyUntilB_eq.
  - cbn. discriminate.
  - destruct (Header.eat " b/" (String c s)) as [r0|] eqn:E.
    + intros [= <- <-] p q. destruct p; discriminate.
    + destruct (isLineTerminator c); [discriminate|].
      destruct (lazyUntilB s) as [[g' r']|] eqn:L; [|discriminate].
      intros [= <- <-] p q Hg.
      destruct (lazyUntilB_spec _ _ _ L) as [Hs _].
      destruct p as [|a p].
      * cbn [append] in Hg. injection Hg as -> ->.
        rewrite Hs in E. cbn in E. discriminate.
      * cbn [append] in Hg. injection Hg as _ Hg. exact (IH _ _ eq_refl _ _ Hg).
Qed.

Lemma exec_group1 (s g1 g2 : string) :
  diffStartAt s = Some (g1, g2) -> exec g1 = None.
Proof.
  intros D. destruct (diffStartAt_spec _ _ _ D) as [N1 _].
  destruct (exec g1) as [m|] eqn:E; [|reflexivity].
  apply (noTerminator_startOnly _ N1) in E.
  destruct m as [h1 h2]. apply diffStartAt_spec in E as [_ [_ [r [Eg _]]]].
  rewrite diffStartAt_eq in D.
  destruct (Header.eat "diff --git a/" s) as [s1|]; [|discriminate].
  destruct (lazyUntilB s1) as [[g r']|] eqn:L; [|discriminate].
  injection D as -> _.
  exfalso. apply (lazyUntilB_shortest _ _ _ L ("diff --git a/" ++ h1) r).
  rewrite Eg. now rewrite append_assoc.
Qed.

Lemma trimEnd_nonempty (c : ascii) (s : string) :
  JS.isWhiteSpace c = false -> JS.trimEnd (String c s) <> "".
Proof.
  intros W. cbn [JS.trimEnd]. destruct (JS.trimEnd s); [rewrite W|]; discriminate.
Qed.

Lemma segment_notBlank (seg : string) :
  diffStartAt seg <> None -> notBlank seg = true.
Proof.
  intros H. destruct (diffStartAt seg) as [[g1 g2]|] eqn:D; [|now destruct H].
  apply diffStartAt_spec in D as [_ [_ [r [-> _]]]].
  unfold notBlank, JS.trim. cbn [append JS.trimStart].
  change (JS.isWhiteSpace "d") with false. cbv iota.
  apply negb_true_iff, String.eqb_neq, trimEnd_nonempty. reflexivity.
Qed.

Section Files.

Variable pathJoin : string -> string -> string.
Variable workspaceRoot : string.

Lemma file_segment (seg : string) :
  isFileSegment seg ->
  flat_map (stagedFile pathJoin workspaceRoot) (filter notBlank [seg]) =
  [DiffStructurer.structureSegment seg (pathJoin workspaceRoot (bPath seg))].
Proof.
  intros [Hd _]. cbn [filter]. rewrite (segment_notBlank _ Hd). cbn [flat_map List.app].
  unfold stagedFile, exec, bPath. rewrite execFrom_eq. cbn [lookahead].
  destruct (diffStartAt seg) as [[g1 g2]|]; [reflexivity | now destruct Hd].
Qed.

Lemma file_none (x : string) :
  exec x = None -> flat_map (stagedFile pathJoin workspaceRoot) (filter notBlank [x]) = [].
Proof.
  intros E. cbn [filter]. destruct (notBlank x); [|reflexivity].
  cbn [flat_map List.app]. unfold stagedFile. now rewrite E.
Qed.

Lemma files_app (xs ys : list string) :
  flat_map (stagedFile pathJoin workspaceRoot) (filter notBlank (xs ++ ys)) =
  (flat_map (stagedFile pathJoin workspaceRoot) (filter notBlank xs) ++ flat_map (stagedFile pathJoin workspaceRoot) (filter notBlank ys))%list.
Proof. now rewrite filter_app, flat_map_app. Qed.

Lemma files_elements (segs : list string) :
  Forall isFileSegment segs ->
  flat_map (stagedFile pathJoin workspaceRoot) (filter notBlank (elements segs)) =
  map (fun seg => DiffStructurer.structureSegment seg (pathJoin workspaceRoot (bPath seg))) segs.
Proof.
  induction 1 as [|seg segs Hseg Hsegs IH]; [reflexivity|].
  unfold elements. cbn [flat_map]. fold (elements segs).
  rewrite files_app, IH. cbn [map].
  pose proof Hseg as [Hd [_ [_ Hp]]].
  destruct (diffStartAt seg) as [[g1 g2]|] eqn:D; [|now destruct Hd].
  change [g1; g2; seg] with ([g1] ++ [g2] ++ [seg])%list.
  rewrite !files_app, (file_segment _ Hseg).
  rewrite (file_none g1 (exec_group1 _ _ _ D)).
  unfold bPath in Hp. rewrite D in Hp. rewrite (file_none g2 Hp).
  reflexivity.
Qed.

(** X13.  On the diffs of several files, each starting with its
    [diff --git a/... b/...] line, put one after the other,
    [parseStagedDiffs] returns one structure per file, in their order,
    each under the path of its first line. *)
Theorem parseStagedDiffs_segments (segs : list string) :
  Forall isFileSegment segs ->
  parseStagedDiffs pathJoin workspaceRoot (String.concat "" segs) =
  map (fun seg => DiffStructurer.structureSegment seg (pathJoin workspaceRoot (bPath seg))) segs.
Proof.
  intros H. destruct segs as [|seg segs]; [reflexivity|].
  unfold parseStagedDiffs.
  rewrite (splitDiffs_segments _ _ H).
  inversion H as [|? ? Hseg Hsegs]; subst.
  destruct (segment_nonempty _ Hseg) as [c [t ->]].
  rewrite concat_cons. cbn [append String.eqb].
  change (String c t :: elements segs) with ([String c t] ++ elements segs)%list.
  rewrite files_app, (file_segment _ Hseg), (files_elements _ Hsegs).
  reflexivity.
Qed.

End Files.

End StagedSegments.

Lemma parseStagedDiffs_segments_witness :
  Staged.parseStagedDiffs MoreSamples.pathJoin "/w" MoreSamples.stagedDiff =
  [DiffStructurer.structureSegment MoreSamples.changedFile "/w/x.js";
   DiffStructurer.structureSegment MoreSamples.newFile "/w/dir/y b.js"].
Proof.
  refine (parseStagedDiffs_segments MoreSamples.pathJoin "/w"
            [MoreSamples.changedFile; MoreSamples.newFile] _).
  repeat constructor; discriminate.
Defined.

(** ** The earlier filter and the first default pattern *)

Section LegacyFilter.

Import Regex.

Lemma startsWith_prefix (p r : string) : JS.startsWith (p ++ r) p = true.
Proof.
  induction p as [|c p IH]; [reflexivity|].
  cbn [append JS.startsWith]. now rewrite Ascii.eqb_refl.
Qed.

Lemma trimStart_head (s : string) :
  JS.trimStart s = "" \/
  exists c r, JS.trimStart s = String c r /\ JS.isWhiteSpace c = false.
Proof.
  induction s as [|c s IH]; [now left|].
  cbn [JS.trimStart]. destruct (JS.isWhiteSpace c) eqn:W; [exact IH|].
  right. now exists c, s.
Qed.

Lemma trim_head (s : string) :
  JS.trim s = "" \/ exists c r, JS.trim s = String c r /\ JS.isWhiteSpace c = false.
Proof.
  unfold JS.trim. destruct (trimStart_head s) as [-> | [c [r [-> W]]]]; [now left|].
  right. cbn [JS.trimEnd]. rewrite W.
  destruct (JS.trimEnd r) as [|d t]; [now exists c, "" | now exists c, (String d t)].
Qed.

Lemma lang_consoleCall (p : string) :
  lang (Seq (lit "console.")
          (Seq (Alt (lit "log") (Alt (lit "error") (lit "warn"))) (Chr "("))) p <->
  p = "console.log(" \/ p = "console.error(" \/ p = "console.warn(".
Proof.
  split.
  - intros H. apply lang_seq_inv in H as [s1 [s2 [-> [H1 H2]]]].
    apply lang_lit in H1 as ->.
    apply lang_seq_inv in H2 as [s3 [s4 [-> [H3 H4]]]].
    apply lang_chr_inv in H4 as ->.
    apply lang_alt_inv in H3 as [H3|H3]; [apply lang_lit in H3 as ->; now left|].
    apply lang_alt_inv in H3 as [H3|H3]; apply lang_lit in H3 as ->; auto.
  - intros [-> | [-> | ->]].
    + apply (lang_seq _ _ "console." "log("); [now apply lang_lit|].
      apply (lang_seq _ _ "log" "("); [|constructor].
      apply lang_alt_l. now apply lang_lit.
    + apply (lang_seq _ _ "console." "error("); [now apply lang_lit|].
      apply (lang_seq _ _ "error" "("); [|constructor].
      apply lang_alt_r, lang_alt_l. now apply lang_lit.
    + apply (lang_seq _ _ "console." "warn("); [now apply lang_lit|].
      apply (lang_seq _ _ "warn" "("); [|constructor].
      apply lang_alt_r, lang_alt_r. now apply lang_lit.
Qed.

(** On a text without white space in front, [^\s*console\.(log|error|warn)\(]
    tests whether the text starts with one of the three calls. *)
Lemma consoleCallPattern_trimmed (t : string) :
  t = "" \/ (exists c r, t = String c r /\ JS.isWhiteSpace c = false) ->
  test (compile consoleCallPattern) t = Legacy.isConsoleCall t.
Proof.
  intros Ht. apply bool_eq_iff. cbn [test compile]. unfold run.
  cbn [anchored body consoleCallPattern]. rewrite matchesAt_lang.
  unfold Legacy.isConsoleCall. rewrite !orb_true_iff. split.
  - intros [p [q [-> H]]].
    apply lang_seq_inv in H as [w [x [-> [Hw Hx]]]].
    assert (w = "") as ->.
    { destruct w as [|a w]; [reflexivity|]. exfalso.
      apply lang_star_inv in Hw as [s1 [s2 [_ [Ha _]]]].
      apply lang_cls_inv in Ha as [a' [Ea Wa]]. injection Ea as -> _.
      destruct Ht as [Ht | [c [r [Ht Wc]]]]; [discriminate|].
      cbn [append] in Ht. injection Ht as -> _. congruence. }
    cbn [append]. apply lang_consoleCall in Hx as [-> | [-> | ->]].
    + left. left. apply startsWith_prefix.
    + left. right. apply startsWith_prefix.
    + right. apply startsWith_prefix.
  - intros H.
    assert (exists p q, t = p ++ q /\
              (p = "console.log(" \/ p = "console.error(" \/ p = "console.warn("))
      as [p [q [-> Hp]]].
    { destruct H as [[H|H]|H]; apply startsWith_inv in H as [r ->]; eauto 6. }
    exists p, q. split; [reflexivity|].
    apply (lang_seq _ _ "" p); [constructor | now apply lang_consoleCall].
Qed.

Lemma legacy_filterStep (st : PatchFilter.state) (line : string) :
  Legacy.filterStep st line = PatchFilter.step [compile consoleCallPattern] st line.
Proof.
  unfold Legacy.filterStep, PatchFilter.step, PatchFilter.shouldFilter.
  cbn [existsb]. rewrite orb_false_r.
  now rewrite (consoleCallPattern_trimmed _ (trim_head (JS.substring1 line))).
Qed.

Lemma fold_left_ext {A B : Type} (f g : A -> B -> A) (l : list B) (a : A) :
  (forall a b, f a b = g a b) -> fold_left f l a = fold_left g l a.
Proof.
  intros H. revert a. induction l as [|b l IH]; intros a; [reflexivity|].
  cbn [fold_left]. now rewrite H, IH.
Qed.

(** X14.  The earlier [createFilteredPatch], which tested the added lines
    with [startsWith], is the present one run with the first default
    pattern alone. *)
Theorem legacy_createFilteredPatch (diff : string) :
  Legacy.createFilteredPatch diff =
  PatchFilter.createFilteredPatch [compile consoleCallPattern] diff.
Proof.
  unfold Legacy.createFilteredPatch, PatchFilter.createFilteredPatch,
    PatchFilter.filterLines, PatchFilter.run.
  now rewrite (fold_left_ext _ _ _ _ legacy_filterStep).
Qed.

End LegacyFilter.

(** ** The earlier structurer *)

Section LegacyStructurer.

Import DiffStructurer.

Lemma hunkStart_noHeaderLine (l : string) :
  JS.startsWith l "@@" = true ->
  Legacy.isHeaderLine l = false /\ isSkippedHeader l = false.
Proof.
  intros H. apply startsWith_inv in H as [r ->]. now split.
Qed.

Lemma related_pushCurrent (old new : state) :
  Legacy.related old new ->
  pushCurrent old = map Legacy.withoutMarkers (pushCurrent new).
Proof.
  intros [Hd [Hc _]]. unfold pushCurrent. rewrite Hc, Hd.
  destruct (currentHunk new); cbn [option_map]; [|reflexivity].
  now rewrite map_app.
Qed.

Lemma withoutMarkers_push (h : Hunk) (e : DiffLine) :
  Legacy.withoutMarkers (push h e) =
  push (Legacy.withoutMarkers h) (Legacy.withoutMarker e).
Proof. unfold Legacy.withoutMarkers, push. cbn [header lines]. now rewrite map_app. Qed.

Lemma related_step_hunkStart (old new : state) (l : string) :
  Legacy.related old new -> JS.startsWith l "@@" = true ->
  Legacy.related (Legacy.parseStep old l) (step new l).
Proof.
  intros R H. destruct (hunkStart_noHeaderLine l H) as [H1 H2].
  unfold Legacy.parseStep, step. rewrite H1, H2, H.
  split; [|now split]. cbn [doneHunks]. now apply related_pushCurrent.
Qed.

Lemma related_step_closed (old new : state) (l : string) :
  Legacy.related old new -> currentHunk new = None -> JS.startsWith l "@@" = false ->
  Legacy.parseStep old l = old /\ step new l = new.
Proof.
  intros [_ [Hc _]] N H. rewrite N in Hc. cbn in Hc.
  unfold Legacy.parseStep, step. rewrite H, Hc, N.
  now destruct (Legacy.isHeaderLine l), (isSkippedHeader l).
Qed.

Lemma related_step_open (old new : state) (l : string) :
  Legacy.related old new -> Legacy.noHeaderLine l = true ->
  Legacy.related (Legacy.parseStep old l) (step new l).
Proof.
  intros R H. destruct (JS.startsWith l "@@") eqn:S; [now apply related_step_hunkStart|].
  unfold Legacy.noHeaderLine in H. apply andb_true_iff in H as [H1 H2].
  apply negb_true_iff in H1, H2.
  destruct R as [Hd [Hc Hn]].
  unfold Legacy.parseStep, step. rewrite H1, H2, S, Hc, Hn.
  destruct (currentHunk new) as [h|] eqn:E; cbn [option_map].
  - destruct (JS.startsWith l "+"); [|destruct (JS.startsWith l "-");
      [|destruct (negb (JS.startsWith l "\"))]];
      unfold Legacy.related; cbn [doneHunks currentHunk currentLineNumber option_map];
      rewrite ?withoutMarkers_push, ?E; cbn [option_map]; auto.
  - unfold Legacy.related. rewrite E. auto.
Qed.

Lemma step_stays_open (new : state) (l : string) :
  currentHunk new <> None -> currentHunk (step new l) <> None.
Proof.
  intros H. unfold step.
  destruct (isSkippedHeader l); [exact H|].
  destruct (JS.startsWith l "@@"); [discriminate|].
  destruct (currentHunk new) as [h|] eqn:E; [|now destruct H].
  destruct (JS.startsWith l "+"); [discriminate|].
  destruct (JS.startsWith l "-"); [discriminate|].
  destruct (negb (JS.startsWith l "\")); [discriminate|]. now rewrite E.
Qed.

Lemma related_run_open (ls : list string) (old new : state) :
  Legacy.related old new -> currentHunk new <> None ->
  Forall (fun l => Legacy.noHeaderLine l = true) ls ->
  Legacy.related (fold_left Legacy.parseStep ls old) (run ls new).
Proof.
  revert old new. induction ls as [|l ls IH]; intros old new R N F; [exact R|].
  inversion F as [|? ? Hl Hls]; subst. cbn [fold_left run].
  apply IH; [now apply related_step_open | now apply step_stays_open | exact Hls].
Qed.

Lemma related_run (ls : list string) (old new : state) :
  Legacy.related old new -> currentHunk new = None ->
  Forall (fun l => Legacy.noHeaderLine l = true) (PatchFilter.fromFirstHunk ls) ->
  Legacy.related (fold_left Legacy.parseStep ls old) (run ls new).
Proof.
  revert old new. induction ls as [|l ls IH]; intros old new R N F; [exact R|].
  cbn [PatchFilter.fromFirstHunk] in F. unfold PatchFilter.isHunkStart in F.
  destruct (JS.startsWith l "@@") eqn:S.
  - inversion F as [|? ? Hl Hls]; subst. cbn [fold_left run].
    apply related_run_open; [now apply related_step_hunkStart | | exact Hls].
    unfold step. destruct (hunkStart_noHeaderLine l S) as [_ ->]. rewrite S. discriminate.
  - cbn [fold_left run].
    destruct (related_step_closed old new l R N S) as [-> E]. 
    unfold run in IH. rewrite E. now apply IH.
Qed.

Lemma related_finish (old new : state) :
  Legacy.related old new -> finish old = map Legacy.withoutMarkers (finish new).
Proof.
  intros [Hd [Hc _]]. unfold finish. rewrite Hc, Hd.
  destruct (currentHunk new) as [h|]; cbn [option_map]; [|reflexivity].
  cbn [Legacy.withoutMarkers lines]. destruct (lines h); cbn [map]; [reflexivity|].
  now rewrite map_app.
Qed.

(** X15.  Where no line from the first hunk header on starts with [---],
    [+++], [diff --git], [index ], [new file] or [deleted file], the
    earlier [parseDiff] gives the hunks of the present one with the first
    character of every content taken away. *)
Theorem legacy_parseDiff (diff filePath : string) (type : Z) :
  isBinaryDiff diff = false ->
  Forall (fun l => Legacy.noHeaderLine l = true) (PatchFilter.fromFirstHunk (JS.split diff)) ->
  hunks (Legacy.parseDiff diff filePath type) =
  map Legacy.withoutMarkers (hunks (parseDiff diff filePath type)).
Proof.
  intros B F. unfold Legacy.parseDiff, parseDiff. rewrite B. cbn [hunks].
  apply related_finish, related_run; [now repeat split | reflexivity | exact F].
Qed.

End LegacyStructurer.

Lemma legacy_parseDiff_witness :
  DiffStructurer.hunks (Legacy.parseDiff Samples.segment "f.js" 1) =
  [Legacy.withoutMarkers Samples.segmentHunk].
Proof.
  refine (legacy_parseDiff Samples.segment "f.js" 1 eq_refl _).
  match goal with |- Forall ?P ?l => let l' := eval vm_compute in l in change (Forall P l') end.
  repeat constructor.
Defined.

(** ** The numbers of the added lines *)

Section ChangedLines.

Import DiffStructurer StructurerMore.

Lemma step_closed (st : state) (l : string) :
  currentHunk st = None -> JS.startsWith l "@@" = false -> step st l = st.
Proof.
  intros N H. unfold step. rewrite H, N. now destruct (isSkippedHeader l).
Qed.

Lemma changedStep_hunkStart (cl : Legacy.lineState) (l : string) :
  JS.startsWith l "@@" = true -> Legacy.plainLine l = true ->
  Legacy.changedStep cl l =
  {| Legacy.changedLines := Legacy.changedLines cl; Legacy.currentLine := hunkStart l |}.
Proof.
  unfold Legacy.plainLine, Legacy.changedStep, hunkStart. intros ->.
  destruct (Header.parseHeaderMatch l); [reflexivity | discriminate].
Qed.

Lemma stateEntries_hunkStart (st : state) (l : string) :
  JS.startsWith l "@@" = true ->
  stateEntries (step st l) = stateEntries st /\
  currentHunk (step st l) = Some {| header := l; lines := [] |} /\
  currentLineNumber (step st l) = hunkStart l.
Proof.
  intros H. unfold step. destruct (hunkStart_noHeaderLine l H) as [_ ->]. rewrite H.
  split; [|now split].
  unfold stateEntries, pushCurrent. cbn [doneHunks currentHunk lines].
  rewrite app_nil_r. destruct (currentHunk st) as [h|]; [|now rewrite app_nil_r].
  rewrite entries_app. unfold entries at 2. cbn [flat_map]. now rewrite app_nil_r.
Qed.

Lemma stateEntries_push (st : state) (h : Hunk) (e : DiffLine) (n : Z) :
  currentHunk st = Some h ->
  stateEntries {| doneHunks := doneHunks st; currentHunk := Some (push h e);
                  currentLineNumber := n |} = (stateEntries st ++ [e])%list.
Proof.
  intros Hc. unfold stateEntries, push. cbn [doneHunks currentHunk lines].
  now rewrite Hc, app_assoc.
Qed.

(** One line, a hunk being open. *)
Lemma changedStep_open (cl : Legacy.lineState) (st : state) (h : Hunk) (l : string) :
  currentHunk st = Some h ->
  Legacy.currentLine cl = currentLineNumber st ->
  Legacy.plainLine l = true ->
  exists new h',
    stateEntries (step st l) = (stateEntries st ++ new)%list /\
    Legacy.changedLines (Legacy.changedStep cl l) =
      (Legacy.changedLines cl ++ addedNumbers new)%list /\
    currentHunk (step st l) = Some h' /\
    Legacy.currentLine (Legacy.changedStep cl l) = currentLineNumber (step st l).
Proof.
  intros Hc Hn Hl. destruct (JS.startsWith l "@@") eqn:S.
  - destruct (stateEntries_hunkStart st l S) as [E1 [E2 E3]].
    exists [], {| header := l; lines := [] |}.
    rewrite (changedStep_hunkStart cl l S Hl), E1, E3, !app_nil_r. now repeat split.
  - unfold Legacy.plainLine in Hl. rewrite S in Hl.
    apply andb_true_iff in Hl as [Hk Hp]. apply negb_true_iff in Hk, Hp.
    unfold Legacy.changedStep, step. rewrite S, Hk, Hp, Hc, Hn. cbn [negb andb].
    rewrite andb_true_r.
    destruct (JS.startsWith l "+") eqn:Ep.
    { assert (JS.startsWith l "-" = false /\ JS.startsWith l "\" = false) as [-> ->]
        by (apply startsWith_inv in Ep as [r ->]; now split).
      eexists [_], _. cbn [Legacy.changedLines Legacy.currentLine currentHunk
                            currentLineNumber negb andb].
      rewrite (stateEntries_push st h _ _ Hc). now repeat split. }
    destruct (JS.startsWith l "-") eqn:Em.
    { eexists [_], _. cbn [Legacy.changedLines Legacy.currentLine currentHunk
                            currentLineNumber negb andb].
      rewrite (stateEntries_push st h _ _ Hc).
      split; [reflexivity|]. split; [|now split].
      unfold addedNumbers. cbn. now rewrite app_nil_r. }
    destruct (JS.startsWith l "\") eqn:Eb; cbn [negb andb].
    { exists [], h. cbn [Legacy.changedLines Legacy.currentLine].
      rewrite !app_nil_r. now repeat split. }
    eexists [_], _. cbn [Legacy.changedLines Legacy.currentLine currentHunk
                          currentLineNumber].
    rewrite (stateEntries_push st h _ _ Hc).
    split; [reflexivity|]. split; [|now split].
    unfold addedNumbers. cbn. now rewrite app_nil_r.
Qed.

Lemma addedNumbers_app (a b : list DiffLine) : addedNumbers (a ++ b) = (addedNumbers a ++ addedNumbers b)%list.
Proof. unfold addedNumbers. now rewrite filter_app, map_app. Qed.

Lemma changed_run_open (ls : list string) (cl : Legacy.lineState) (st : state) (h : Hunk) :
  currentHunk st = Some h ->
  Legacy.currentLine cl = currentLineNumber st ->
  Forall (fun l => Legacy.plainLine l = true) ls ->
  exists new,
    stateEntries (run ls st) = (stateEntries st ++ new)%list /\
    Legacy.changedLines (fold_left Legacy.changedStep ls cl) =
      (Legacy.changedLines cl ++ addedNumbers new)%list.
Proof.
  revert cl st h. induction ls as [|l ls IH]; intros cl st h Hc Hn F.
  - exists []. cbn. now rewrite !app_nil_r.
  - inversion F as [|? ? Hl Hls]; subst. cbn [fold_left run].
    destruct (changedStep_open cl st h l Hc Hn Hl) as [new [h' [E1 [E2 [E3 E4]]]]].
    destruct (IH _ _ h' E3 E4 Hls) as [new' [E5 E6]].
    exists (new ++ new')%list. unfold run in E5.
    rewrite E5, E6, E1, E2, addedNumbers_app, <- !app_assoc. now split.
Qed.

Lemma changed_run (ls : list string) (cl : Legacy.lineState) (st : state) :
  currentHunk st = None -> stateEntries st = [] ->
  Forall (fun l => Legacy.plainLine l = true) (PatchFilter.fromFirstHunk ls) ->
  Legacy.changedLines (fold_left Legacy.changedStep ls cl) =
  (Legacy.changedLines (fold_left Legacy.changedStep (PatchFilter.beforeFirstHunk ls) cl) ++
   addedNumbers (stateEntries (run ls st)))%list.
Proof.
  revert cl st. induction ls as [|l ls IH]; intros cl st N E F.
  - cbn. rewrite E. now rewrite app_nil_r.
  - cbn [PatchFilter.fromFirstHunk PatchFilter.beforeFirstHunk] in *.
    unfold PatchFilter.isHunkStart in *.
    destruct (JS.startsWith l "@@") eqn:S.
    + inversion F as [|? ? Hl Hls]; subst. cbn [fold_left run].
      destruct (stateEntries_hunkStart st l S) as [E1 [E2 E3]].
      destruct (changed_run_open ls (Legacy.changedStep cl l) (step st l) _ E2)
        as [new [E5 E6]]; [|exact Hls|].
      * now rewrite (changedStep_hunkStart cl l S Hl), E3.
      * unfold run in E5. rewrite E5, E6, E1, E.
        now rewrite (changedStep_hunkStart cl l S Hl).
    + cbn [fold_left run]. rewrite (step_closed st l N S). now apply IH.
Qed.

(** X16.  Where every hunk header is matched by the pattern and no line
    from the first one on is a file-header line, the numbers that
    [parseChangedLines] returns are those it gave to lines before the
    first hunk header, followed by the line numbers of the added entries
    of [parseDiff]. *)
Theorem parseChangedLines_parseDiff (diff filePath : string) (type : Z) :
  isBinaryDiff diff = false ->
  Forall (fun l => Legacy.plainLine l = true) (PatchFilter.fromFirstHunk (JS.split diff)) ->
  Legacy.parseChangedLines diff =
  (Legacy.changedIn (PatchFilter.beforeFirstHunk (JS.split diff)) ++
   addedNumbers (entries (hunks (parseDiff diff filePath type))))%list.
Proof.
  intros B F. unfold parseDiff. rewrite B. cbn [hunks]. rewrite entries_finish.
  unfold Legacy.parseChangedLines, Legacy.changedIn.
  now apply changed_run.
Qed.

End ChangedLines.

Lemma parseChangedLines_parseDiff_witness :
  Legacy.parseChangedLines MoreSamples.twoHunks = [2; 3; 13; 14].
Proof.
  refine (eq_trans (parseChangedLines_parseDiff MoreSamples.twoHunks "f.js" 1 _ _) _).
  - vm_compute. reflexivity.
  - match goal with |- Forall ?P ?l => let l' := eval vm_compute in l in change (Forall P l') end.
    repeat constructor.
  - vm_compute. reflexivity.
Defined.

(** ** The line of the review panel for an entry *)

Section PanelLine.

Import DiffStructurer StructurerMore Webview.

Lemma parseDiff_entry_line (diff filePath : string) (type : Z) (h : Hunk) (e : DiffLine) :
  In h (hunks (parseDiff diff filePath type)) -> In e (lines h) ->
  DiffStructurer.type e = classify (content e).
Proof.
  intros Hh He.
  destruct (isBinaryDiff diff) eqn:B.
  { unfold parseDiff in Hh. rewrite B in Hh. destruct Hh. }
  assert (Hin : In e (entries (hunks (parseDiff diff filePath type)))).
  { unfold entries. apply in_flat_map. now exists h. }
  apply (in_map kindAndContent) in Hin.
  unfold parseDiff in Hin. rewrite B in Hin. cbn [hunks] in Hin.
  rewrite finish_run_entries in Hin.
  apply in_map_iff in Hin as [l [El _]].
  unfold kindAndContent in El. injection El as E1 E2. now rewrite <- E1, E2.
Qed.

Lemma escapeHtml_marker (c : ascii) (rest : string) :
  escapeChar c = String c EmptyString ->
  escapeHtml (String c rest) = String c (escapeHtml rest).
Proof.
  intros H. rewrite !escapeHtml_chars. cbn [escapeChars]. now rewrite H.
Qed.

(** X17.  In the review panel an entry of [parseDiff] is written with its
    marker twice: the kind of an entry is read from the first character
    of its content, so for an added or a removed entry the text of the
    line is the marker, [+] or [-], followed by the escaped content,
    which starts with the same marker. *)
Theorem lineContentHtml_marker
    (diff filePath : string) (type : Z) (h : Hunk) (e : DiffLine) :
  In h (hunks (parseDiff diff filePath type)) -> In e (lines h) ->
  DiffStructurer.type e = classify (content e) /\
  (DiffStructurer.type e <> context ->
   exists rest,
     content e = linePrefix (DiffStructurer.type e) ++ rest /\
     lineContentHtml e =
       linePrefix (DiffStructurer.type e) ++ linePrefix (DiffStructurer.type e) ++
       escapeHtml rest).
Proof.
  intros Hh He. pose proof (parseDiff_entry_line _ _ _ _ _ Hh He) as Hk.
  split; [exact Hk|]. intros Hc. unfold lineContentHtml. rewrite Hk in *.
  unfold classify in *.
  destruct (JS.startsWith (content e) "+") eqn:Ep.
  - apply startsWith_inv in Ep as [rest ->]. exists rest. split; [reflexivity|].
    cbn [linePrefix append]. now rewrite escapeHtml_marker.
  - destruct (JS.startsWith (content e) "-") eqn:Em; [|now destruct Hc].
    apply startsWith_inv in Em as [rest ->]. exists rest. split; [reflexivity|].
    cbn [linePrefix append]. now rewrite escapeHtml_marker.
Qed.

End PanelLine.

Lemma lineContentHtml_marker_witness :
  exists rest,
    "+c" = "+" ++ rest /\
    Webview.lineContentHtml
      {| DiffStructurer.type := DiffStructurer.added;
         DiffStructurer.content := "+c"; DiffStructurer.lineNumber := 8 |} =
    "+" ++ "+" ++ Webview.escapeHtml rest.
Proof.
  refine (proj2 (lineContentHtml_marker Samples.segment "f.js" 1 Samples.segmentHunk
                   {| DiffStructurer.type := DiffStructurer.added;
                      DiffStructurer.content := "+c"; DiffStructurer.lineNumber := 8 |}
                   _ _) _).
  - left. reflexivity.
  - right. right. left. reflexivity.
  - discriminate.
Defined.
